(* ===== verification/_CoqProject ===== *)
-Q . S2P
Prelude.v
Cochains.v
RipsConfig.v
Distance.v
Binomial.v
SimplexIndex.v
Filtration.v
UnionFind.v
Homology0.v
Cohomology.v
Vtk.v
PackageMergeTrees.v
Assembler.v
Clearing.v
ClearingDim1.v
