(* ===== verification/Prelude.v ===== *)
(** * A verification development of the cpsc8030_ttk Rips persistence module

    ** The program

    The repository is a Topology ToolKit (TTK) module set.  Its sources
    under [src/] are

    - [src/core/base/ripsPersistenceDiagram/RipsPersistenceDiagram.h]:
      the class [ttk::RipsPersistenceDiagram]; its state is the three
      parameters [MaxDim] (default 1), [Threshold] (default 1.0) and
      [InputIsDistanceMatrix] (default 0); its entry point
      [execute(points, ph)] hands a point cloud or a distance matrix to
      the Ripser engine ([ripser.h], not among the repository sources)
      and returns the persistence pairs, one vector per dimension;
    - [src/core/base/packageMergeTrees/PackageMergeTrees.h]: the class
      [ttk::PackageMergeTrees], with no state and no operation (its only
      algorithm is commented out);
    - [src/core/vtk/ttkPackageMergeTrees/ttkPackageMergeTrees.{h,cpp}]:
      the VTK filter [ttkPackageMergeTrees]: one input port (a
      [vtkMultiBlockDataSet]), three output ports (two
      [vtkUnstructuredGrid], one [vtkDataSet]), and [RequestData], which
      shallow-copies blocks 0, 1 and 2 of the input into the outputs.

    The persistence computation behind [execute] is described by the
    specification and is not under [src/]; its components are modelled
    from the specification (marked spec-modelled in the manifest).  They
    interact as the specification's data flow says: the distance
    provider feeds the filtration builder, whose edges feed the
    zero-dimensional reducer; the cycle edges it leaves are the columns
    of dimension 1 of the cohomology engine, whose pivots clear the
    columns of the next dimension; the assembler sorts the pairs of each
    dimension.  The simplex indexer is used throughout.

    ** Files (in dependency order)

    - [Prelude] (this file): filtration values as an abstract totally
      preordered type (classes [ValueOrder], [ValueOrderLaws]),
      persistence pairs with an infinite sentinel, Z/2 cochains as
      [gset nat] with their sum [⊕], [min_by_key], shared list lemmas,
      the hint databases [ripser] and [ripser_rw].
    - [Cochains], Module [Cochains]: the group laws of [⊕] and the sum
      [sigma f L] of the cochains [f x] over a set [L], linear in [L].
    - [RipsConfig], Module [RipsConfig]: the record
      [RipsPersistenceDiagram] of the class's parameters, the constructor
      defaults, the error type of section 7.
    - [Distance], Module [Distance]: the distance provider
      [build_distance]; a Euclidean distance [sqrt q] is represented
      exactly by [q] ([dist_value]).
    - [Binomial], Module [Binomial]: the Pascal-rule binomial table and
      its [int64] overflow check.
    - [SimplexIndex], Module [Indexer]: the combinatorial number system
      ([simplex_index], [get_max_vertex], [get_simplex_vertices]).
    - [Filtration], Module [Filtration]: diameters, the filtration order
      and [enumerate_simplices].
    - [UnionFind], Module [UnionFind]: the union-find of the H0 reducer.
    - [Homology0], Module [Homology0]: the loop over the edges
      ([dim0_loop]) and [compute_dim_0_pairs].
    - [Cohomology], Module [Cohomology]: coboundaries, pivots,
      [reduce_column], apparent pairs, [reduce_dim] for one dimension,
      and the clearing of the next dimension's columns.
    - [Vtk], Module [Vtk]: the VTK behaviour the filter relies on (a
      library model, no repository code): types and [IsA],
      [SafeDownCast], [GetBlock], [ShallowCopy], [NewDataObject], data
      arrays and [GetInputArrayToProcess], input connections, the
      [vtkAlgorithm] interface (a type class) and the executive
      [Update], in the order of its passes: creation of the output
      objects, then the connection-count and type checks of the inputs,
      then [RequestData].
    - [PackageMergeTrees], Module [PackageMergeTrees]: the base class,
      the filter's constructor, port declarations and [RequestData], and
      its [vtkAlgorithm] instance.
    - [Assembler], Module [Assembler]: the per-dimension pipeline, the
      sort of section 4.6, [validate_config], [execute] and its
      reference [execute_plain] without apparent pairs.
    - [Clearing], Module [Clearing]: the soundness of clearing, through
      δδ = 0 on the Rips complex and the span of the stored cochains.
    - [ClearingDim1], Module [ClearingDim1]: clearing of dimension 1 by
      the merging edges of H0, and clearing in the whole computation.

    ** What the theorems show

    - Indexer: [get_simplex_vertices] and [simplex_index] are inverse
      bijections between the [k]-simplices on [n] points and the indices
      below [C(n, k+1)] (read from the table built for the run); the
      index order is the lexicographic order; every index fits [int64]
      when the table passes its check; the table agrees with [choose].
    - Filtration: [enumerate_simplices] lists, sorted and without
      repetition, exactly the simplices of the Vietoris-Rips complex at
      the threshold.
    - H0: the union-find refines the connectivity of the Rips graph and
      its roots are the oldest vertices of the components; there are [n]
      H0 pairs, the infinite ones one per component; lowering the
      threshold keeps exactly the finite H0 deaths below it (the
      threshold monotonicity of section 8, for H0); at a threshold above
      every distance there is one infinite pair and [n - 1] finite ones.
    - Cohomology: the reduction loop terminates within its fuel; the
      table invariant (each stored cochain has its pivot, and each of its
      simplices is a cofacet of a simplex no older than its column)
      holds after every column; the apparent-pair shortcut
      computes exactly what the plain reduction computes, in one
      dimension and for the whole of [execute]; every column is
      eventually answered, by a pivot or an essential pair
      ([reduce_dim_settles], the liveness of the reduction).
    - Clearing ([clearing_sound] for one dimension [k+1 >= 2],
      [clearing_dim1_sound] for dimension 1, [compute_barcodes_clearing]
      for every dimension [1..MaxDim] of the computation): the coboundary of a coboundary is zero
      on the Rips complex at the threshold; every stored cochain is a
      cocycle, so the coboundary of a pivot of dimension [k] is the sum
      of the coboundaries of younger [(k+1)]-simplices, which lie in the
      span of the table when it comes up; a sum of stored cochains
      reduces to zero (echelon form).  Hence leaving out the pivots of
      dimension [k] from the columns of dimension [k+1] keeps the pivot
      table and the finite pairs of the full reduction, and drops only
      the essential pairs of the cleared columns.  In dimension 1 the
      cleared edges are those that merge two union-find classes: such an
      edge is the oldest edge leaving the class of one of its ends, and
      the coboundary of that class (a set of vertices) gives the same
      sum of younger coboundaries.
    - [execute]: every diagram it returns has one sorted list per
      dimension [0..MaxDim] with birth [<=] death; it fails exactly on
      the errors of section 7, in their order: a negative [MaxDim] or
      [Threshold], an input the distance provider rejects, a binomial
      coefficient of the run's range beyond [int64] ([execute_errors]);
      scenarios 1, 2 (for every valid configuration) and 3 of the
      specification, evaluated.
    - Filter: [RequestData] on every path, exactly (status [0] or [1],
      error message, null dereference); what it copies, block by block;
      that it never checks the blocks (a missing or mistyped block
      leaves its output as it was, and the run still succeeds); that its
      outputs have the types [FillOutputPortInformation] declares; that
      its input guard is the executive's port-0 check; that it reads one
      merge tree (connection 0 of port 0, the only one the executive
      lets through); that it succeeds only with a field-data array
      selection, so the documented point-data selection always fails;
      and that no pipeline update reaches [RequestData], because the
      executive creates the outputs first and output 2 is declared with
      the abstract type [vtkDataSet].

    ** Bounds and fuel

    - [find] runs with fuel [n], the length of the parent array: a
      parent is smaller than its child, so a path has at most [n] steps.
    - [max_vertex_search] runs with fuel equal to the number of candidate
      vertices: each step at least halves the candidates left
      ([max_vertex_search_spec] needs only [count <= fuel]).
    - [reduce_column] runs with fuel [C(n, k+2) + 1]: each addition makes
      the pivot strictly later in the filtration order, and there are
      [C(n, k+2)] simplices of dimension [k+1] ([reduce_column_terminates]).
    - [IsA] follows at most 4 superclass links, the depth of the VTK
      hierarchy modelled.
    - Indices are [nat]; the C++ engine stores them in [int64_t], and the
      development proves them below [2^63 - 1] when the binomial table
      passes its overflow check ([ResourceExhaustionError] otherwise).

    ** Not modelled

    - The value "infinite" of [Threshold] (a rational threshold only).
    - The optional parallelism of section 5 (the model is sequential; the
      results do not depend on it).
    - Printing ([ttk::Debug]) beyond the one error message of
      [RequestData]; the VTK library beyond the behaviour listed for
      [Vtk].
    - Coefficients other than Z/2.
    - In [GetInputArrayToProcess], the field associations of tables and
      graphs (rows, vertices, edges) and the selection by attribute
      type; the filter's documented selection uses point data.
*)

From stdpp Require Export base list gmap sorting.
From Stdlib Require Export Lia.

Declare Scope ripser_scope.
Delimit Scope ripser_scope with ripser.
Open Scope ripser_scope.

Create HintDb ripser discriminated.
Create Rewrite HintDb ripser_rw.

(** ** Filtration values *)

(** The order on filtration values (diameters).  [vzero] is the value of a
    vertex. *)
Class ValueOrder (V : Type) := {
  vle : V -> V -> bool;
  vzero : V
}.

Class ValueOrderLaws (V : Type) `{ValueOrder V} := {
  vle_refl : forall a, vle a a = true;
  vle_trans : forall a b c, vle a b = true -> vle b c = true -> vle a c = true;
  vle_total : forall a b, vle a b = true \/ vle b a = true
}.

Notation "a ≤ᵥ b" := (vle a b = true) (at level 70) : ripser_scope.

Definition vlt `{ValueOrder V} (a b : V) : bool := negb (vle b a).
Definition vmax `{ValueOrder V} (a b : V) : V := if vle a b then b else a.

Notation "a <ᵥ b" := (vlt a b = true) (at level 70) : ripser_scope.

(** ** Persistence pairs *)

(** A death is a filtration value or the infinite sentinel (specification
    section 3: the sentinel is not a number). *)
Inductive death_value (V : Type) :=
| Finite (d : V)
| Infinite.
Arguments Finite {V} d.
Arguments Infinite {V}.

(** [ripser::pers_pair_t]: the birth and the death of one feature; the
    dimension is the index of the vector that holds it. *)
Record pers_pair (V : Type) := mkPair { birth : V; death : death_value V }.
Arguments mkPair {V} birth death.
Arguments birth {V} p.
Arguments death {V} p.

Definition is_finite {V} (p : pers_pair V) : bool :=
  match death p with Finite _ => true | Infinite => false end.

(** The finite deaths of a list of pairs, in order. *)
Definition finite_deaths {V} (ps : list (pers_pair V)) : list V :=
  omap (fun p => match death p with Finite d => Some d | Infinite => None end) ps.

(** ** Z/2 cochains *)

(** A cochain with coefficients in the two-element field is the set of
    simplices (by index) with coefficient one; the sum is the symmetric
    difference. *)
Definition zsum (A B : gset nat) : gset nat := (A ∖ B) ∪ (B ∖ A).
Infix "⊕" := zsum (at level 50, left associativity) : ripser_scope.

(** ** Minimum of a list by a key *)

(** The first element of [l] with the smallest key (by [lek]). *)
Fixpoint min_by_key {A K} (lek : K -> K -> bool) (key : A -> K) (l : list A) : option A :=
  match l with
  | [] => None
  | x :: l' =>
      match min_by_key lek key l' with
      | None => Some x
      | Some y => if lek (key x) (key y) then Some x else Some y
      end
  end.

(** ** Lemmas on filtration values *)

Section ValueLemmas.
Context `{ValueOrderLaws V}.

Lemma vle_not (a b : V) : vle a b = false -> b ≤ᵥ a.
  Proof. destruct (vle_total a b); congruence. Qed.

Lemma vlt_le (a b : V) : a <ᵥ b -> a ≤ᵥ b.
  Proof. unfold vlt. destruct (vle b a) eqn:E; [done|]. intros _. by apply vle_not. Qed.

Lemma vlt_le_trans (a b c : V) : a <ᵥ b -> b ≤ᵥ c -> a <ᵥ c.
  Proof.
    unfold vlt. intros Hab Hbc. apply negb_true_iff in Hab. apply negb_true_iff.
    destruct (vle c a) eqn:E; [|done].
    pose proof (vle_trans _ _ _ Hbc E). congruence.
  Qed.

Lemma vle_lt_trans (a b c : V) : a ≤ᵥ b -> b <ᵥ c -> a <ᵥ c.
  Proof.
    unfold vlt. intros Hab Hbc. apply negb_true_iff in Hbc. apply negb_true_iff.
    destruct (vle c a) eqn:E; [|done].
    pose proof (vle_trans _ _ _ E Hab). congruence.
  Qed.

Lemma vlt_not_le (a b : V) : a <ᵥ b <-> vle b a = false.
  Proof. unfold vlt. by rewrite negb_true_iff. Qed.

Lemma vmax_le (a b c : V) : vle (vmax a b) c = vle a c && vle b c.
  Proof.
    unfold vmax. destruct (vle a b) eqn:Hab.
    - destruct (vle b c) eqn:Hbc; [by rewrite (vle_trans _ _ _ Hab Hbc)|].
      by rewrite andb_false_r.
    - apply vle_not in Hab. destruct (vle a c) eqn:Hac; [|done].
      by rewrite (vle_trans _ _ _ Hab Hac).
  Qed.

Lemma vle_vmax_l (a b : V) : a ≤ᵥ vmax a b.
  Proof. unfold vmax. destruct (vle a b) eqn:E; [done|apply vle_refl]. Qed.

Lemma vle_vmax_r (a b : V) : b ≤ᵥ vmax a b.
  Proof. unfold vmax. destruct (vle a b) eqn:E; [apply vle_refl|by apply vle_not]. Qed.

End ValueLemmas.

#[export] Hint Resolve vle_refl vle_vmax_l vle_vmax_r vlt_le : ripser.
#[export] Hint Rewrite @vmax_le using typeclasses eauto : ripser_rw.

(** ** Lemmas on lists *)

Lemma filter_map_comm {A B} (f : B -> bool) (g : A -> B) (l : list A) :
  List.filter f (map g l) = map g (List.filter (fun x => f (g x)) l).
Proof. induction l as [|x l IH]; simpl; [done|]. destruct (f (g x)); simpl; by rewrite IH. Qed.

Lemma elem_of_rev {A} (x : A) l : x ∈ rev l <-> x ∈ l.
Proof. rewrite !list_elem_of_In. split; [apply in_rev|apply in_rev]. Qed.

Lemma forallb_false {A} (f : A -> bool) l :
  forallb f l = false -> exists x, In x l /\ f x = false.
Proof.
  induction l as [|y l IH]; simpl; [done|].
  destruct (f y) eqn:Hy; simpl; [|eauto].
  intros (x & ? & ?)%IH. eauto.
Qed.

Lemma filter_filter_weaker {A} (f g : A -> bool) l :
  (forall x, f x = true -> g x = true) -> List.filter f (List.filter g l) = List.filter f l.
Proof.
  intros Hfg. induction l as [|x l IH]; simpl; [done|].
  destruct (g x) eqn:Hg; simpl; destruct (f x) eqn:Hf; rewrite ?IH; try done.
  rewrite (Hfg x Hf) in Hg. discriminate.
Qed.

Lemma Permutation_List_filter {A} (f : A -> bool) l l' :
  l ≡ₚ l' -> List.filter f l ≡ₚ List.filter f l'.
Proof.
  induction 1; simpl; repeat case_match; by econstructor.
Qed.

Lemma filter_all {A} (f : A -> bool) l b :
  (forall x, In x l -> f x = b) -> List.filter f l = if b then l else [].
Proof.
  intros Hf. induction l as [|x l IH]; simpl; [by destruct b|].
  rewrite Hf by (by left). rewrite IH by (intros; apply Hf; by right). by destruct b.
Qed.

Lemma filter_const {A} (b : bool) (l : list A) :
  List.filter (fun _ => b) l = if b then l else [].
Proof. induction l as [|x l IH]; simpl; destruct b; simpl; by rewrite ?IH. Qed.

(** ** Lemmas on Z/2 cochains *)

Lemma elem_of_zsum (A B : gset nat) x :
  x ∈ A ⊕ B <-> (x ∈ A /\ x ∉ B) \/ (x ∈ B /\ x ∉ A).
Proof. unfold zsum. set_solver. Qed.

Lemma zsum_subseteq (A B C : gset nat) : A ⊆ C -> B ⊆ C -> A ⊕ B ⊆ C.
Proof. unfold zsum. set_solver. Qed.

#[export] Hint Resolve zsum_subseteq : ripser.

(** ** The minimum by key *)

Section MinByKey.
Context {A K : Type} (lek : K -> K -> bool) (key : A -> K).
Hypothesis lek_total : forall a b, lek a b = true \/ lek b a = true.
Hypothesis lek_trans : forall a b c, lek a b = true -> lek b c = true -> lek a c = true.

Lemma min_by_key_None l : min_by_key lek key l = None <-> l = [].
Proof. destruct l as [|x l]; simpl; [done|]. destruct (min_by_key lek key l); [destruct lek|]; done. Qed.

Lemma min_by_key_spec l m :
  min_by_key lek key l = Some m -> m ∈ l /\ forall x, x ∈ l -> lek (key m) (key x) = true.
Proof.
  revert m. induction l as [|x l IH]; intros m; simpl; [done|].
  destruct (min_by_key lek key l) as [y|] eqn:Hy.
  - destruct (IH y eq_refl) as [Hyl Hymin].
    destruct (lek (key x) (key y)) eqn:Hxy; intros [= <-]; split.
    + by left.
    + intros z [->|Hz]%elem_of_cons; [by destruct (lek_total (key x) (key x))|].
      eapply lek_trans; [done|by apply Hymin].
    + by right.
    + intros z [->|Hz]%elem_of_cons; [|by apply Hymin].
      destruct (lek_total (key y) (key x)); congruence.
  - apply min_by_key_None in Hy as ->. intros [= <-]. split; [by left|].
    intros z ->%list_elem_of_singleton. by destruct (lek_total (key x) (key x)).
Qed.
End MinByKey.

(** A filter by a stronger test that misses an element of the weaker
    one is strictly shorter. *)
Lemma filter_length_lt {A} (f g : A -> bool) (l : list A) y :
  (forall x, f x = true -> g x = true) -> y ∈ l -> g y = true -> f y = false ->
  length (List.filter f l) < length (List.filter g l).
Proof.
  intros Hfg. induction l as [|x l IH]; [by intros ?%elem_of_nil|].
  intros [->|Hy]%elem_of_cons Hg Hf; simpl.
  - rewrite Hf, Hg. simpl. apply le_n_S.
    clear IH. induction l as [|z l IHl]; simpl; [done|].
    destruct (f z) eqn:Hz; [rewrite (Hfg z Hz); simpl; lia|destruct (g z); simpl; lia].
  - specialize (IH Hy Hg Hf).
    destruct (f x) eqn:Hx; [rewrite (Hfg x Hx); simpl; lia|destruct (g x); simpl; lia].
Qed.

(** Sublists keep a list sorted and its keys distinct. *)
(** Reading back three writes to the first slots of a list (the
    pattern of [RequestData]'s three output copies). *)
Lemma lookup_insert3 {A} (l : list A) x0 x1 x2 i :
  2 < List.length l ->
  (<[0:=x0]> (<[1:=x1]> (<[2:=x2]> l))) !! i =
  match i with 0 => Some x0 | 1 => Some x1 | 2 => Some x2 | _ => l !! i end.
Proof.
  intros Hl. destruct i as [|[|[|i]]];
    rewrite ?(list_lookup_insert_ne _ 0), ?(list_lookup_insert_ne _ 1), ?(list_lookup_insert_ne _ 2),
      ?list_lookup_insert_eq by (rewrite ?length_insert; lia); done.
Qed.

Lemma StronglySorted_sublist {A} (R : relation A) l1 l2 :
  l1 `sublist_of` l2 -> StronglySorted R l2 -> StronglySorted R l1.
Proof.
  induction 1 as [|x l1 l2 Hsub IH|x l1 l2 Hsub IH]; [done| |].
  - intros [Hall Hs]%StronglySorted_cons. apply StronglySorted_cons. split; [|by apply IH].
    rewrite Forall_forall in Hall |- *. intros y Hy. apply Hall. by eapply elem_of_sublist.
  - intros [_ Hs]%StronglySorted_cons. by apply IH.
Qed.

Lemma NoDup_map_sublist {A B} (g : A -> B) l1 l2 :
  l1 `sublist_of` l2 -> NoDup (map g l2) -> NoDup (map g l1).
Proof.
  induction 1 as [|x l1 l2 Hsub IH|x l1 l2 Hsub IH]; simpl; [done| |].
  - intros [Hx Hnd]%NoDup_cons. apply NoDup_cons. split; [|by apply IH].
    intros (y & Hxy & Hy)%list_elem_of_fmap. apply Hx. apply list_elem_of_fmap.
    exists y. split; [done|]. by eapply elem_of_sublist.
  - intros [_ Hnd]%NoDup_cons. by apply IH.
Qed.

Lemma List_filter_sublist {A} (f : A -> bool) l : List.filter f l `sublist_of` l.
Proof.
  induction l as [|x l IH]; simpl; [constructor|]. destruct (f x); by constructor.
Qed.
