(* ===== verification/Cochains.v ===== *)
(** * Sums of Z/2 cochains

    A Z/2 cochain is a set of simplex indices ([gset nat]) and the sum of
    two cochains is their symmetric difference [⊕] ([Prelude]).  This
    file holds the linear algebra the soundness of clearing needs:

    - [sigma f L]: the sum of the cochains [f x] over [x ∈ L], defined by
      parity (a simplex is in the sum when it lies in an odd number of
      the [f x]), with its characterisation [elem_of_sigma];
    - the laws of [⊕] (commutative group, every cochain its own
      inverse);
    - linearity of [sigma] in the set summed over ([sigma_zsum]) and the
      composition of two sums ([sigma_sigma]), the way a coboundary of a
      sum of coboundaries is computed.
*)

From S2P Require Import Prelude.

Module Cochains.

(** ** The group of cochains *)

Lemma zsum_comm (A B : gset nat) : A ⊕ B = B ⊕ A.
Proof. unfold zsum. set_solver. Qed.

Lemma zsum_assoc (A B C : gset nat) : A ⊕ (B ⊕ C) = A ⊕ B ⊕ C.
Proof.
  apply set_eq. intros x. rewrite !elem_of_zsum.
  destruct (decide (x ∈ A)), (decide (x ∈ B)), (decide (x ∈ C)); tauto.
Qed.

Lemma zsum_empty_r (A : gset nat) : A ⊕ ∅ = A.
Proof. unfold zsum. set_solver. Qed.

Lemma zsum_empty_l (A : gset nat) : ∅ ⊕ A = A.
Proof. unfold zsum. set_solver. Qed.

Lemma zsum_self (A : gset nat) : A ⊕ A = ∅.
Proof. unfold zsum. set_solver. Qed.

(** Adding [B] is undone by adding it again. *)
Lemma zsum_cancel_r (A B : gset nat) : A ⊕ B ⊕ B = A.
Proof. by rewrite <- zsum_assoc, zsum_self, zsum_empty_r. Qed.

(** Two cochains add up to zero exactly when they are equal. *)
Lemma zsum_empty_iff (A B : gset nat) : A ⊕ B = ∅ <-> A = B.
Proof.
  split; [|intros ->; apply zsum_self].
  intros Hab. by rewrite <- (zsum_empty_r A), <- Hab, zsum_assoc, zsum_self, zsum_empty_l.
Qed.

(** Two disjoint cochains add up to their union. *)
Lemma zsum_disjoint (A B : gset nat) : A ## B -> A ⊕ B = A ∪ B.
Proof. intros Hd. unfold zsum. set_solver. Qed.

(** ** Parity of sizes *)

Lemma size_zsum (X Y : gset nat) : size (X ⊕ Y) + 2 * size (X ∩ Y) = size X + size Y.
Proof.
  unfold zsum. rewrite size_union by set_solver.
  rewrite (size_difference_alt X Y), (size_difference_alt Y X).
  assert (size (X ∩ Y) <= size X) by (apply subseteq_size; set_solver).
  assert (size (Y ∩ X) <= size Y) by (apply subseteq_size; set_solver).
  rewrite (intersection_comm_L Y X) in *. lia.
Qed.

Lemma odd_size_zsum (X Y : gset nat) :
  Nat.odd (size (X ⊕ Y)) = xorb (Nat.odd (size X)) (Nat.odd (size Y)).
Proof.
  rewrite <- Nat.odd_add, <- size_zsum, Nat.odd_add.
  replace (Nat.odd (2 * size (X ∩ Y))) with false; [by destruct (Nat.odd _)|].
  symmetry. rewrite <- Nat.negb_even, Nat.even_mul. done.
Qed.

(** ** Sums over a set *)

Section Sigma.
Variable f : nat -> gset nat.

(** [sigma f L = ⊕_{x ∈ L} f x]: the simplices in an odd number of the
    [f x]. *)
Definition sigma (L : gset nat) : gset nat :=
  filter (fun u => Nat.odd (size (filter (fun x => u ∈ f x) L)) = true) (set_bind f L).

Lemma elem_of_sigma L u :
  u ∈ sigma L <-> Nat.odd (size (filter (fun x => u ∈ f x) L)) = true.
Proof.
  unfold sigma. rewrite elem_of_filter, elem_of_set_bind. split; [tauto|].
  intros Hodd. split; [done|].
  destruct (set_choose_or_empty (filter (fun x => u ∈ f x) L)) as [[x Hx]|He].
  - apply elem_of_filter in Hx as [Hu Hx]. by exists x.
  - rewrite He, size_empty in Hodd. discriminate.
Qed.

Lemma sigma_empty : sigma ∅ = ∅.
Proof. apply set_eq. intros u. rewrite elem_of_sigma, filter_empty_L, size_empty. split; [discriminate|set_solver]. apply _. Qed.

Lemma sigma_singleton x : sigma {[x]} = f x.
Proof.
  apply set_eq. intros u. rewrite elem_of_sigma, filter_singleton_L by apply _.
  case_decide; [rewrite size_singleton; tauto|].
  rewrite size_empty. split; [discriminate|done].
Qed.

(** [sigma] is linear in the set summed over. *)
Lemma sigma_zsum L1 L2 : sigma (L1 ⊕ L2) = sigma L1 ⊕ sigma L2.
Proof.
  apply set_eq. intros u. rewrite elem_of_zsum, !elem_of_sigma.
  replace (filter (fun x => u ∈ f x) (L1 ⊕ L2))
    with (filter (fun x => u ∈ f x) L1 ⊕ filter (fun x => u ∈ f x) L2)
    by (apply set_eq; intros y; rewrite elem_of_zsum, !elem_of_filter, elem_of_zsum; tauto).
  rewrite odd_size_zsum.
  destruct (Nat.odd (size (filter _ L1))), (Nat.odd (size (filter _ L2))); simpl; intuition congruence.
Qed.

(** Taking an element out of the sum. *)
Lemma sigma_remove L x : x ∈ L -> sigma L = f x ⊕ sigma (L ∖ {[x]}).
Proof.
  intros Hx. rewrite <- sigma_singleton, <- sigma_zsum. f_equal.
  rewrite zsum_disjoint by set_solver. apply set_eq. intros y.
  destruct (decide (y = x)); set_solver.
Qed.

Lemma sigma_insert L x : x ∉ L -> sigma ({[x]} ∪ L) = f x ⊕ sigma L.
Proof. intros Hx. by rewrite <- zsum_disjoint, sigma_zsum, sigma_singleton by set_solver. Qed.

End Sigma.

Lemma sigma_ext f g L : (forall x, x ∈ L -> f x = g x) -> sigma f L = sigma g L.
Proof.
  intros Hfg. apply set_eq. intros u. rewrite !elem_of_sigma.
  replace (filter (fun x => u ∈ f x) L) with (filter (fun x => u ∈ g x) L); [done|].
  apply set_eq. intros x. rewrite !elem_of_filter.
  split; intros [Hu Hx]; rewrite ?Hfg in *; rewrite <- ?Hfg in *; done.
Qed.

(** A sum of sums: [⊕_{y ∈ ⊕_{x ∈ L} f x} g y = ⊕_{x ∈ L} ⊕_{y ∈ f x} g y]. *)
Lemma sigma_sigma g f L : sigma g (sigma f L) = sigma (fun x => sigma g (f x)) L.
Proof.
  induction L as [|x L Hx IH] using set_ind_L.
  - by rewrite !sigma_empty.
  - by rewrite !sigma_insert, sigma_zsum, IH by done.
Qed.

(** A property of cochains closed under sums holds of every sum of
    cochains that have it. *)
Lemma sigma_closed (P : gset nat -> Prop) f L :
  P ∅ -> (forall a b, P a -> P b -> P (a ⊕ b)) -> (forall x, x ∈ L -> P (f x)) -> P (sigma f L).
Proof.
  intros H0 Hz. induction L as [|x L Hx IH] using set_ind_L; intros Hf; [by rewrite sigma_empty|].
  rewrite sigma_insert by done. apply Hz; [apply Hf; set_solver|apply IH; intros; apply Hf; set_solver].
Qed.

(** A sum of empty cochains is empty. *)
Lemma sigma_zero f L : (forall x, x ∈ L -> f x = ∅) -> sigma f L = ∅.
Proof.
  intros Hz. rewrite (sigma_ext f (fun _ => ∅)) by done.
  induction L as [|x L Hx IH] using set_ind_L; [apply sigma_empty|].
  rewrite sigma_insert, IH by (done || set_solver). apply zsum_self.
Qed.

End Cochains.
