(* ===== verification/RipsConfig.v ===== *)
(** * The parameters of [ttk::RipsPersistenceDiagram]

    Source: [src/core/base/ripsPersistenceDiagram/RipsPersistenceDiagram.h].
    The class holds three protected members with default initialisers:
    [int MaxDim{1}], [double Threshold{1.0}] and
    [int InputIsDistanceMatrix{0}].  [execute] reads them; the
    components of the persistence computation are parameterised by this
    record the way the C++ methods read [this->MaxDim] and
    [this->Threshold].

    [int] is modelled by [Z] (the validation in [execute] rejects a
    negative [MaxDim]); [double] by an exact rational [Q] (the
    computation only compares and adds the values it reads).
*)

From S2P Require Import Prelude.
From Stdlib Require Import QArith.

Module RipsConfig.

Record RipsPersistenceDiagram := mkRipsPersistenceDiagram {
  MaxDim : Z;
  Threshold : Q;
  InputIsDistanceMatrix : Z
}.

(** The object as constructed: the members' default initialisers. *)
Definition RipsPersistenceDiagram_new : RipsPersistenceDiagram :=
  mkRipsPersistenceDiagram 1%Z 1%Q 0%Z.

(** The error taxonomy of specification section 7. *)
Inductive rips_error :=
| InvalidInputError
| InvalidConfigurationError
| ResourceExhaustionError.

(** The largest dimension the run handles, as an index. *)
Definition max_dim (self : RipsPersistenceDiagram) : nat := Z.to_nat (MaxDim self).

(** How a [double] read from the input or the parameters becomes a
    filtration value. *)
Class ValueOfDouble (V : Type) := value_of_double : Q -> V.

(** The threshold as a filtration value. *)
Definition threshold `{ValueOfDouble V} (self : RipsPersistenceDiagram) : V :=
  value_of_double (Threshold self).

End RipsConfig.
