(* ===== verification/Distance.v ===== *)
(** * Distance Provider

    Specification section 4.1 (and the open question of section 9).
    [execute] receives one matrix of doubles; [InputIsDistanceMatrix]
    says whether its rows are points or the rows of a distance matrix.
    [build_distance] turns it into the number of points and one distance
    function, or an [InvalidInputError].

    Values.  A Euclidean distance is the square root of a sum of squares;
    [dist_value] represents [sqrt q] exactly by [q] ([Root q]), so that
    comparisons, the only operation the computation performs on
    distances, are exact: [Root a <= Root b] iff [a <= b] for
    non-negative [a], [b].  An entry [x >= 0] of a distance matrix, and
    the threshold, become [Root (x * x)].

    Policy for the open question of section 9: a distance matrix must be
    square, exactly symmetric, with zero diagonal and non-negative
    entries; anything else is an [InvalidInputError] (no
    symmetrisation).  A point cloud must be non-empty with rows of equal
    length.

    Theorems: [build_distance_nonneg] (every distance it returns is
    non-negative) and [build_distance_spec] (on success the size is the
    number of rows, at least one, and the distance is symmetric with a
    zero diagonal below that size).
*)

From S2P Require Import Prelude RipsConfig.
From Stdlib Require Import QArith Qpower.

Module Distance.
Import RipsConfig.RipsConfig.

Record dist_value := Root { sq : Q }.

#[export] Instance dist_value_order : ValueOrder dist_value := {|
  vle a b := Qle_bool (sq a) (sq b);
  vzero := Root 0
|}.

#[export] Instance dist_value_of_double : ValueOfDouble dist_value :=
  fun x => Root (x * x).

(** Squared Euclidean distance of two points. *)
Fixpoint sq_euclidean (p q : list Q) : Q :=
  match p, q with
  | x :: p', y :: q' => (x - y) * (x - y) + sq_euclidean p' q'
  | _, _ => 0
  end.

Definition euclidean (p q : list Q) : dist_value := Root (sq_euclidean p q).

(** The distance function of a point cloud given as a list of rows. *)
Definition cloud_dist (points : list (list Q)) (i j : nat) : dist_value :=
  euclidean (default [] (points !! i)) (default [] (points !! j)).

Definition entry (m : list (list Q)) (i j : nat) : Q :=
  default 0 (m !! i ≫= fun row => row !! j).

(** The checks on a distance matrix of [n] rows. *)
Definition is_square (m : list (list Q)) : bool :=
  forallb (fun row => length row =? length m) m.

Definition is_symmetric (m : list (list Q)) : bool :=
  let n := length m in
  forallb (fun i => forallb (fun j => Qeq_bool (entry m i j) (entry m j i)) (seq 0 n)) (seq 0 n).

Definition has_zero_diagonal (m : list (list Q)) : bool :=
  forallb (fun i => Qeq_bool (entry m i i) 0) (seq 0 (length m)).

Definition is_nonnegative (m : list (list Q)) : bool :=
  forallb (forallb (fun x => Qle_bool 0 x)) m.

(** The checks on a point cloud. *)
Definition rows_equal_length (m : list (list Q)) : bool :=
  match m with
  | [] => true
  | r :: rs => forallb (fun row => length row =? length r) rs
  end.

(** [build(input, is_distance_matrix)]: the number of points and the
    distance function. *)
Definition build_distance (self : RipsPersistenceDiagram) (points : list (list Q))
    : rips_error + (nat * (nat -> nat -> dist_value)) :=
  if length points =? 0 then inl InvalidInputError
  else if negb (Z.eqb (InputIsDistanceMatrix self) 0) then
    if is_square points && is_symmetric points && has_zero_diagonal points
       && is_nonnegative points
    then inr (length points, fun i j => value_of_double (entry points i j))
    else inl InvalidInputError
  else if rows_equal_length points
  then inr (length points, cloud_dist points)
  else inl InvalidInputError.

(** ** Example inputs *)

(** The unit square of specification section 8, scenario 1. *)
Definition unit_square : list (list Q) := [[0; 0]; [1; 0]; [0; 1]; [1; 1]].

(** The configuration of scenario 1: [MaxDim = 1], [Threshold = 2.0]. *)
Definition scenario1_config : RipsPersistenceDiagram := mkRipsPersistenceDiagram 1%Z 2%Q 0%Z.

(** Scenario 1 with the threshold lowered to 0.5, below every distance. *)
Definition scenario1_low_config : RipsPersistenceDiagram := mkRipsPersistenceDiagram 1%Z (1#2)%Q 0%Z.

(** ** Lemmas *)

#[export] Instance dist_value_laws : ValueOrderLaws dist_value.
Proof.
  split; simpl.
  - intros a. apply Qle_bool_iff, Qle_refl.
  - intros a b c. rewrite !Qle_bool_iff. apply Qle_trans.
  - intros a b. rewrite !Qle_bool_iff.
    destruct (Qlt_le_dec (sq a) (sq b)); [left; by apply Qlt_le_weak|by right].
Qed.

Lemma Qsq_nonneg (x : Q) : 0 <= x * x.
Proof. exact (Qsqr_nonneg x). Qed.

Lemma sq_euclidean_nonneg p q : 0 <= sq_euclidean p q.
Proof.
  revert q. induction p as [|x p IH]; intros [|y q]; simpl; try apply Qle_refl.
  apply (Qplus_le_compat 0 _ 0 _); [apply Qsq_nonneg|apply IH].
Qed.

(** Every distance the provider returns is non-negative. *)
Lemma build_distance_nonneg self points n dist :
  build_distance self points = inr (n, dist) -> forall i j, vzero ≤ᵥ dist i j.
Proof.
  unfold build_distance.
  destruct (length points =? 0); [discriminate|].
  destruct (negb (InputIsDistanceMatrix self =? 0)%Z).
  - destruct (_ && _); [|discriminate]. intros [= <- <-] i j.
    apply Qle_bool_iff, Qsq_nonneg.
  - destruct (rows_equal_length points); [|discriminate]. intros [= <- <-] i j.
    apply Qle_bool_iff, sq_euclidean_nonneg.
Qed.

Lemma sq_euclidean_sym p q : sq_euclidean p q == sq_euclidean q p.
Proof.
  revert q. induction p as [|x p IH]; intros [|y q]; simpl; try reflexivity.
  rewrite IH. ring.
Qed.

Lemma sq_euclidean_diag p : sq_euclidean p p == 0.
Proof. induction p as [|x p IH]; simpl; [reflexivity|]. rewrite IH. ring. Qed.

Lemma forallb_seq_spec (f : nat -> bool) n :
  forallb f (seq 0 n) = true <-> forall i, (i < n)%nat -> f i = true.
Proof.
  rewrite forallb_forall. split.
  - intros Hf i Hi. apply Hf, in_seq. lia.
  - intros Hf i Hi. apply in_seq in Hi. apply Hf. lia.
Qed.

(** The contract of the distance provider: [n] is the number of rows,
    and the distance is symmetric with a zero diagonal on [0..n-1]. *)
Lemma build_distance_spec self points n dist :
  build_distance self points = inr (n, dist) ->
  n = length points /\ (1 <= n)%nat /\
  (forall i j, (i < n)%nat -> (j < n)%nat -> sq (dist i j) == sq (dist j i)) /\
  (forall i, (i < n)%nat -> sq (dist i i) == 0).
Proof.
  unfold build_distance.
  destruct (Nat.eqb_spec (length points) 0) as [|Hne]; [discriminate|].
  destruct (negb (InputIsDistanceMatrix self =? 0)%Z).
  - destruct (is_square points && is_symmetric points && has_zero_diagonal points
              && is_nonnegative points) eqn:Hc; [|discriminate].
    intros [= <- <-]. apply andb_true_iff in Hc as [Hc _].
    apply andb_true_iff in Hc as [Hc Hdiag]. apply andb_true_iff in Hc as [_ Hsym].
    unfold is_symmetric in Hsym. unfold has_zero_diagonal in Hdiag.
    rewrite forallb_seq_spec in Hsym, Hdiag.
    split_and!; [done|lia| |].
    + intros i j Hi Hj. specialize (Hsym i Hi). rewrite forallb_seq_spec in Hsym.
      specialize (Hsym j Hj). apply Qeq_bool_iff in Hsym. simpl. by rewrite Hsym.
    + intros i Hi. specialize (Hdiag i Hi). apply Qeq_bool_iff in Hdiag. simpl.
      rewrite Hdiag. reflexivity.
  - destruct (rows_equal_length points); [|discriminate]. intros [= <- <-].
    split_and!; [done|lia| |].
    + intros i j _ _. apply sq_euclidean_sym.
    + intros i _. apply sq_euclidean_diag.
Qed.

(** The only error of the distance provider is [InvalidInputError]. *)
Lemma build_distance_error self points e :
  build_distance self points = inl e -> e = InvalidInputError.
Proof.
  unfold build_distance. repeat case_match; by intros [= <-].
Qed.

End Distance.
