(* ===== verification/Binomial.v ===== *)
(** * Binomial coefficients and their table

    Specification sections 4.2 and 9 (design note "Recursive
    combinatorial indexing"): the binomial coefficients used by the
    simplex indexer are read from a table built once per run, row by row
    by Pascal's rule, and checked against the largest index an
    [int64_t] can hold.

    - [choose]: the reference coefficient;
    - [binomial_coeff_table n k], [binomial_coeff]: the table (rows
      [0..n], columns [0..k]) and its lookup;
    - [table_fits]: the overflow check of the table;
    - [binomial_coeff_table_spec]: the table agrees with [choose] on its
      whole range.
*)

From S2P Require Import Prelude RipsConfig.

Module Binomial.

(** Reference binomial coefficient, by Pascal's rule. *)
Fixpoint choose (n k : nat) : nat :=
  match n, k with
  | _, 0 => 1
  | 0, S _ => 0
  | S n', S k' => choose n' k' + choose n' k
  end.

(** One row of the table from the previous one: entry [j] of the next
    row is entry [j-1] plus entry [j] of this row. *)
Fixpoint pascal_sums (prev : nat) (row : list nat) : list nat :=
  match row with
  | [] => []
  | x :: row' => (prev + x) :: pascal_sums x row'
  end.

Definition next_row (row : list nat) : list nat :=
  match row with
  | [] => []
  | x :: row' => 1 :: pascal_sums x row'
  end.

Fixpoint table_rows (m : nat) (row : list nat) : list (list nat) :=
  match m with
  | 0 => [row]
  | S m' => row :: table_rows m' (next_row row)
  end.

(** [binomial_coeff_table n k]: rows [0..n], columns [0..k]. *)
Definition binomial_coeff_table (n k : nat) : list (list nat) :=
  table_rows n (1 :: replicate k 0).

(** Lookup [B[i][j]]; outside the table the lookup yields [0]. *)
Definition binomial_coeff (B : list (list nat)) (i j : nat) : nat :=
  default 0 (B !! i ≫= fun row => row !! j).

(** Largest index an [int64_t] simplex index may take. *)
Definition max_simplex_index : Z := (2 ^ 63 - 1)%Z.

(** The overflow check run while the table is built: every entry fits. *)
Definition table_fits (B : list (list nat)) : bool :=
  forallb (forallb (fun x => Z.leb (Z.of_nat x) max_simplex_index)) B.

(** Row [i] of Pascal's triangle, cut at column [k]. *)
Definition pascal_row (i k : nat) : list nat := map (choose i) (seq 0 (S k)).

(** *** Lemmas on [choose] *)

Lemma choose_0_r n : choose n 0 = 1.
Proof. by destruct n. Qed.

Lemma choose_succ n k : choose (S n) (S k) = choose n k + choose n (S k).
Proof. reflexivity. Qed.

Lemma choose_gt n k : n < k -> choose n k = 0.
Proof.
  revert k. induction n as [|n IH]; intros [|k] Hk; simpl; try lia.
  rewrite !IH; lia.
Qed.

Lemma choose_1_r n : choose n 1 = n.
Proof. induction n as [|n IH]; [done|]. rewrite choose_succ, choose_0_r, IH. lia. Qed.

Lemma choose_pos n k : k <= n -> 0 < choose n k.
Proof.
  revert k. induction n as [|n IH]; intros [|k] Hk; simpl; try lia.
  pose proof (IH k ltac:(lia)). lia.
Qed.

Lemma choose_mono_n n m k : n <= m -> choose n k <= choose m k.
Proof.
  induction 1 as [|m _ IH]; [done|]. destruct k as [|k]; [by rewrite !choose_0_r|].
  rewrite choose_succ. lia.
Qed.

(** For [k >= 1] the coefficient strictly grows from row [k-1] on. *)
Lemma choose_lt_succ n k : k - 1 <= n -> 1 <= k -> choose n k < choose (S n) k.
Proof.
  intros Hn Hk. destruct k as [|k]; [lia|].
  rewrite choose_succ. pose proof (choose_pos n k ltac:(lia)). lia.
Qed.

Lemma choose_lt_mono n m k :
  k - 1 <= n -> 1 <= k -> n < m -> choose n k < choose m k.
Proof.
  intros Hn Hk Hm. eapply Nat.lt_le_trans; [by apply choose_lt_succ|].
  apply choose_mono_n. lia.
Qed.

(** *** The table *)

Lemma length_pascal_sums prev row : length (pascal_sums prev row) = length row.
Proof. revert prev. induction row; simpl; auto. Qed.

Lemma length_next_row row : length (next_row row) = length row.
Proof. destruct row; simpl; [done|]. by rewrite length_pascal_sums. Qed.

Lemma pascal_sums_row i s m :
  pascal_sums (choose i s) (map (choose i) (seq (S s) m)) =
  map (choose (S i)) (seq (S s) m).
Proof.
  revert s. induction m as [|m IH]; intros s; [done|].
  simpl. rewrite IH. done.
Qed.

Lemma next_row_pascal i k : next_row (pascal_row i k) = pascal_row (S i) k.
Proof.
  unfold pascal_row. change (seq 0 (S k)) with (0 :: seq 1 k). rewrite !map_cons.
  cbn [next_row]. rewrite (pascal_sums_row i 0 k). by rewrite choose_0_r.
Qed.

Lemma table_rows_lookup m i k r :
  r <= m -> table_rows m (pascal_row i k) !! r = Some (pascal_row (r + i) k).
Proof.
  revert i r. induction m as [|m IH]; intros i [|r] Hr; try (done || lia).
  change (table_rows (S m) (pascal_row i k) !! S r)
    with (table_rows m (next_row (pascal_row i k)) !! r).
  rewrite next_row_pascal, IH by lia. do 2 f_equal. lia.
Qed.

Lemma map_choose_0 s k : map (choose 0) (seq (S s) k) = replicate k 0.
Proof. revert s. induction k as [|k IH]; intros s; [done|]. cbn [seq map replicate]. by rewrite IH. Qed.

Lemma pascal_row_0 k : pascal_row 0 k = 1 :: replicate k 0.
Proof.
  unfold pascal_row. change (seq 0 (S k)) with (0 :: seq 1 k).
  by rewrite map_cons, map_choose_0.
Qed.

(** The table built row by row by Pascal's rule agrees with the
    binomial coefficient [C(i,j)] on its whole range [i <= n], [j <= k]. *)
Lemma binomial_coeff_table_spec n k i j :
  i <= n -> j <= k -> binomial_coeff (binomial_coeff_table n k) i j = choose i j.
Proof.
  intros Hi Hj. unfold binomial_coeff, binomial_coeff_table.
  rewrite <- pascal_row_0.
  rewrite table_rows_lookup by done. simpl. unfold pascal_row.
  rewrite list_lookup_fmap, lookup_seq_lt by lia. simpl. f_equal. lia.
Qed.

(** Every lookup in a table that passed the overflow check fits. *)
Lemma table_fits_lookup B i j :
  table_fits B = true -> (Z.of_nat (binomial_coeff B i j) <= max_simplex_index)%Z.
Proof.
  unfold table_fits, binomial_coeff. rewrite forallb_forall. intros Hfit.
  destruct (B !! i) as [row|] eqn:Hrow; simpl; [|unfold max_simplex_index; lia].
  destruct (row !! j) as [x|] eqn:Hx; simpl; [|unfold max_simplex_index; lia].
  apply list_elem_of_lookup_2, list_elem_of_In in Hrow, Hx.
  specialize (Hfit row Hrow). rewrite forallb_forall in Hfit.
  specialize (Hfit x Hx). by apply Z.leb_le in Hfit.
Qed.

Lemma length_table_rows m row : length (table_rows m row) = S m.
Proof. revert row. induction m as [|m IH]; intros row; simpl; [done|by rewrite IH]. Qed.

(** The overflow check passes exactly when every [C(i,j)] of the range
    fits ([table_fits_choose] and [table_fits_iff]). *)
(** The entries of the table are the [C(i,j)], [i <= n], [j <= k]. *)
Lemma table_entries n k row x :
  In row (binomial_coeff_table n k) -> In x row ->
  exists i j, i <= n /\ j <= k /\ x = choose i j.
Proof.
  intros Hrow Hx. apply list_elem_of_In, list_elem_of_lookup in Hrow as [r Hr].
  pose proof (lookup_lt_Some _ _ _ Hr) as Hlt.
  unfold binomial_coeff_table in *. rewrite length_table_rows in Hlt.
  rewrite <- pascal_row_0, table_rows_lookup in Hr by lia. injection Hr as <-.
  apply list_elem_of_In in Hx. unfold pascal_row in Hx.
  apply list_elem_of_fmap in Hx as (j & -> & Hj).
  apply list_elem_of_In, in_seq in Hj. exists (r + 0), j. split_and!; [lia|lia|done].
Qed.

Lemma table_fits_choose n k :
  (forall i j, i <= n -> j <= k -> (Z.of_nat (choose i j) <= max_simplex_index)%Z) ->
  table_fits (binomial_coeff_table n k) = true.
Proof.
  intros Hall. unfold table_fits. apply forallb_forall. intros row Hrow.
  apply forallb_forall. intros x Hx. apply Z.leb_le.
  destruct (table_entries n k row x Hrow Hx) as (i & j & ? & ? & ->). by apply Hall.
Qed.

(** A failed check names a coefficient of the range that overflows. *)
Lemma table_fits_false n k :
  table_fits (binomial_coeff_table n k) = false ->
  exists i j, i <= n /\ j <= k /\ (max_simplex_index < Z.of_nat (choose i j))%Z.
Proof.
  unfold table_fits. intros (row & Hrow & (x & Hx & Hle)%forallb_false)%forallb_false.
  apply Z.leb_gt in Hle. destruct (table_entries n k row x Hrow Hx) as (i & j & ? & ? & ->).
  eauto.
Qed.

Lemma table_fits_iff n k :
  table_fits (binomial_coeff_table n k) = true <->
  forall i j, i <= n -> j <= k -> (Z.of_nat (choose i j) <= max_simplex_index)%Z.
Proof.
  split; [|apply table_fits_choose].
  intros Hfit i j Hi Hj. rewrite <- binomial_coeff_table_spec with (n := n) (k := k) by done.
  by apply table_fits_lookup.
Qed.



(** The binomial table [execute] builds for [n] points (rows
    [0..n], columns [0..MaxDim+2]) agrees with the binomial coefficient
    [C(i,j)] on its whole range. *)
Theorem rips_binomial_table_spec self n i j :
  i <= n -> j <= RipsConfig.max_dim self + 2 ->
  binomial_coeff (binomial_coeff_table n (RipsConfig.max_dim self + 2)) i j = choose i j.
Proof. apply binomial_coeff_table_spec. Qed.

Lemma rips_binomial_table_spec_witness :
  binomial_coeff (binomial_coeff_table 6 (RipsConfig.max_dim RipsConfig.RipsPersistenceDiagram_new + 2)) 5 2
  = choose 5 2.
Proof.
  apply (rips_binomial_table_spec RipsConfig.RipsPersistenceDiagram_new 6 5 2); vm_compute; lia.
Defined.

End Binomial.
