(* ===== verification/SimplexIndex.v ===== *)
(** * Simplex Indexer: the combinatorial number system

    Specification section 4.2.  A [k]-simplex is a set of [k+1] vertices
    of [{0..n-1}]; it is stored as one integer, the sum of the binomial
    coefficients [C(v_i, i+1)] of its vertices [v_k > ... > v_0], read
    from the table of [Binomial].

    - [simplex_index] (vertices to index), [get_max_vertex] (binary
      search for the top vertex of an index), [get_simplex_vertices]
      (index to vertices), all parameterised by the binomial lookup [B];
    - [table_binomial n K]: the lookup of the table built for [n]
      vertices and simplices of up to [K] vertices;
    - theorems: both round trips, the index bound, index order equals the
      lexicographic order of the decreasing vertex lists, and the int64
      bound of every index when the table passes its overflow check.
*)

From S2P Require Import Prelude RipsConfig Binomial.

Module Indexer.
Import Binomial.Binomial RipsConfig.RipsConfig.

(** [desc_below N vs]: the vertices of [vs] are strictly decreasing and
    all below [N]; this is a simplex on the vertex set [{0..N-1}] listed
    the way the index arithmetic lists it. *)
Fixpoint desc_below (N : nat) (vs : list nat) : Prop :=
  match vs with
  | [] => True
  | v :: vs' => v < N /\ desc_below v vs'
  end.

Fixpoint desc_belowb (N : nat) (vs : list nat) : bool :=
  match vs with
  | [] => true
  | v :: vs' => (v <? N) && desc_belowb v vs'
  end.

Section WithBinomial.
Variable B : nat -> nat -> nat.

  (** Index of the simplex [v_k > ... > v_0]: [sum_i B(v_i, i+1)]. *)
Fixpoint simplex_index (vs : list nat) : nat :=
    match vs with
    | [] => 0
    | v :: vs' => B v (length vs) + simplex_index vs'
    end.

  (** The binary search loop of [get_max_vertex]: [count] candidates below
      [top] remain; [fuel] bounds the iterations (each one decreases
      [count]). *)
Fixpoint max_vertex_search (fuel idx k top count : nat) : nat :=
    match fuel with
    | 0 => top
    | S fuel' =>
        if count =? 0 then top
        else
          let step := count / 2 in
          let mid := top - step in
          if negb (B mid k <=? idx)
          then max_vertex_search fuel' idx k (mid - 1) (count - (step + 1))
          else max_vertex_search fuel' idx k top step
    end.

  (** Largest vertex [v <= n] with [B(v, k) <= idx]. *)
Definition get_max_vertex (idx k n : nat) : nat :=
    let top := n in
    let bottom := k - 1 in
    if negb (B top k <=? idx)
    then max_vertex_search (top - bottom) idx k top (top - bottom)
    else top.

  (** The [k] largest-first vertices of the simplex of index [idx]. *)
Fixpoint vertices_from (idx k n : nat) : list nat :=
    match k with
    | 0 => []
    | S k' =>
        let v := get_max_vertex idx k n in
        v :: vertices_from (idx - B v k) k' v
    end.

Definition get_simplex_vertices (idx dim n : nat) : list nat :=
    vertices_from idx (S dim) (n - 1).
End WithBinomial.

(** The binomial lookup of the table built for [n] vertices and
    simplices of up to [K] vertices. *)
Definition table_binomial (n K : nat) : nat -> nat -> nat :=
  binomial_coeff (binomial_coeff_table n K).

(** The table [execute] builds for [n] points: columns up to
    [MaxDim + 2], the number of vertices of a cofacet of a simplex of the
    highest dimension. *)
Definition rips_binomial (self : RipsPersistenceDiagram) (n : nat) : nat -> nat -> nat :=
  table_binomial n (max_dim self + 2).

(** Strict lexicographic order of two vertex lists. *)
Fixpoint lex_lt (vs ws : list nat) : Prop :=
  match vs, ws with
  | v :: vs', w :: ws' => v < w \/ (v = w /\ lex_lt vs' ws')
  | _, _ => False
  end.

(** *** Helper lemmas on [desc_below] *)

Lemma desc_belowb_spec N vs : desc_belowb N vs = true <-> desc_below N vs.
Proof.
  revert N. induction vs as [|v vs IH]; intros N; simpl; [done|].
  rewrite andb_true_iff, Nat.ltb_lt, IH. done.
Qed.

Lemma desc_below_weaken N M vs : N <= M -> desc_below N vs -> desc_below M vs.
Proof. destruct vs; simpl; [done|]. intros ? [? ?]. split; [lia|done]. Qed.

Lemma desc_below_all N vs : desc_below N vs -> Forall (fun v => v < N) vs.
Proof.
  revert N. induction vs as [|v vs IH]; intros N; simpl; [done|].
  intros [Hv Hd]. constructor; [done|].
  eapply Forall_impl; [by apply IH|]. simpl. lia.
Qed.

Lemma desc_below_NoDup N vs : desc_below N vs -> NoDup vs.
Proof.
  revert N. induction vs as [|v vs IH]; intros N; simpl; [constructor|].
  intros [Hv Hd]. constructor; [|by eapply IH].
  intros Hin. apply desc_below_all in Hd. rewrite Forall_forall in Hd.
  specialize (Hd v Hin). lia.
Qed.

#[export] Hint Resolve desc_below_weaken desc_below_NoDup : ripser.

(** *** Index bounds *)

(** The index of a [k]-vertex simplex below [N] is below [C(N, k)]. *)
Lemma simplex_index_lt N vs :
  desc_below N vs -> simplex_index choose vs < choose N (length vs).
Proof.
  revert N. induction vs as [|v vs IH]; intros N; simpl; [rewrite choose_0_r; lia|].
  intros [Hv Hd]. specialize (IH v Hd).
  pose proof (choose_mono_n (S v) N (S (length vs)) ltac:(lia)).
  rewrite choose_succ in H. lia.
Qed.

(** The index lies between [C(v,k)] and [C(v+1,k)], [v] the top vertex. *)
Lemma simplex_index_head N v vs :
  desc_below N (v :: vs) ->
  choose v (S (length vs)) <= simplex_index choose (v :: vs) <
  choose (S v) (S (length vs)).
Proof.
  intros [Hv Hd]. simpl. pose proof (simplex_index_lt v vs Hd).
  lia.
Qed.

(** *** The binary search finds the largest vertex *)

Lemma max_vertex_search_spec idx k fuel top count :
  count <= fuel -> count <= top ->
  choose (top - count) k <= idx -> idx < choose (S top) k ->
  let a := max_vertex_search choose fuel idx k top count in
  a <= top /\ choose a k <= idx /\ idx < choose (S a) k.
Proof.
  revert top count. induction fuel as [|fuel IH]; intros top count Hf Hc Hlo Hhi; cbn [max_vertex_search].
  - replace (top - count) with top in Hlo by lia. lia.
  - destruct (Nat.eqb_spec count 0) as [->|Hc0].
    { rewrite Nat.sub_0_r in Hlo. lia. }
    pose proof (Nat.div_mod count 2 ltac:(lia)) as Hdm.
    pose proof (Nat.mod_upper_bound count 2 ltac:(lia)) as Hmod.
    set (step := count / 2) in *. set (r := count mod 2) in *. clearbody step r.
    destruct (Nat.leb_spec (choose (top - step) k) idx) as [Hmid|Hmid]; cbn [negb].
    + destruct (IH top step) as (? & ? & ?); [lia|lia| |done|]; [|lia].
      eapply Nat.le_trans; [|exact Hmid]. apply choose_mono_n. lia.
    + destruct (IH (top - step - 1) (count - (step + 1))) as (? & ? & ?); try lia.
      * by replace (top - step - 1 - (count - (step + 1))) with (top - count) by lia.
      * by replace (S (top - step - 1)) with (top - step) by lia.
Qed.

(** Behaviour of [get_max_vertex]: a vertex [a <= top] with
    [C(a,k) <= idx], and [idx < C(a+1,k)] unless [a] is [top] itself. *)
Lemma get_max_vertex_spec idx k top :
  1 <= k ->
  let a := get_max_vertex choose idx k top in
  a <= top /\ choose a k <= idx /\ (a < top -> idx < choose (S a) k).
Proof.
  intros Hk. unfold get_max_vertex.
  destruct (Nat.leb_spec (choose top k) idx) as [Htop|Htop]; cbn [negb]; [lia|].
  assert (k <= top).
  { destruct (Nat.le_gt_cases k top) as [|Hlt]; [done|].
    rewrite choose_gt in Htop by lia. lia. }
  destruct (max_vertex_search_spec idx k (top - (k - 1)) top (top - (k - 1)))
    as (? & ? & ?); try lia.
  - replace (top - (top - (k - 1))) with (k - 1) by lia.
    rewrite choose_gt by lia. lia.
  - pose proof (choose_mono_n top (S top) k ltac:(lia)). lia.
Qed.

(** The vertex found is the unique [v] with [C(v,k) <= idx < C(v+1,k)]. *)
Lemma get_max_vertex_eq idx k top v :
  1 <= k -> v <= top -> choose v k <= idx -> idx < choose (S v) k ->
  get_max_vertex choose idx k top = v.
Proof.
  intros Hk Hv Hlo Hhi.
  destruct (get_max_vertex_spec idx k top Hk) as (Ha & Halo & Hahi).
  set (a := get_max_vertex choose idx k top) in *.
  destruct (Nat.lt_trichotomy a v) as [Hlt|[Heq|Hgt]]; [|done|].
  - pose proof (choose_mono_n (S a) v k ltac:(lia)). specialize (Hahi ltac:(lia)). lia.
  - pose proof (choose_mono_n (S v) a k ltac:(lia)). lia.
Qed.

(** *** Round trips *)

Lemma vertices_from_index vs top :
  desc_below (S top) vs ->
  vertices_from choose (simplex_index choose vs) (length vs) top = vs.
Proof.
  revert top. induction vs as [|v vs IH]; intros top Hd; [done|].
  pose proof (simplex_index_head (S top) v vs Hd) as Hb.
  destruct Hd as [Hv Hd].
  cbn [vertices_from length].
  rewrite (get_max_vertex_eq _ _ top v) by (lia || done).
  f_equal. cbn [simplex_index length].
  replace (choose v (S (length vs)) + simplex_index choose vs - choose v (S (length vs)))
    with (simplex_index choose vs) by lia.
  apply IH. eapply desc_below_weaken; [|done]. lia.
Qed.

Lemma vertices_from_spec k : forall top idx T,
  T <= S top -> idx < choose T k ->
  desc_below T (vertices_from choose idx k top) /\
  length (vertices_from choose idx k top) = k /\
  simplex_index choose (vertices_from choose idx k top) = idx.
Proof.
  induction k as [|m IH]; intros top idx T HT Hidx.
  - rewrite choose_0_r in Hidx. simpl. repeat split; lia.
  - cbn [vertices_from].
    destruct (get_max_vertex_spec idx (S m) top ltac:(lia)) as (Hv & Hlo & Hhi).
    set (v := get_max_vertex choose idx (S m) top) in *.
    assert (Hhi' : idx < choose (S v) (S m)).
    { destruct (Nat.eq_dec v top) as [->|]; [|apply Hhi; lia].
      pose proof (choose_mono_n T (S top) (S m) HT). lia. }
    assert (HvT : v < T).
    { destruct (Nat.lt_ge_cases v T) as [|Hge]; [done|].
      pose proof (choose_mono_n T v (S m) Hge). lia. }
    rewrite choose_succ in Hhi'.
    destruct (IH v (idx - choose v (S m)) v) as (Hd & Hl & Hi); [lia|lia|].
    cbn [desc_below length simplex_index]. rewrite Hl, Hi. repeat split; (done || lia).
Qed.

(** *** The table in place of [choose] *)

(** The functions read [B] only inside the table's range. *)
Lemma simplex_index_ext B1 B2 N K vs :
  (forall i j, i < N -> j <= K -> B1 i j = B2 i j) ->
  desc_below N vs -> length vs <= K ->
  simplex_index B1 vs = simplex_index B2 vs.
Proof.
  revert N. induction vs as [|v vs IH]; intros N HB Hd Hl; [done|].
  destruct Hd as [Hv Hd]. cbn [simplex_index length] in *.
  rewrite HB by lia. f_equal. apply (IH v); [|done|lia].
  intros i j ? ?. apply HB; lia.
Qed.

Lemma max_vertex_search_le B fuel idx k top count :
  max_vertex_search B fuel idx k top count <= top.
Proof.
  revert top count. induction fuel as [|fuel IH]; intros top count; cbn [max_vertex_search]; [lia|].
  destruct (count =? 0); [lia|]. destruct (negb _).
  - specialize (IH (top - count / 2 - 1) (count - (count / 2 + 1))). lia.
  - apply IH.
Qed.

Lemma max_vertex_search_ext B1 B2 fuel idx k top count :
  (forall i, i <= top -> B1 i k = B2 i k) ->
  max_vertex_search B1 fuel idx k top count = max_vertex_search B2 fuel idx k top count.
Proof.
  revert top count. induction fuel as [|fuel IH]; intros top count HB; [done|].
  cbn [max_vertex_search]. destruct (count =? 0); [done|].
  rewrite HB by lia. destruct (negb _); apply IH; intros; apply HB; lia.
Qed.

Lemma get_max_vertex_le B idx k top : get_max_vertex B idx k top <= top.
Proof.
  unfold get_max_vertex. destruct (negb _); [apply max_vertex_search_le|lia].
Qed.

Lemma vertices_from_ext B1 B2 idx k top :
  (forall i j, i <= top -> j <= k -> B1 i j = B2 i j) ->
  vertices_from B1 idx k top = vertices_from B2 idx k top.
Proof.
  revert idx top. induction k as [|k IH]; intros idx top HB; [done|].
  cbn [vertices_from].
  assert (Hg : get_max_vertex B1 idx (S k) top = get_max_vertex B2 idx (S k) top).
  { unfold get_max_vertex. rewrite HB by lia.
    rewrite (max_vertex_search_ext B1 B2); [done|]. intros; apply HB; lia. }
  rewrite Hg. pose proof (get_max_vertex_le B2 idx (S k) top).
  rewrite HB by lia. f_equal. apply IH. intros; apply HB; lia.
Qed.

Lemma table_binomial_choose n K i j :
  i <= n -> j <= K -> table_binomial n K i j = choose i j.
Proof. apply binomial_coeff_table_spec. Qed.

Lemma simplex_index_table n K vs :
  desc_below n vs -> length vs <= K ->
  simplex_index (table_binomial n K) vs = simplex_index choose vs.
Proof.
  intros. eapply simplex_index_ext; [|done|done].
  intros. apply table_binomial_choose; lia.
Qed.

Lemma get_simplex_vertices_table n K idx dim :
  dim < K ->
  get_simplex_vertices (table_binomial n K) idx dim n = get_simplex_vertices choose idx dim n.
Proof.
  intros. apply vertices_from_ext. intros. apply table_binomial_choose; lia.
Qed.

(** *** Lexicographic order of decreasing vertex lists *)

Lemma lex_lt_trichotomy vs ws :
  length vs = length ws -> vs = ws \/ lex_lt vs ws \/ lex_lt ws vs.
Proof.
  revert ws. induction vs as [|v vs IH]; intros [|w ws] Hl; simpl in *; try (by left) || lia.
  destruct (Nat.lt_trichotomy v w) as [|[->|]]; [tauto| |tauto].
  destruct (IH ws ltac:(lia)) as [->|[|]]; tauto.
Qed.

Lemma simplex_index_lex_lt N vs ws :
  desc_below N vs -> desc_below N ws -> length vs = length ws -> lex_lt vs ws ->
  simplex_index choose vs < simplex_index choose ws.
Proof.
  revert N ws. induction vs as [|v vs IH]; intros N [|w ws] Hv Hw Hl Hlex; simpl in Hlex; try done.
  pose proof (simplex_index_head N v vs Hv). pose proof (simplex_index_head N w ws Hw).
  cbn [length] in Hl. injection Hl as Hl.
  destruct Hlex as [Hlt|[Hvw Hlex]]; [|subst w].
  - pose proof (choose_mono_n (S v) w (S (length ws)) ltac:(lia)). rewrite Hl in *. lia.
  - destruct Hv as [_ Hv], Hw as [_ Hw]. specialize (IH v ws Hv Hw Hl Hlex).
    cbn [simplex_index length]. rewrite Hl. lia.
Qed.

(** *** Properties of the indexer *)

(** *** Round trips through the table *)

Lemma rips_vertices_index self n dim vs :
  dim <= max_dim self + 1 -> desc_below n vs -> length vs = S dim ->
  get_simplex_vertices (rips_binomial self n)
    (simplex_index (rips_binomial self n) vs) dim n = vs.
Proof.
  intros HK Hd Hl. unfold rips_binomial.
  rewrite get_simplex_vertices_table, simplex_index_table by (done || lia).
  unfold get_simplex_vertices. rewrite <- Hl. apply vertices_from_index.
  eapply desc_below_weaken; [|done]. lia.
Qed.

Lemma rips_index_vertices self n dim idx :
  dim <= max_dim self + 1 -> idx < choose n (S dim) ->
  desc_below n (get_simplex_vertices (rips_binomial self n) idx dim n) /\
  length (get_simplex_vertices (rips_binomial self n) idx dim n) = S dim /\
  simplex_index (rips_binomial self n) (get_simplex_vertices (rips_binomial self n) idx dim n) = idx.
Proof.
  intros HK Hidx. unfold rips_binomial. rewrite get_simplex_vertices_table by lia.
  destruct (vertices_from_spec (S dim) (n - 1) idx n) as (Hd & Hl & Hi); [lia|done|].
  unfold get_simplex_vertices. rewrite simplex_index_table by (done || lia). auto.
Qed.

(** *** Properties of the indexer *)

(** [C14] The combinatorial number system is a bijection, read from the
    binomial table built for the run: for a dimension [dim] at most
    [MaxDim + 1], (1) [get_simplex_vertices] applied to the index of a
    [dim]-simplex on [n] points (dim+1 strictly decreasing vertices below
    [n]) gives back its vertices, and (2) every index below [C(n, dim+1)]
    is the index of the list [get_simplex_vertices] returns for it, which
    is a [dim]-simplex on [n] points. *)
Theorem simplex_index_bijection self n dim :
  dim <= max_dim self + 1 ->
  (forall vs, desc_below n vs -> length vs = S dim ->
     get_simplex_vertices (rips_binomial self n)
       (simplex_index (rips_binomial self n) vs) dim n = vs) /\
  (forall idx, idx < choose n (S dim) ->
     desc_below n (get_simplex_vertices (rips_binomial self n) idx dim n) /\
     length (get_simplex_vertices (rips_binomial self n) idx dim n) = S dim /\
     simplex_index (rips_binomial self n)
       (get_simplex_vertices (rips_binomial self n) idx dim n) = idx).
Proof.
  intros HK. split; [intros vs; by apply rips_vertices_index|intros idx; by apply rips_index_vertices].
Qed.

(** The numbering is the lexicographic order: for two simplices of
    the same dimension (at most [MaxDim + 1]) on [n] points, the index of
    the first is smaller exactly when its decreasing vertex list is
    lexicographically smaller.  This is the tie-break of the filtration
    order. *)
Theorem simplex_index_order self n vs ws :
  desc_below n vs -> desc_below n ws -> length vs = length ws ->
  length vs <= max_dim self + 2 ->
  simplex_index (rips_binomial self n) vs < simplex_index (rips_binomial self n) ws <->
  lex_lt vs ws.
Proof.
  intros Hv Hw Hl HK. unfold rips_binomial. rewrite !simplex_index_table by (done || lia).
  split; [|by apply simplex_index_lex_lt with n].
  intros Hlt. destruct (lex_lt_trichotomy vs ws Hl) as [->|[|Hgt]]; [lia|done|].
  pose proof (simplex_index_lex_lt n ws vs Hw Hv (eq_sym Hl) Hgt). lia.
Qed.

(** [C16] No index overflows [int64_t]: when the binomial table built for
    the run passes its overflow check, the index of every simplex of
    dimension at most [MaxDim + 1] on [n] points is strictly below
    [2^63 - 1]. *)
Theorem simplex_index_fits self n vs :
  table_fits (binomial_coeff_table n (max_dim self + 2)) = true ->
  desc_below n vs -> length vs <= max_dim self + 2 ->
  (Z.of_nat (simplex_index (rips_binomial self n) vs) < max_simplex_index)%Z.
Proof.
  intros Hfit Hd Hl. unfold rips_binomial. rewrite simplex_index_table by done.
  pose proof (simplex_index_lt n vs Hd).
  pose proof (table_fits_lookup _ n (length vs) Hfit) as Hmax.
  fold (table_binomial n (max_dim self + 2)) in Hmax.
  rewrite table_binomial_choose in Hmax by lia. lia.
Qed.

(** *** Witnesses *)

Lemma simplex_index_bijection_witness :
  get_simplex_vertices (rips_binomial RipsPersistenceDiagram_new 5)
    (simplex_index (rips_binomial RipsPersistenceDiagram_new 5) [4; 2; 0]) 2 5 = [4; 2; 0] /\
  simplex_index (rips_binomial RipsPersistenceDiagram_new 5)
    (get_simplex_vertices (rips_binomial RipsPersistenceDiagram_new 5) 7 2 5) = 7.
Proof.
  destruct (simplex_index_bijection RipsPersistenceDiagram_new 5 2) as [H1 H2];
    [vm_compute; lia|].
  split; [apply H1; [apply desc_belowb_spec; reflexivity | reflexivity]|].
  apply H2. vm_compute. lia.
Defined.

Lemma simplex_index_order_witness :
  simplex_index (rips_binomial RipsPersistenceDiagram_new 5) [3; 1; 0] <
  simplex_index (rips_binomial RipsPersistenceDiagram_new 5) [3; 2; 0] <->
  lex_lt [3; 1; 0] [3; 2; 0].
Proof.
  apply (simplex_index_order RipsPersistenceDiagram_new 5 [3; 1; 0] [3; 2; 0]);
    [apply desc_belowb_spec; reflexivity | apply desc_belowb_spec; reflexivity
    | reflexivity | vm_compute; lia].
Defined.

Lemma simplex_index_fits_witness :
  (Z.of_nat (simplex_index (rips_binomial RipsPersistenceDiagram_new 6) [5; 3; 1]%nat)
   < max_simplex_index)%Z.
Proof.
  apply (simplex_index_fits RipsPersistenceDiagram_new 6 [5; 3; 1]);
    [vm_compute; reflexivity | apply desc_belowb_spec; reflexivity | vm_compute; lia].
Defined.

End Indexer.
