(* ===== verification/Filtration.v ===== *)
(** * Filtration Builder

    Specification section 4.3, with the data model of section 3
    (diameter, filtration order) and the Vietoris-Rips complex of the
    glossary.  For a dimension [k], [enumerate_simplices] lists the
    [k]-simplices on [n] points whose diameter is at most the threshold,
    as pairs (diameter, index), sorted by ascending diameter with the
    combinatorial index as tie-break.

    - [diameter]: the largest pairwise distance of a vertex list ([vzero]
      for a vertex);
    - [compute_diameter]: the diameter of the simplex of an index;
    - [filt_leb]: the filtration order on (diameter, index) keys;
    - [enumerate_simplices]: the candidates [0 .. C(n,k+1)-1] from the
      combinatorial numbering, filtered by the threshold, sorted.

    Theorems: the diameter is below the threshold exactly when every
    pairwise distance is (the Rips condition); the enumeration is sorted
    in filtration order, has no duplicate and contains exactly the
    simplices of the Rips complex at the threshold; with a lower
    threshold it lists the same simplices filtered by the new threshold
    ([enumerate_simplices_threshold]), and a sorted list splits at any
    threshold into the entries within it followed by the others
    ([sorted_threshold_split]).
*)

From S2P Require Import Prelude RipsConfig Distance Binomial SimplexIndex.

Module Filtration.
Import RipsConfig.RipsConfig Distance.Distance Binomial.Binomial SimplexIndex.Indexer.

(** Distances of all pairs [v_i, v_j], [i < j], of a vertex list. *)
Fixpoint pair_dists {V} (dist : nat -> nat -> V) (vs : list nat) : list V :=
  match vs with
  | [] => []
  | v :: vs' => map (dist v) vs' ++ pair_dists dist vs'
  end.

(** Diameter of a vertex list: the maximum of its pairwise distances, and
    [vzero] for a single vertex. *)
Definition diameter `{ValueOrder V} (dist : nat -> nat -> V) (vs : list nat) : V :=
  match pair_dists dist vs with
  | [] => vzero
  | x :: xs => fold_left vmax xs x
  end.

(** The filtration order on keys (diameter, index). *)
Definition filt_leb `{ValueOrder V} (a b : V * nat) : bool :=
  vlt a.1 b.1 || (vle a.1 b.1 && (a.2 <=? b.2)).

Definition filt_le `{ValueOrder V} (a b : V * nat) : Prop := filt_leb a b = true.

#[export] Instance filt_le_dec `{ValueOrder V} : RelDecision (@filt_le V _) :=
  fun a b => decide (filt_leb a b = true).

Section Builder.
Context `{ValueOrder V} `{ValueOfDouble V}.
Variable self : RipsPersistenceDiagram.
Variable n : nat.
Variable dist : nat -> nat -> V.

(** The vertices of the [k]-simplex of index [idx]. *)
Definition vertices_of (k idx : nat) : list nat :=
  get_simplex_vertices (rips_binomial self n) idx k n.

Definition compute_diameter (k idx : nat) : V := diameter dist (vertices_of k idx).

(** [enumerate(k, threshold)]: every [k]-simplex by index, its diameter,
    those within the threshold, in filtration order. *)
Definition enumerate_simplices (k : nat) : list (V * nat) :=
  merge_sort filt_le
    (List.filter (fun p => vle p.1 (threshold self))
       (map (fun idx => (compute_diameter k idx, idx))
          (seq 0 (rips_binomial self n n (S k))))).
End Builder.

(** ** Lemmas *)

Section Lemmas.
Context `{ValueOrderLaws V}.

Lemma fold_vmax_le (xs : list V) x t :
  fold_left vmax xs x ≤ᵥ t <-> x ≤ᵥ t /\ Forall (fun y => y ≤ᵥ t) xs.
Proof.
  revert x. induction xs as [|y xs IH]; intros x; simpl.
  - split; [intros; split; [done|constructor]|tauto].
  - rewrite IH. autorewrite with ripser_rw. rewrite andb_true_iff, Forall_cons. tauto.
Qed.

Lemma diameter_le dist vs t :
  diameter dist vs ≤ᵥ t <->
  (pair_dists dist vs = [] -> vzero ≤ᵥ t) /\ Forall (fun y => y ≤ᵥ t) (pair_dists dist vs).
Proof.
  unfold diameter. destruct (pair_dists dist vs) as [|x xs].
  - split; [intros; split; [done|constructor]|intros [Hz _]; by apply Hz].
  - rewrite fold_vmax_le, Forall_cons. split; [intros; split; [discriminate|done]|tauto].
Qed.

(** The pairwise distances of a decreasing vertex list are those of its
    ordered pairs. *)
Lemma Forall_pair_dists (P : V -> Prop) dist N vs :
  desc_below N vs ->
  Forall P (pair_dists dist vs) <->
  (forall v w, v ∈ vs -> w ∈ vs -> w < v -> P (dist v w)).
Proof.
  revert N. induction vs as [|v vs IH]; intros N Hd; simpl.
  - split; [intros _ v w Hv; inversion Hv|constructor].
  - destruct Hd as [Hv Hd]. pose proof (desc_below_all v vs Hd) as Hall.
    rewrite Forall_app, Forall_fmap, (IH v Hd). rewrite Forall_forall in Hall.
    split.
    + intros [Hhead Htail] a b Ha Hb Hba.
      apply elem_of_cons in Ha as [->|Ha]; apply elem_of_cons in Hb as [->|Hb].
      * lia.
      * rewrite Forall_forall in Hhead. by apply Hhead.
      * specialize (Hall a Ha). lia.
      * by apply Htail.
    + intros Hp. split.
      * apply Forall_forall. intros w Hw. apply Hp; [by left|by right|by apply Hall].
      * intros a b Ha Hb Hba. apply Hp; [by right|by right|done].
Qed.

Lemma filt_le_trans : Transitive (@filt_le V _).
Proof.
  intros [a i] [b j] [c l]. unfold filt_le, filt_leb; simpl.
  rewrite !orb_true_iff, !andb_true_iff, !Nat.leb_le.
  intros [Hab|[Hab Hij]] [Hbc|[Hbc Hjl]].
  - left. eapply vlt_le_trans; [done|by apply vlt_le].
  - left. by eapply vlt_le_trans.
  - left. by eapply vle_lt_trans.
  - right. split; [by eapply vle_trans|lia].
Qed.

Lemma filt_le_total : Total (@filt_le V _).
Proof.
  intros [a i] [b j]. unfold filt_le, filt_leb; simpl.
  rewrite !orb_true_iff, !andb_true_iff, !Nat.leb_le.
  destruct (vle a b) eqn:Hab, (vle b a) eqn:Hba.
  - destruct (Nat.le_ge_cases i j); [left|right]; right; done.
  - left. left. by apply vlt_not_le.
  - right. left. by apply vlt_not_le.
  - destruct (vle_total a b); congruence.
Qed.

Lemma filt_le_antisym (a b : V * nat) : filt_le a b -> filt_le b a -> a.2 = b.2.
Proof.
  destruct a as [d i], b as [e j]. unfold filt_le, filt_leb. simpl.
  pose proof (vle_total d e). unfold vlt.
  destruct (vle d e), (vle e d); simpl; rewrite ?Nat.leb_le; intros; lia || (destruct_or!; congruence).
Qed.

Lemma filt_le_diam (a b : V * nat) : filt_le a b -> a.1 ≤ᵥ b.1.
Proof.
  destruct a as [d i], b as [e j]. unfold filt_le, filt_leb. simpl.
  rewrite orb_true_iff, andb_true_iff. intros [Hde|[Hde _]]; [by apply vlt_le|done].
Qed.

Lemma filt_le_refl (a : V * nat) : filt_le a a.
Proof. by destruct (filt_le_total a a). Qed.

Lemma pair_dists_nil {A} (dist : nat -> nat -> A) vs :
  pair_dists dist vs = [] <-> length vs <= 1.
Proof.
  destruct vs as [|v [|w vs]]; simpl; [split; (done || lia)..|].
  split; [|lia]. intros Hc. discriminate.
Qed.

Lemma filter_map_snd {A} (f : nat -> A) (q : A * nat -> bool) (s : list nat) :
  map snd (List.filter q (map (fun i => (f i, i)) s)) = List.filter (fun i => q (f i, i)) s.
Proof. induction s as [|i s IH]; simpl; [done|]. destruct (q _); simpl; by rewrite IH. Qed.

End Lemmas.

(** ** Properties of the filtration builder *)

Section Properties.
Context `{ValueOrderLaws V} `{ValueOfDouble V}.

(** Membership in the unsorted candidate list. *)
Lemma enumerate_candidates_elem self n dist k d idx :
  k <= max_dim self + 1 ->
  (d, idx) ∈ List.filter (fun p => vle p.1 (threshold self))
               (map (fun i => (compute_diameter self n dist k i, i))
                  (seq 0 (rips_binomial self n n (S k)))) <->
  idx < choose n (S k) /\ d = compute_diameter self n dist k idx /\ d ≤ᵥ threshold self.
Proof.
  intros Hk. unfold rips_binomial. rewrite table_binomial_choose by lia.
  rewrite list_elem_of_In, filter_In, in_map_iff. simpl. split.
  - intros [(i & [= <- <-] & Hi) Hle]. apply in_seq in Hi. repeat split; [lia|done].
  - intros (Hi & -> & Hle). split; [|done]. exists idx. split; [done|]. apply in_seq. lia.
Qed.

(** The vertex list of an index of dimension at most [MaxDim + 1]. *)
Lemma vertices_of_valid self n k idx :
  k <= max_dim self + 1 -> idx < choose n (S k) ->
  desc_below n (vertices_of self n k idx) /\ length (vertices_of self n k idx) = S k /\
  simplex_index (rips_binomial self n) (vertices_of self n k idx) = idx.
Proof. apply rips_index_vertices. Qed.

Lemma vertices_of_index self n k vs :
  k <= max_dim self + 1 -> desc_below n vs -> length vs = S k ->
  vertices_of self n k (simplex_index (rips_binomial self n) vs) = vs.
Proof. apply rips_vertices_index. Qed.

(** The index of a simplex of at most [MaxDim + 2] vertices on [n]
    points is below [C(n, length)]. *)
Lemma simplex_index_rips_lt self n vs :
  desc_below n vs -> length vs <= max_dim self + 2 ->
  simplex_index (rips_binomial self n) vs < choose n (length vs).
Proof.
  intros Hd Hl. unfold rips_binomial. rewrite simplex_index_table by done.
  by apply simplex_index_lt.
Qed.

Lemma enumerate_simplices_sorted self n dist k :
  StronglySorted filt_le (enumerate_simplices self n dist k) /\
  NoDup (map snd (enumerate_simplices self n dist k)).
Proof.
  unfold enumerate_simplices. split.
  - apply StronglySorted_merge_sort; [apply filt_le_trans|apply filt_le_total].
  - rewrite merge_sort_Permutation, filter_map_snd.
    apply NoDup_ListNoDup, List.NoDup_filter, seq_NoDup.
Qed.

Lemma enumerate_simplices_elem self n dist k d idx :
  k <= max_dim self + 1 ->
  (d, idx) ∈ enumerate_simplices self n dist k <->
  idx < choose n (S k) /\ d = compute_diameter self n dist k idx /\ d ≤ᵥ threshold self.
Proof.
  intros Hk. unfold enumerate_simplices. rewrite merge_sort_Permutation.
  by apply enumerate_candidates_elem.
Qed.

(** The pairwise distances of a [k]-simplex ([k >= 1]) are all at most
    [t] exactly when its diameter is. *)
Lemma compute_diameter_le self n dist k idx t :
  1 <= k <= max_dim self + 1 -> idx < choose n (S k) ->
  compute_diameter self n dist k idx ≤ᵥ t <->
  (forall v w, v ∈ vertices_of self n k idx -> w ∈ vertices_of self n k idx -> w < v ->
     dist v w ≤ᵥ t).
Proof.
  intros Hk Hi. destruct (vertices_of_valid self n k idx ltac:(lia) Hi) as (Hd & Hl & _).
  unfold compute_diameter. rewrite diameter_le, (Forall_pair_dists _ dist n _ Hd).
  rewrite pair_dists_nil, Hl. split; [tauto|]. intros Hp. split; [lia|done].
Qed.

Lemma enumerate_simplices_rips_elem self n dist k d idx :
  1 <= k <= max_dim self + 1 ->
  (d, idx) ∈ enumerate_simplices self n dist k <->
  idx < choose n (S k) /\ d = compute_diameter self n dist k idx /\
  (forall v w, v ∈ vertices_of self n k idx -> w ∈ vertices_of self n k idx -> w < v ->
     dist v w ≤ᵥ threshold self).
Proof.
  intros Hk. rewrite enumerate_simplices_elem by lia. split.
  - intros (Hi & -> & Hle). do 2 (split; [done|]). by apply compute_diameter_le.
  - intros (Hi & -> & Hp). do 2 (split; [done|]). by apply compute_diameter_le.
Qed.

(** The simplices and their diameters depend on the configuration only
    through [MaxDim] (the binomial table of the run). *)
Lemma compute_diameter_max_dim self self' n dist k :
  max_dim self' = max_dim self ->
  compute_diameter self' n dist k = compute_diameter self n dist k.
Proof. intros Hm. unfold compute_diameter, vertices_of, rips_binomial. by rewrite Hm. Qed.

(** Lowering the threshold keeps the simplices within the new threshold,
    in the same order. *)
Lemma enumerate_simplices_threshold self self' n dist k :
  max_dim self' = max_dim self -> threshold self' ≤ᵥ threshold self ->
  enumerate_simplices self' n dist k =
  List.filter (fun p => vle p.1 (threshold self')) (enumerate_simplices self n dist k).
Proof.
  intros Hm Ht. unfold enumerate_simplices.
  rewrite (compute_diameter_max_dim self self' n dist k Hm).
  unfold rips_binomial at 1. rewrite Hm. fold (rips_binomial self n).
  set (cands := map (fun idx => (compute_diameter self n dist k idx, idx))
                  (seq 0 (rips_binomial self n n (S k)))).
  assert (Hc : forall x, x ∈ cands -> x = (compute_diameter self n dist k x.2, x.2)).
  { intros x (i & -> & _)%list_elem_of_fmap. done. }
  apply (StronglySorted_unique_strong filt_le).
  - intros x1 x2 Hx1 Hx2 H12 H21.
    rewrite merge_sort_Permutation, list_elem_of_In, filter_In, <- list_elem_of_In in Hx1.
    rewrite list_elem_of_In, filter_In, <- list_elem_of_In, merge_sort_Permutation,
      list_elem_of_In, filter_In, <- list_elem_of_In in Hx2.
    rewrite (Hc x1), (Hc x2) by tauto. by rewrite (filt_le_antisym x1 x2).
  - apply StronglySorted_merge_sort; [apply filt_le_trans|apply filt_le_total].
  - eapply StronglySorted_sublist; [apply List_filter_sublist|].
    apply StronglySorted_merge_sort; [apply filt_le_trans|apply filt_le_total].
  - rewrite !merge_sort_Permutation.
    rewrite (Permutation_List_filter _ _ _ (merge_sort_Permutation _ _)).
    rewrite filter_filter_weaker; [done|]. intros x Hx. by eapply vle_trans.
Qed.

(** A list sorted by filtration key splits at any threshold [t]: the
    entries within [t] come first. *)
Lemma sorted_threshold_split (l : list (V * nat)) t :
  StronglySorted filt_le l ->
  l = List.filter (fun p => vle p.1 t) l ++ List.filter (fun p => negb (vle p.1 t)) l.
Proof.
  induction 1 as [|x l Hl IH Hx]; [done|]. simpl.
  destruct (vle x.1 t) eqn:Hxt; simpl; [by f_equal|].
  assert (Hout : forall y, In y l -> vle y.1 t = false).
  { intros y Hy. destruct (vle y.1 t) eqn:Hyt; [|done].
    rewrite Forall_forall in Hx. apply list_elem_of_In in Hy.
    pose proof (filt_le_diam x y (Hx y Hy)).
    assert (vle x.1 t = true) by (by eapply vle_trans). congruence. }
  rewrite (filter_all _ l false Hout), (filter_all _ l true); [done|].
  intros y Hy. by rewrite Hout.
Qed.

(** The filtration builder enumerates the Vietoris-Rips complex at
    the threshold in filtration order: for [1 <= k <= MaxDim + 1],
    [enumerate_simplices] is sorted by (diameter, index), lists no index
    twice, and lists a pair [(d, idx)] exactly when [idx] is a
    [k]-simplex on [n] points, [d] its diameter, and all pairwise
    distances of its vertices are at most the threshold. *)
Theorem enumerate_simplices_rips self n dist k :
  1 <= k <= max_dim self + 1 ->
  StronglySorted filt_le (enumerate_simplices self n dist k) /\
  NoDup (map snd (enumerate_simplices self n dist k)) /\
  (forall d idx, (d, idx) ∈ enumerate_simplices self n dist k <->
     idx < choose n (S k) /\ d = compute_diameter self n dist k idx /\
     (forall v w, v ∈ vertices_of self n k idx -> w ∈ vertices_of self n k idx -> w < v ->
        dist v w ≤ᵥ threshold self)).
Proof.
  intros Hk. destruct (enumerate_simplices_sorted self n dist k) as [Hs Hnd].
  do 2 (split; [done|]). intros d idx. by apply enumerate_simplices_rips_elem.
Qed.

End Properties.

(** *** Witnesses *)

Lemma enumerate_simplices_rips_witness :
  StronglySorted filt_le (enumerate_simplices RipsPersistenceDiagram_new 4 (cloud_dist unit_square) 1) /\
  NoDup (map snd (enumerate_simplices RipsPersistenceDiagram_new 4 (cloud_dist unit_square) 1)).
Proof.
  destruct (enumerate_simplices_rips RipsPersistenceDiagram_new 4 (cloud_dist unit_square) 1)
    as (Hs & Hnd & _); [vm_compute; lia|].
  split; [exact Hs|exact Hnd].
Defined.

End Filtration.
