(* ===== verification/UnionFind.v ===== *)
(** * Union-find over the vertices (used by the zero-dimensional reducer)

    Specification section 4.4: "maintain a union-find over the [n]
    vertices".  The structure is a parent array; a root is its own
    parent.  [link x y] attaches the root of the younger component under
    the root of the older one; every vertex is born at [0], so the
    specification's tie-break decides: the component whose smallest
    vertex is smaller survives.  Since parents always point to smaller
    vertices, the root of a component is its smallest vertex, and [link]
    attaches the larger root under the smaller.

    - [find] follows parents with a fuel of [n] steps (enough: the
      parent of a non-root is smaller);
    - [uf_wf]: the invariant (length [n], parents below their child);
    - [find_link]: how [link] changes [find];
    - refinement: after linking the edges of a list, two vertices have
      the same root exactly when the edges connect them
      ([clos_refl_sym_trans] of the edge relation).
*)

From S2P Require Import Prelude.
From Stdlib Require Import Relations.

Module UnionFind.

Record union_find := mkUnionFind { parent : list nat }.

Definition uf_new (n : nat) : union_find := mkUnionFind (seq 0 n).

Fixpoint find_fuel (fuel : nat) (p : list nat) (x : nat) : nat :=
  match fuel with
  | 0 => x
  | S fuel' =>
      match p !! x with
      | Some y => if y =? x then x else find_fuel fuel' p y
      | None => x
      end
  end.

Definition find (uf : union_find) (x : nat) : nat :=
  find_fuel (length (parent uf)) (parent uf) x.

Definition link (uf : union_find) (x y : nat) : union_find :=
  let rx := find uf x in
  let ry := find uf y in
  if rx =? ry then uf
  else mkUnionFind (<[Nat.max rx ry := Nat.min rx ry]> (parent uf)).

(** The invariant: [n] entries, each parent at most its child. *)
Definition uf_wf (n : nat) (uf : union_find) : Prop :=
  length (parent uf) = n /\ forall i j, parent uf !! i = Some j -> j <= i.

(** Linking the edges of a list, in order. *)
Definition link_all (uf : union_find) (es : list (nat * nat)) : union_find :=
  fold_left (fun u e => link u e.1 e.2) es uf.

(** The roots: one per component. *)
Definition roots (n : nat) (uf : union_find) : list nat :=
  List.filter (fun i => find uf i =? i) (seq 0 n).

(** The abstract specification: connectivity by a list of edges. *)
Definition edge_rel (es : list (nat * nat)) : relation nat :=
  fun u v => (u, v) ∈ es.

Definition connected (es : list (nat * nat)) : relation nat :=
  clos_refl_sym_trans nat (edge_rel es).

(** ** Lemmas *)

Section Lemmas.
Variable n : nat.

Lemma uf_new_wf : uf_wf n (uf_new n).
Proof.
  split; [apply length_seq|]. intros i j Hj. apply lookup_seq in Hj. lia.
Qed.

Lemma find_fuel_stable p fuel1 fuel2 x :
  (forall i j, p !! i = Some j -> j <= i) -> x < fuel1 -> x < fuel2 ->
  find_fuel fuel1 p x = find_fuel fuel2 p x.
Proof.
  intros Hwf. revert fuel2 x. induction fuel1 as [|f1 IH]; intros [|f2] x H1 H2; try lia.
  cbn [find_fuel]. destruct (p !! x) as [y|] eqn:Hy; [|done].
  destruct (Nat.eqb_spec y x) as [|Hne]; [done|].
  pose proof (Hwf _ _ Hy). apply IH; lia.
Qed.

(** With enough fuel, [find_fuel] unfolds one parent step. *)
Lemma find_fuel_unfold p fuel x :
  (forall i j, p !! i = Some j -> j <= i) -> x < fuel ->
  find_fuel fuel p x =
  match p !! x with
  | Some y => if y =? x then x else find_fuel fuel p y
  | None => x
  end.
Proof.
  intros Hwf Hf. destruct fuel as [|f]; [lia|].
  transitivity (match p !! x with
                | Some y => if y =? x then x else find_fuel f p y
                | None => x
                end); [reflexivity|].
  destruct (p !! x) as [y|] eqn:Hy; [|done].
  destruct (Nat.eqb_spec y x) as [|Hne]; [done|].
  pose proof (Hwf _ _ Hy). apply find_fuel_stable; [done|lia|lia].
Qed.

Lemma find_unfold uf x :
  uf_wf n uf -> x < n ->
  find uf x =
  match parent uf !! x with
  | Some y => if y =? x then x else find uf y
  | None => x
  end.
Proof. intros [Hl Hwf] Hx. unfold find. apply find_fuel_unfold; [done|lia]. Qed.

(** [find] returns a root at most [x]. *)
Lemma find_spec uf x :
  uf_wf n uf -> x < n -> find uf x <= x /\ parent uf !! find uf x = Some (find uf x).
Proof.
  intros Hwf. induction x as [x IH] using lt_wf_ind. intros Hx.
  rewrite find_unfold by done. destruct Hwf as [Hl Hp].
  destruct (parent uf !! x) as [y|] eqn:Hy; [|apply lookup_ge_None in Hy; lia].
  destruct (Nat.eqb_spec y x) as [->|Hne]; [done|].
  pose proof (Hp _ _ Hy). destruct (IH y) as [? ?]; [lia|lia|]. split; [lia|done].
Qed.

Lemma find_root uf r :
  uf_wf n uf -> r < n -> parent uf !! r = Some r -> find uf r = r.
Proof. intros Hwf Hr Hroot. rewrite find_unfold by done. rewrite Hroot. by rewrite Nat.eqb_refl. Qed.

Lemma find_lt uf x : uf_wf n uf -> x < n -> find uf x < n.
Proof. intros Hwf Hx. destruct (find_spec uf x Hwf Hx). lia. Qed.

Lemma link_wf uf x y : uf_wf n uf -> x < n -> y < n -> uf_wf n (link uf x y).
Proof.
  intros [Hl Hp] Hx Hy. unfold link.
  destruct (Nat.eqb_spec (find uf x) (find uf y)); [done|].
  split; simpl; [by rewrite length_insert|].
  intros i j Hj. destruct (decide (i = Nat.max (find uf x) (find uf y))) as [->|Hne].
  - rewrite list_lookup_insert_eq in Hj; [injection Hj; lia|].
    pose proof (find_lt uf x ltac:(done) Hx). pose proof (find_lt uf y ltac:(done) Hy). lia.
  - rewrite list_lookup_insert_ne in Hj by congruence. by apply Hp in Hj.
Qed.

(** How [link] changes the roots: the two components of [x] and [y] now
    share the smaller of their roots; every other vertex keeps its root. *)
Lemma find_link uf x y z :
  uf_wf n uf -> x < n -> y < n -> z < n ->
  find (link uf x y) z =
  if (find uf z =? find uf x) || (find uf z =? find uf y)
  then Nat.min (find uf x) (find uf y) else find uf z.
Proof.
  intros Hwf Hx Hy. pose proof (link_wf uf x y Hwf Hx Hy) as Hwf'.
  destruct (find_spec uf x Hwf Hx) as [_ Hrx]. destruct (find_spec uf y Hwf Hy) as [_ Hry].
  pose proof (find_lt uf x Hwf Hx). pose proof (find_lt uf y Hwf Hy).
  set (rx := find uf x) in *. set (ry := find uf y) in *.
  unfold link in *. fold rx ry in Hwf' |- *.
  destruct (Nat.eqb_spec rx ry) as [Heq|Hne].
  { intros Hz. rewrite <- Heq. destruct (Nat.eqb_spec (find uf z) rx); simpl; [|done]. lia. }
  induction z as [z IH] using lt_wf_ind. intros Hz.
  rewrite (find_unfold _ z Hwf' Hz). cbn [parent].
  destruct (decide (z = Nat.max rx ry)) as [->|Hzne].
  - rewrite list_lookup_insert_eq by (destruct Hwf; lia).
    destruct (Nat.eqb_spec (Nat.min rx ry) (Nat.max rx ry)); [lia|].
    rewrite (find_root _ (Nat.min rx ry) Hwf') by
      (lia || (cbn [parent]; rewrite list_lookup_insert_ne by lia;
               destruct (Nat.min_spec rx ry) as [[_ ->]|[_ ->]]; done)).
    rewrite (find_root uf (Nat.max rx ry) Hwf) by
      (lia || (destruct (Nat.max_spec rx ry) as [[_ ->]|[_ ->]]; done)).
    destruct (Nat.max_spec rx ry) as [[_ ->]|[_ ->]]; rewrite Nat.eqb_refl; simpl;
      [by rewrite orb_true_r|done].
  - rewrite list_lookup_insert_ne by congruence.
    rewrite (find_unfold uf z Hwf Hz).
    destruct Hwf as [Hl Hp].
    destruct (parent uf !! z) as [w|] eqn:Hw; [|apply lookup_ge_None in Hw; lia].
    destruct (Nat.eqb_spec w z) as [->|Hwz].
    + destruct (Nat.eqb_spec z rx), (Nat.eqb_spec z ry); simpl; lia.
    + pose proof (Hp _ _ Hw). apply IH; lia.
Qed.
Lemma connected_mono es es' u v :
  (forall e, e ∈ es -> e ∈ es') -> connected es u v -> connected es' u v.
Proof.
  intros Hsub. induction 1 as [a b Hab| | |].
  - apply rst_step. by apply Hsub.
  - apply rst_refl.
  - by apply rst_sym.
  - by eapply rst_trans.
Qed.

Lemma connected_app_l es es' u v : connected es u v -> connected (es ++ es') u v.
Proof. apply connected_mono. intros e He. apply elem_of_app. by left. Qed.

Lemma connected_nil u v : connected [] u v -> u = v.
Proof.
  induction 1 as [a b Hab| | |]; [by apply elem_of_nil in Hab|done|done|congruence].
Qed.

Lemma find_uf_new u : u < n -> find (uf_new n) u = u.
Proof.
  intros Hu. apply find_root; [apply uf_new_wf|done|]. simpl. apply lookup_seq. lia.
Qed.

Definition edges_below (es : list (nat * nat)) : Prop :=
  Forall (fun e => e.1 < n /\ e.2 < n) es.

(** One [link] refines the addition of one edge. *)
Lemma link_connected uf es x y :
  uf_wf n uf -> x < n -> y < n -> edges_below es ->
  (forall u v, u < n -> v < n -> find uf u = find uf v <-> connected es u v) ->
  forall u v, u < n -> v < n ->
  find (link uf x y) u = find (link uf x y) v <-> connected (es ++ [(x, y)]) u v.
Proof.
  intros Hwf Hx Hy Hes Hc u v Hu Hv. split.
  - rewrite !find_link by done.
    destruct (Nat.eqb_spec (find uf u) (find uf x)) as [Hux|Hux],
             (Nat.eqb_spec (find uf u) (find uf y)) as [Huy|Huy],
             (Nat.eqb_spec (find uf v) (find uf x)) as [Hvx|Hvx],
             (Nat.eqb_spec (find uf v) (find uf y)) as [Hvy|Hvy]; simpl; intros Hfind;
      try (lia || (apply connected_app_l; apply Hc; [done|done|congruence])).
    all: assert (Hxy : connected (es ++ [(x, y)]) x y)
           by (apply rst_step; apply elem_of_app; right; by left).
    all: first
      [ assert (Hu' : connected (es ++ [(x, y)]) u x) by (apply connected_app_l, Hc; done)
      | assert (Hu' : connected (es ++ [(x, y)]) u y) by (apply connected_app_l, Hc; done) ].
    all: first
      [ assert (Hv' : connected (es ++ [(x, y)]) v x) by (apply connected_app_l, Hc; done)
      | assert (Hv' : connected (es ++ [(x, y)]) v y) by (apply connected_app_l, Hc; done) ].
    all: eapply rst_trans; [exact Hu'|].
    all: first [ by apply rst_sym
               | eapply rst_trans; [exact Hxy|]; by apply rst_sym
               | eapply rst_trans; [apply rst_sym; exact Hxy|]; by apply rst_sym ].
  - clear Hu Hv. induction 1 as [a b Hab| | |]; [|done|congruence|congruence].
    apply elem_of_app in Hab as [Hab|Hab].
    + unfold edges_below in Hes. rewrite Forall_forall in Hes.
      destruct (Hes _ Hab) as [Ha Hb]. simpl in Ha, Hb.
      rewrite !find_link by done. rewrite (proj2 (Hc a b Ha Hb)); [done|by apply rst_step].
    + apply list_elem_of_singleton in Hab. injection Hab as -> ->.
      rewrite !find_link by done. rewrite !Nat.eqb_refl. simpl. by rewrite orb_true_r.
Qed.

Lemma link_all_spec es : forall uf es0,
  uf_wf n uf -> edges_below es0 -> edges_below es ->
  (forall u v, u < n -> v < n -> find uf u = find uf v <-> connected es0 u v) ->
  uf_wf n (link_all uf es) /\
  (forall u v, u < n -> v < n ->
     find (link_all uf es) u = find (link_all uf es) v <-> connected (es0 ++ es) u v).
Proof.
  induction es as [|[x y] es IH]; intros uf es0 Hwf H0 Hes Hc.
  - rewrite app_nil_r. by split.
  - unfold edges_below in Hes. apply Forall_cons in Hes as [[Hx Hy] Hes]. simpl in Hx, Hy.
    replace (es0 ++ (x, y) :: es) with ((es0 ++ [(x, y)]) ++ es) by (by rewrite <- app_assoc).
    apply IH; [by apply link_wf|apply Forall_app; split; [done|by repeat constructor]|done|].
    by apply link_connected.
Qed.
Lemma filter_change_one (f g : nat -> bool) (l : list nat) k :
  NoDup l -> k ∈ l -> f k = true -> g k = false ->
  (forall i, i ∈ l -> i <> k -> f i = g i) ->
  length (List.filter f l) = S (length (List.filter g l)).
Proof.
  induction l as [|i l IH]; intros Hnd Hk Hf Hg Hfg; [by apply elem_of_nil in Hk|].
  apply NoDup_cons in Hnd as [Hi Hnd]. simpl.
  apply elem_of_cons in Hk as [->|Hk].
  - rewrite Hf, Hg. simpl. f_equal. f_equal. apply filter_ext_in. intros j Hj.
    apply Hfg; [by right; apply list_elem_of_In|]. intros ->. by apply Hi, list_elem_of_In.
  - rewrite (Hfg i) by (by left || (intros ->; done)).
    destruct (g i); simpl; [f_equal|]; apply IH; try done; intros j Hj Hjk; apply Hfg; [by right|done|by right|done].
Qed.

(** Linking two different components removes exactly one root. *)
Lemma roots_link uf x y :
  uf_wf n uf -> x < n -> y < n -> find uf x <> find uf y ->
  length (roots n uf) = S (length (roots n (link uf x y))).
Proof.
  intros Hwf Hx Hy Hne. unfold roots.
  pose proof (find_lt uf x Hwf Hx). pose proof (find_lt uf y Hwf Hy).
  destruct (find_spec uf x Hwf Hx) as [_ Hrx]. destruct (find_spec uf y Hwf Hy) as [_ Hry].
  set (M := Nat.max (find uf x) (find uf y)).
  assert (HM : find uf M = M).
  { apply find_root; [done|lia|]. unfold M. by destruct (Nat.max_spec (find uf x) (find uf y)) as [[_ ->]|[_ ->]]. }
  apply (filter_change_one _ _ _ M); [apply NoDup_ListNoDup, seq_NoDup|apply elem_of_seq; lia| |..].
  - by rewrite HM, Nat.eqb_refl.
  - rewrite find_link by (done || lia). rewrite HM.
    replace ((M =? find uf x) || (M =? find uf y)) with true
      by (unfold M; destruct (Nat.max_spec (find uf x) (find uf y)) as [[_ ->]|[_ ->]];
          rewrite Nat.eqb_refl; [by rewrite orb_true_r|done]).
    apply Nat.eqb_neq. lia.
  - intros i Hi HiM. apply elem_of_seq in Hi. rewrite find_link by (done || lia).
    destruct (find_spec uf i Hwf ltac:(lia)) as [Hle Hroot].
    destruct (Nat.eqb_spec (find uf i) (find uf x)) as [Hix|Hix],
             (Nat.eqb_spec (find uf i) (find uf y)) as [Hiy|Hiy]; simpl; try done;
      destruct (Nat.eqb_spec (find uf i) i) as [Hii|Hii];
      destruct (Nat.eqb_spec (Nat.min (find uf x) (find uf y)) i); try done; unfold M in HiM; lia.
Qed.

Lemma roots_uf_new : length (roots n (uf_new n)) = n.
Proof.
  unfold roots. rewrite (filter_ext_in _ (fun _ => true)), List.filter_true, length_seq; [done|].
  intros i Hi. apply in_seq in Hi. rewrite find_uf_new by lia. apply Nat.eqb_refl.
Qed.

Lemma elem_of_roots uf r : r ∈ roots n uf <-> r < n /\ find uf r = r.
Proof.
  unfold roots. rewrite list_elem_of_In, filter_In, in_seq, Nat.eqb_eq. lia.
Qed.

(** One component: when all points below [n >= 1] share their root,
    there is exactly one root. *)
Lemma roots_single uf :
  uf_wf n uf -> 1 <= n -> (forall u v, u < n -> v < n -> find uf u = find uf v) ->
  roots n uf = [find uf 0].
Proof.
  intros Hwf Hn Hall.
  assert (Hr : forall r, r ∈ roots n uf -> r = find uf 0).
  { intros r [Hr Hfr]%elem_of_roots. rewrite <- Hfr. by apply Hall. }
  assert (H0 : find uf 0 ∈ roots n uf).
  { destruct (find_spec uf 0 Hwf ltac:(lia)) as [Hle Hp].
    apply elem_of_roots. split; [lia|]. apply find_root; [done|lia|done]. }
  assert (Hnd : NoDup (roots n uf)) by apply NoDup_ListNoDup, List.NoDup_filter, seq_NoDup.
  destruct (roots n uf) as [|x [|y l]]; [by apply not_elem_of_nil in H0| |].
  - by rewrite (Hr x) by by left.
  - apply NoDup_cons in Hnd as [Hx _]. exfalso. apply Hx.
    rewrite (Hr x), (Hr y) by set_solver. by left.
Qed.
End Lemmas.

End UnionFind.
