(* ===== verification/Homology0.v ===== *)
(** * Zero-Dimensional Reducer (H0)

    Specification section 4.4.  The edges of the filtration
    ([enumerate_simplices] in dimension 1) are processed in filtration
    order with the union-find of [UnionFind]: an edge joining two
    components merges them and emits the pair [(0, diameter)]; an edge
    inside one component closes a cycle and is kept as a column for the
    dimension-1 reduction.  At the end every remaining root (one per
    connected component) carries a pair [(0, infinity)].

    - [edge_ends]: the two vertices of an edge index;
    - [dim0_loop]: the loop over the edges, returning the union-find,
      the deaths and the cycle edges;
    - [compute_dim_0_pairs]: the H0 pairs and the columns for H1.

    Theorems: after the loop two vertices share a root exactly when they
    are connected in the Rips graph at the threshold (refinement of the
    union-find by graph connectivity); the loop performs one merge per
    finite pair, so there are [n] pairs of which one infinite pair per
    connected component; every edge is either a merging edge or a column
    of dimension 1; lowering the threshold keeps exactly the finite
    deaths below the new threshold ([compute_dim_0_pairs_threshold],
    through [dim0_loop_app] and the split of the sorted edges at the
    threshold); when all points are within the threshold of each other
    there is one infinite pair and [n - 1] finite ones
    ([compute_dim_0_pairs_single_class]).
*)

From S2P Require Import Prelude RipsConfig Distance Binomial SimplexIndex Filtration UnionFind.
From Stdlib Require Import Relations.

Module Homology0.
Import RipsConfig.RipsConfig Distance.Distance Binomial.Binomial SimplexIndex.Indexer
  Filtration.Filtration UnionFind.UnionFind.

Section Dim0.
Context `{ValueOrder V} `{ValueOfDouble V}.
Variable self : RipsPersistenceDiagram.
Variable n : nat.
Variable dist : nat -> nat -> V.

(** The vertices [(u, v)], [u < v], of the edge of index [e]. *)
Definition edge_ends (e : nat) : nat * nat :=
  let vs := vertices_of self n 1 e in
  (default 0 (vs !! 1), default 0 (vs !! 0)).

Fixpoint dim0_loop (uf : union_find) (edges : list (V * nat))
    : union_find * list V * list (V * nat) :=
  match edges with
  | [] => (uf, [], [])
  | (d, e) :: es =>
      let '(u, v) := edge_ends e in
      if find uf u =? find uf v then
        let '(uf', deaths, cols) := dim0_loop uf es in (uf', deaths, (d, e) :: cols)
      else
        let '(uf', deaths, cols) := dim0_loop (link uf u v) es in (uf', d :: deaths, cols)
  end.

(** The union-find after all the edges of the filtration. *)
Definition dim0_union_find : union_find :=
  (dim0_loop (uf_new n) (enumerate_simplices self n dist 1)).1.1.

(** H0 pairs (finite ones in edge order, then one infinite pair per
    root in vertex order) and the cycle edges, the columns of dimension 1. *)
Definition compute_dim_0_pairs : list (pers_pair V) * list (V * nat) :=
  let '(uf, deaths, cols) := dim0_loop (uf_new n) (enumerate_simplices self n dist 1) in
  (map (fun d => mkPair vzero (Finite d)) deaths ++
   map (fun _ => mkPair vzero Infinite) (List.filter (fun i => find uf i =? i) (seq 0 n)),
   cols).
End Dim0.

(** The Rips graph at the threshold: [u < v < n] within the threshold. *)
Definition rips_edge `{ValueOrder V} `{ValueOfDouble V} (self : RipsPersistenceDiagram)
    (n : nat) (dist : nat -> nat -> V) (u v : nat) : Prop :=
  u < v < n /\ dist v u ≤ᵥ threshold self.

Definition rips_connected `{ValueOrder V} `{ValueOfDouble V} (self : RipsPersistenceDiagram)
    (n : nat) (dist : nat -> nat -> V) : relation nat :=
  clos_refl_sym_trans nat (rips_edge self n dist).

(** ** Lemmas *)

Section Lemmas.
Context `{ValueOrderLaws V} `{ValueOfDouble V}.
Variable self : RipsPersistenceDiagram.
Variable n : nat.
Variable dist : nat -> nat -> V.

Definition edge_list (edges : list (V * nat)) : list (nat * nat) :=
  map (fun p => edge_ends self n p.2) edges.

(** The loop links exactly the edges, in order (linking the two ends of a
    cycle edge changes nothing). *)
Lemma dim0_loop_uf uf edges :
  (dim0_loop self n uf edges).1.1 = link_all uf (edge_list edges).
Proof.
  revert uf. induction edges as [|[d e] edges IH]; intros uf; [done|].
  cbn [dim0_loop edge_list map link_all fold_left snd].
  destruct (edge_ends self n e) as [u v] eqn:He. cbn [fst snd].
  destruct (Nat.eqb_spec (find uf u) (find uf v)) as [Heq|Hne].
  - destruct (dim0_loop self n uf edges) as [[uf' deaths] cols] eqn:Hl.
    specialize (IH uf). rewrite Hl in IH. simpl in *. rewrite IH.
    unfold link_all. f_equal. unfold link. by rewrite Heq, Nat.eqb_refl.
  - destruct (dim0_loop self n (link uf u v) edges) as [[uf' deaths] cols] eqn:Hl.
    specialize (IH (link uf u v)). rewrite Hl in IH. simpl in *. done.
Qed.

(** The ends of an edge of the filtration. *)
Lemma edge_ends_spec e :
  e < choose n 2 ->
  (edge_ends self n e).1 < (edge_ends self n e).2 < n /\
  vertices_of self n 1 e = [(edge_ends self n e).2; (edge_ends self n e).1].
Proof.
  intros He. destruct (vertices_of_valid self n 1 e ltac:(lia) He) as (Hd & Hl & _).
  unfold edge_ends. fold (vertices_of self n 1 e) in *.
  destruct (vertices_of self n 1 e) as [|a [|b [|c vs]]]; simpl in Hl; try lia.
  simpl in Hd |- *. split; [lia|done].
Qed.

Lemma rips_edge_enum u v :
  rips_edge self n dist u v <->
  exists d e, (d, e) ∈ enumerate_simplices self n dist 1 /\ edge_ends self n e = (u, v).
Proof.
  split.
  - intros [Huv Hd]. set (e := simplex_index (rips_binomial self n) [v; u]).
    assert (Hdesc : desc_below n [v; u]) by (simpl; lia).
    assert (Hvs : vertices_of self n 1 e = [v; u]).
    { unfold e. apply vertices_of_index; [lia|done|done]. }
    assert (He : e < choose n 2).
    { unfold e. apply (simplex_index_rips_lt self n [v; u] Hdesc). simpl. lia. }
    exists (compute_diameter self n dist 1 e), e. split.
    + apply enumerate_simplices_rips_elem; [lia|]. split; [done|]. split; [done|].
      rewrite Hvs. intros a b Ha Hb Hba.
      apply elem_of_cons in Ha as [->|Ha]; apply elem_of_cons in Hb as [->|Hb];
        apply list_elem_of_singleton in Ha || idtac; apply list_elem_of_singleton in Hb || idtac;
        subst; first [lia|done].
    + destruct (edge_ends_spec e He) as [_ Hends]. rewrite Hvs in Hends.
      destruct (edge_ends self n e). simpl in Hends. congruence.
  - intros (d & e & Hin & Hends).
    apply enumerate_simplices_rips_elem in Hin as (He & _ & Hpairs); [|lia].
    destruct (edge_ends_spec e He) as [Hlt Hvs]. rewrite Hends in Hlt, Hvs. simpl in Hlt, Hvs.
    split; [lia|]. apply Hpairs; [rewrite Hvs; set_solver|rewrite Hvs; set_solver|lia].
Qed.

Lemma edge_list_below :
  edges_below n (edge_list (enumerate_simplices self n dist 1)).
Proof.
  unfold edges_below, edge_list. apply Forall_fmap, Forall_forall. intros [d e] Hin.
  apply enumerate_simplices_rips_elem in Hin as (He & _); [|lia].
  destruct (edge_ends_spec e He) as [Hlt _]. unfold compose. cbn [snd]. split; lia.
Qed.

Lemma connected_edge_list u v :
  connected (edge_list (enumerate_simplices self n dist 1)) u v <-> rips_connected self n dist u v.
Proof.
  assert (Hrel : forall a b, edge_rel (edge_list (enumerate_simplices self n dist 1)) a b <->
                        rips_edge self n dist a b).
  { intros a b. rewrite rips_edge_enum. unfold edge_rel, edge_list.
    rewrite list_elem_of_fmap. split.
    - intros ([d e] & Hab & Hin). exists d, e. by split.
    - intros (d & e & Hin & Hab). by exists (d, e). }
  unfold connected, rips_connected. split; induction 1 as [a b Hab| | |].
  1, 5: apply rst_step; by apply Hrel.
  1, 4: apply rst_refl.
  1, 3: by apply rst_sym.
  all: by eapply rst_trans.
Qed.

Lemma dim0_loop_counts uf edges :
  uf_wf n uf -> edges_below n (edge_list edges) ->
  uf_wf n (dim0_loop self n uf edges).1.1 /\
  length (dim0_loop self n uf edges).1.2 + length (roots n (dim0_loop self n uf edges).1.1) =
    length (roots n uf) /\
  length (dim0_loop self n uf edges).1.2 + length (dim0_loop self n uf edges).2 = length edges.
Proof.
  revert uf. induction edges as [|[d e] edges IH]; intros uf Hwf Hes; [done|].
  unfold edges_below, edge_list in Hes. cbn [map] in Hes.
  apply Forall_cons in Hes as [Hends Hes].
  cbn [dim0_loop snd] in *. destruct (edge_ends self n e) as [u v] eqn:He. simpl in Hends.
  destruct (Nat.eqb_spec (find uf u) (find uf v)) as [Heq|Hne].
  - destruct (IH uf Hwf Hes) as (Hwf' & Hc1 & Hc2).
    destruct (dim0_loop self n uf edges) as [[uf' deaths] cols]. simpl in *. split; [done|split; lia].
  - destruct (IH (link uf u v)) as (Hwf' & Hc1 & Hc2); [apply link_wf; (done || lia)|done|].
    pose proof (roots_link n uf u v Hwf ltac:(lia) ltac:(lia) Hne).
    destruct (dim0_loop self n (link uf u v) edges) as [[uf' deaths] cols]. simpl in *. split; [done|split; lia].
Qed.

(** The cycle edges are a sublist of the edges, and every death is the
    diameter of an edge. *)
Lemma dim0_loop_cols uf (edges : list (V * nat)) : (dim0_loop self n uf edges).2 `sublist_of` edges.
Proof.
  revert uf. induction edges as [|[d e] edges IH]; intros uf; cbn [dim0_loop]; [constructor|].
  destruct (edge_ends self n e) as [u v].
  destruct (find uf u =? find uf v).
  - specialize (IH uf). destruct (dim0_loop self n uf edges) as [[uf' deaths] cols].
    by constructor.
  - specialize (IH (link uf u v)). destruct (dim0_loop self n (link uf u v) edges) as [[uf' deaths] cols].
    by constructor.
Qed.

Lemma dim0_loop_deaths uf (edges : list (V * nat)) d :
  d ∈ (dim0_loop self n uf edges).1.2 -> exists e, (d, e) ∈ edges.
Proof.
  revert uf. induction edges as [|[d' e] edges IH]; intros uf; cbn [dim0_loop]; [set_solver|].
  destruct (edge_ends self n e) as [u v].
  destruct (find uf u =? find uf v).
  - specialize (IH uf). destruct (dim0_loop self n uf edges) as [[uf' deaths] cols].
    simpl. intros Hd. destruct (IH Hd) as [e' He']. exists e'. by right.
  - specialize (IH (link uf u v)). destruct (dim0_loop self n (link uf u v) edges) as [[uf' deaths] cols].
    simpl. intros [->|Hd]%elem_of_cons; [exists e; by left|].
    destruct (IH Hd) as [e' He']. exists e'. by right.
Qed.

(** The loop over a concatenation is the loop over the first part
    continued on the second. *)
Lemma dim0_loop_app uf l1 l2 :
  dim0_loop self n uf (l1 ++ l2) =
  match dim0_loop self n uf l1 return union_find * list V * list (V * nat) with
  | (uf1, d1, c1) =>
      let '(uf2, d2, c2) := dim0_loop self n uf1 l2 in (uf2, d1 ++ d2, c1 ++ c2)
  end.
Proof.
  revert uf. induction l1 as [|[d e] l1 IH]; intros uf; cbn [app dim0_loop].
  - by destruct (dim0_loop self n uf l2) as [[? ?] ?].
  - destruct (edge_ends self n e) as [u v].
    destruct (find uf u =? find uf v); rewrite IH;
      [destruct (dim0_loop self n uf l1) as [[uf1 d1] c1]
      |destruct (dim0_loop self n (link uf u v) l1) as [[uf1 d1] c1]];
      by destruct (dim0_loop self n uf1 l2) as [[? ?] ?].
Qed.

(** The finite deaths of the H0 pairs are the deaths of the loop. *)
Lemma finite_deaths_dim0 (deaths : list V) (roots : list nat) :
  finite_deaths (map (fun d => mkPair vzero (Finite d)) deaths ++
                 map (fun _ => mkPair vzero Infinite) roots) = deaths.
Proof.
  unfold finite_deaths. induction deaths as [|d ds IH]; simpl; [|f_equal; exact IH].
  induction roots as [|r rs IHr]; [done|exact IHr].
Qed.

End Lemmas.

(** The edges and the loop depend on the configuration only through
    [MaxDim]. *)
Lemma dim0_loop_max_dim `{ValueOrder V} `{ValueOfDouble V} self self' n :
  max_dim self' = max_dim self -> forall uf (edges : list (V * nat)),
  dim0_loop self' n uf edges = dim0_loop self n uf edges.
Proof.
  intros Hm uf edges. revert uf. induction edges as [|[d e] edges IH]; intros uf; [done|].
  cbn [dim0_loop].
  replace (edge_ends self' n e) with (edge_ends self n e)
    by (unfold edge_ends, vertices_of, rips_binomial; by rewrite Hm).
  destruct (edge_ends self n e). by rewrite !IH.
Qed.

(** ** Properties *)

(** The union-find after all the edges of the filtration represents the
    connectivity of the Rips graph. *)
Lemma dim0_find_iff `{ValueOrderLaws V} `{ValueOfDouble V}
    self n (dist : nat -> nat -> V) u v :
  u < n -> v < n ->
  find (dim0_union_find self n dist) u = find (dim0_union_find self n dist) v <->
  rips_connected self n dist u v.
Proof.
  intros Hu Hv. unfold dim0_union_find. rewrite dim0_loop_uf, <- connected_edge_list.
  destruct (link_all_spec n (edge_list self n (enumerate_simplices self n dist 1))
              (uf_new n) [] (uf_new_wf n) (Forall_nil_2 _) (edge_list_below self n dist))
    as [_ Hc]; [|by apply Hc].
  intros a b Ha Hb. rewrite !find_uf_new by done. split; [intros ->; apply rst_refl|].
  apply connected_nil.
Qed.

Lemma dim0_union_find_wf `{ValueOrderLaws V} `{ValueOfDouble V}
    self n (dist : nat -> nat -> V) :
  uf_wf n (dim0_union_find self n dist).
Proof.
  unfold dim0_union_find.
  by destruct (dim0_loop_counts self n (uf_new n) (enumerate_simplices self n dist 1)
                 (uf_new_wf n) (edge_list_below self n dist)) as (Hwf & _).
Qed.

(** [C3] The zero-dimensional reducer's union-find refines graph
    connectivity and follows the elder rule: after all the edges of the
    filtration, two points [u, v < n] have the same root exactly when
    they are connected in the Rips graph at the threshold (edges [u < v]
    with [dist v u <= Threshold]), and the root of [u] is at most every
    point connected to [u]: it is the oldest (smallest) vertex of the
    component. *)
Theorem dim0_union_find_connected `{ValueOrderLaws V} `{ValueOfDouble V}
    self n (dist : nat -> nat -> V) u v :
  u < n -> v < n ->
  (find (dim0_union_find self n dist) u = find (dim0_union_find self n dist) v <->
   rips_connected self n dist u v) /\
  (rips_connected self n dist u v -> find (dim0_union_find self n dist) u <= v).
Proof.
  intros Hu Hv. split; [by apply dim0_find_iff|].
  intros Hc. apply dim0_find_iff in Hc; [|done|done]. rewrite Hc.
  by destruct (find_spec n _ v (dim0_union_find_wf self n dist) Hv).
Qed.

(** H0 counts the components: there are exactly [n] H0 pairs, and
    the infinite ones correspond one to one to a set of representatives
    of the connected components of the Rips graph at the threshold (each
    point is connected to exactly one representative); so there are
    [n - c] finite and [c] infinite pairs for [c] components. *)
Theorem compute_dim_0_pairs_components `{ValueOrderLaws V} `{ValueOfDouble V}
    self n (dist : nat -> nat -> V) :
  length (compute_dim_0_pairs self n dist).1 = n /\
  exists R : list nat,
    NoDup R /\
    length R = length (List.filter (fun p => negb (is_finite p)) (compute_dim_0_pairs self n dist).1) /\
    (forall r, r ∈ R -> r < n) /\
    (forall u, u < n -> exists r, r ∈ R /\ rips_connected self n dist u r) /\
    (forall r1 r2, r1 ∈ R -> r2 ∈ R -> rips_connected self n dist r1 r2 -> r1 = r2).
Proof.
  destruct (dim0_loop_counts self n (uf_new n) (enumerate_simplices self n dist 1)
              (uf_new_wf n) (edge_list_below self n dist)) as (Hwf & Hcount & _).
  rewrite roots_uf_new in Hcount.
  assert (Hconn := dim0_find_iff self n dist).
  unfold compute_dim_0_pairs, dim0_union_find in *.
  destruct (dim0_loop self n (uf_new n) (enumerate_simplices self n dist 1))
    as [[uf deaths] cols]. simpl in *. fold (roots n uf).
  split; [rewrite length_app, !length_map; lia|].
  exists (roots n uf). split; [apply NoDup_ListNoDup, List.NoDup_filter, seq_NoDup|].
  split; [rewrite List.filter_app, length_app, !filter_map_comm; simpl;
          rewrite !filter_const, !length_map; done|].
  split; [intros r Hr; by apply elem_of_roots in Hr as [? _]|].
  split.
  - intros u Hu. exists (find uf u). destruct (find_spec n uf u Hwf Hu) as [Hle Hroot].
    split; [apply elem_of_roots; split; [lia|apply (find_root n); [done|lia|done]]|].
    apply Hconn; [done|lia|]. symmetry. apply (find_root n); [done|lia|done].
  - intros r1 r2 Hr1 Hr2 Hc. apply elem_of_roots in Hr1 as [? Hr1], Hr2 as [? Hr2].
    apply Hconn in Hc; [congruence|done|done].
Qed.

(** Threshold monotonicity of H0 (specification section 8): for two
    configurations with the same [MaxDim] and thresholds [t' <= t], the
    finite H0 deaths at [t'] are exactly those at [t] that are at most
    [t'], in the same order: lowering the threshold removes the merges
    above it and changes no other finite pair. *)
Theorem compute_dim_0_pairs_threshold `{ValueOrderLaws V} `{ValueOfDouble V}
    self self' n (dist : nat -> nat -> V) :
  max_dim self' = max_dim self -> threshold self' ≤ᵥ threshold self ->
  finite_deaths (compute_dim_0_pairs self' n dist).1 =
  List.filter (fun d => vle d (threshold self'))
    (finite_deaths (compute_dim_0_pairs self n dist).1).
Proof.
  intros Hm Ht. unfold compute_dim_0_pairs.
  rewrite (enumerate_simplices_threshold self self' n dist 1 Hm Ht), (dim0_loop_max_dim self self' n Hm).
  set (E := enumerate_simplices self n dist 1).
  set (F1 := List.filter (fun p => vle p.1 (threshold self')) E).
  set (F2 := List.filter (fun p => negb (vle p.1 (threshold self'))) E).
  assert (HE : E = F1 ++ F2)
    by (apply sorted_threshold_split, (enumerate_simplices_sorted self n dist 1)).
  rewrite HE. rewrite (dim0_loop_app self n).
  destruct (dim0_loop self n (uf_new n) F1) as [[uf1 d1] c1] eqn:L1.
  destruct (dim0_loop self n uf1 F2) as [[uf2 d2] c2] eqn:L2. cbn [fst].
  rewrite !finite_deaths_dim0, List.filter_app.
  rewrite (filter_all _ d1 true), (filter_all _ d2 false), app_nil_r; [done|..].
  - intros d Hd. apply list_elem_of_In in Hd.
    destruct (dim0_loop_deaths self n uf1 F2 d) as [e He]; [by rewrite L2|].
    apply list_elem_of_In, filter_In in He as [_ He]. by apply negb_true_iff in He.
  - intros d Hd. apply list_elem_of_In in Hd.
    destruct (dim0_loop_deaths self n (uf_new n) F1 d) as [e He]; [by rewrite L1|].
    by apply list_elem_of_In, filter_In in He as [_ He].
Qed.

(** One component at a threshold no smaller than any distance (the
    "infinite" threshold of section 8): for [n >= 1] points all within
    the threshold of each other, H0 has exactly one infinite pair,
    [(0, infinity)], and [n - 1] finite pairs. *)
Theorem compute_dim_0_pairs_single_class `{ValueOrderLaws V} `{ValueOfDouble V}
    self n (dist : nat -> nat -> V) :
  1 <= n -> (forall u v, u < v < n -> dist v u ≤ᵥ threshold self) ->
  List.filter (fun p => negb (is_finite p)) (compute_dim_0_pairs self n dist).1 =
    [mkPair vzero Infinite] /\
  length (finite_deaths (compute_dim_0_pairs self n dist).1) = n - 1.
Proof.
  intros Hn Hd.
  assert (Hconn : forall u v, u < n -> v < n -> rips_connected self n dist u v).
  { intros u v Hu Hv. destruct (lt_eq_lt_dec u v) as [[Huv| ->]|Hvu].
    - apply rst_step. split; [lia|apply Hd; lia].
    - apply rst_refl.
    - apply rst_sym, rst_step. split; [lia|apply Hd; lia]. }
  pose proof (roots_single n _ (dim0_union_find_wf self n dist) Hn
                (fun u v Hu Hv => proj2 (dim0_find_iff self n dist u v Hu Hv) (Hconn u v Hu Hv)))
    as Hroots.
  destruct (dim0_loop_counts self n (uf_new n) (enumerate_simplices self n dist 1)
              (uf_new_wf n) (edge_list_below self n dist)) as (_ & Hcount & _).
  rewrite roots_uf_new in Hcount.
  unfold compute_dim_0_pairs, dim0_union_find in *.
  destruct (dim0_loop self n (uf_new n) (enumerate_simplices self n dist 1))
    as [[uf deaths] cols]. simpl in *. fold (roots n uf). rewrite Hroots in Hcount |- *.
  simpl in Hcount. rewrite finite_deaths_dim0. split; [|lia].
  rewrite List.filter_app, (filter_all _ (map _ deaths) false); [done|].
  by intros x (d & <- & _)%in_map_iff.
Qed.

(** *** Witnesses *)

Lemma dim0_union_find_connected_witness :
  (find (dim0_union_find RipsPersistenceDiagram_new 4 (cloud_dist unit_square)) 3 =
   find (dim0_union_find RipsPersistenceDiagram_new 4 (cloud_dist unit_square)) 2 <->
   rips_connected RipsPersistenceDiagram_new 4 (cloud_dist unit_square) 3 2) /\
  (rips_connected RipsPersistenceDiagram_new 4 (cloud_dist unit_square) 3 2 ->
   find (dim0_union_find RipsPersistenceDiagram_new 4 (cloud_dist unit_square)) 3 <= 2).
Proof. apply (dim0_union_find_connected RipsPersistenceDiagram_new 4 (cloud_dist unit_square) 3 2); lia. Defined.

Lemma compute_dim_0_pairs_components_witness :
  length (compute_dim_0_pairs RipsPersistenceDiagram_new 4 (cloud_dist unit_square)).1 = 4.
Proof.
  exact (proj1 (compute_dim_0_pairs_components RipsPersistenceDiagram_new 4 (cloud_dist unit_square))).
Defined.

Lemma compute_dim_0_pairs_threshold_witness :
  finite_deaths (compute_dim_0_pairs scenario1_low_config 4 (cloud_dist unit_square)).1 =
  List.filter (fun d => vle d (threshold scenario1_low_config))
    (finite_deaths (compute_dim_0_pairs scenario1_config 4 (cloud_dist unit_square)).1).
Proof.
  apply (compute_dim_0_pairs_threshold scenario1_config scenario1_low_config 4 (cloud_dist unit_square));
    [reflexivity|vm_compute; reflexivity].
Defined.

Lemma compute_dim_0_pairs_single_class_witness :
  List.filter (fun p => negb (is_finite p))
    (compute_dim_0_pairs scenario1_config 4 (cloud_dist unit_square)).1 = [mkPair vzero Infinite] /\
  length (finite_deaths (compute_dim_0_pairs scenario1_config 4 (cloud_dist unit_square)).1) = 4 - 1.
Proof.
  apply compute_dim_0_pairs_single_class; [lia|].
  intros u v Huv. destruct u as [|[|[|[|u]]]], v as [|[|[|[|v]]]]; try lia; vm_compute; reflexivity.
Defined.

End Homology0.
