(* ===== verification/Cohomology.v ===== *)
(** * Cohomology Reduction Engine (H1 and above)

    Specification section 4.5, with the apparent pairs of section 3 and
    the clearing of the glossary.  For a dimension [k >= 1] the columns
    are the [k]-simplices that are not already paired (clearing: for
    [k = 1] the edges that closed a cycle in H0, for [k >= 2] the
    simplices that were not a pivot in dimension [k-1]).  They are
    processed in reverse filtration order.  The working cochain of a
    column [s] starts as its coboundary [delta s] (the cofacets of [s]
    within the threshold, a Z/2 cochain: a [gset] of indices); its pivot
    is its oldest simplex in filtration order.  While the pivot is the
    pivot of a column already reduced, that column is added (symmetric
    difference).  A zero column gives an essential class
    [(diam s, infinity)]; a column with a new pivot [t] gives the pair
    [(diam s, diam t)], discarded when [diam t <= diam s] (zero length).

    Apparent pairs: when the oldest cofacet [t] of [s] has [s] as its
    youngest facet, the pair [(s, t)] is emitted without reduction.

    - [cofacets], [coboundary], [facets]: the cofacets and facets by
      index, through the vertex lists of the indexer;
    - [key], [pivot]: the filtration key of a [(k+1)]-simplex and the
      pivot of a cochain;
    - [reduce_column]: the reduction loop, with a fuel bound;
    - [apparent_cofacet]: the apparent-pair test;
    - [reduction_step] (with the shortcut) and [reduction_step_plain]
      (without it); [reduce_dim], [compute_dim_pairs]: the whole
      dimension; [assemble_columns]: clearing.

    Theorems: the loop terminates within its fuel
    ([reduce_column_terminates]); the table invariant [table_inv] (every
    entry [t |-> (s, r)] pairs a processed column [s] with the pivot [t]
    of a cochain [r] whose simplices are all cofacets of [k]-simplices no
    older than [s]) holds after every column ([reduce_dim_inv], by the
    generic fold induction [fold_plain_ind]); the shortcut is sound
    ([reduce_dim_eq]); every column is eventually answered by a pivot or
    an essential pair ([reduce_dim_settles]).
    The soundness of clearing is proved in [Clearing].  Two remarks show on the unit square
    that the literal wording of the specification (apparent pairs with
    the oldest facet, columns in increasing order) would give other
    pairs.
*)

From S2P Require Import Prelude RipsConfig Distance Binomial SimplexIndex Filtration.

Module Cohomology.
Import RipsConfig.RipsConfig Distance.Distance Binomial.Binomial SimplexIndex.Indexer
  Filtration.Filtration.

(** Insert a vertex into a decreasing vertex list. *)
Fixpoint insert_desc (v : nat) (vs : list nat) : list nat :=
  match vs with
  | [] => [v]
  | w :: vs' => if w <? v then v :: vs else w :: insert_desc v vs'
  end.

Section Engine.
Context `{ValueOrder V} `{ValueOfDouble V}.
Variable self : RipsPersistenceDiagram.
Variable n : nat.
Variable dist : nat -> nat -> V.

(** The filtration key of a [k]-simplex. *)
Definition key (k s : nat) : V * nat := (compute_diameter self n dist k s, s).

(** The cofacets of the [k]-simplex [s] within the threshold: one per
    vertex [v < n] not in [s]. *)
Definition cofacets (k s : nat) : list nat :=
  let vs := vertices_of self n k s in
  List.filter (fun t => vle (compute_diameter self n dist (S k) t) (threshold self))
    (map (fun v => simplex_index (rips_binomial self n) (insert_desc v vs))
       (List.filter (fun v => negb (bool_decide (v ∈ vs))) (seq 0 n))).

Definition coboundary (k s : nat) : gset nat := list_to_set (cofacets k s).

(** The facets of the [(k+1)]-simplex [t]: one per vertex removed. *)
Definition facets (k t : nat) : list nat :=
  let ws := vertices_of self n (S k) t in
  map (fun v => simplex_index (rips_binomial self n) (List.remove Nat.eq_dec v ws)) ws.

(** The pivot of a cochain of [(k+1)]-simplices: its oldest simplex. *)
Definition pivot (k : nat) (c : gset nat) : option nat :=
  min_by_key filt_leb (key (S k)) (elements c).

(** The youngest facet of a [(k+1)]-simplex. *)
Definition max_facet (k t : nat) : option nat :=
  min_by_key (fun a b => filt_leb b a) (key k) (facets k t).

(** The reduction loop of one column: the reduced columns are kept by
    pivot, [t |-> (column s, cochain)]; while the pivot of [w] is one of
    them, its cochain is added. *)
Fixpoint reduce_column (fuel k : nat) (tbl : gmap nat (nat * gset nat)) (w : gset nat) : gset nat :=
  match fuel with
  | 0 => w
  | S fuel' =>
      match pivot k w with
      | None => w
      | Some t =>
          match tbl !! t with
          | Some (_, r) => reduce_column fuel' k tbl (w ⊕ r)
          | None => w
          end
      end
  end.

(** The apparent-pair test: the oldest cofacet [t] of [s] has [s] as
    its youngest facet.  Section 3 of the specification says "the
    minimal cofacet of [s] and the minimal facet of [t]"; with [s] the
    minimal (oldest) facet of [t] the shortcut disagrees with the
    reduction ([apparent_min_facet_differs] below), so the test uses the
    youngest facet, the condition under which [reduce_dim_eq]
    proves the shortcut sound. *)
Definition apparent_cofacet (k s : nat) : option nat :=
  match pivot k (coboundary k s) with
  | Some t => if bool_decide (max_facet k t = Some s) then Some t else None
  | None => None
  end.

Record red_state := mkRedState {
  table : gmap nat (nat * gset nat);
  pairs : list (pers_pair V)
}.

(** Emit [(b, d)] unless it has zero length. *)
Definition emit (b d : V) (ps : list (pers_pair V)) : list (pers_pair V) :=
  if vlt b d then ps ++ [mkPair b (Finite d)] else ps.

(** The literal reading of section 3: [s] is the oldest facet of [t]. *)
Definition apparent_cofacet_min (k s : nat) : option nat :=
  match pivot k (coboundary k s) with
  | Some t => if bool_decide (min_by_key filt_leb (key k) (facets k t) = Some s) then Some t else None
  | None => None
  end.

(** Record the new pivot [t] of column [s] with its reduced cochain. *)
Definition settle (k s : nat) (w : gset nat) (st : red_state) : red_state :=
  let ds := compute_diameter self n dist k s in
  match pivot k w with
  | None => mkRedState (table st) (pairs st ++ [mkPair ds Infinite])
  | Some t => mkRedState (<[t := (s, w)]> (table st))
                         (emit ds (compute_diameter self n dist (S k) t) (pairs st))
  end.

(** One column without the shortcut. *)
Definition reduction_step_plain (k fuel : nat) (st : red_state) (s : nat) : red_state :=
  settle k s (reduce_column fuel k (table st) (coboundary k s)) st.

(** One column, apparent pairs first. *)
Definition reduction_step (k fuel : nat) (st : red_state) (s : nat) : red_state :=
  match apparent_cofacet k s with
  | Some t => settle k s (coboundary k s) st
  | None => reduction_step_plain k fuel st s
  end.

(** Enough fuel: one more than the number of [(k+1)]-simplices. *)
Definition reduction_fuel (k : nat) : nat := rips_binomial self n n (S (S k)) + 1.

(** The reduction of all the columns of dimension [k] (given in
    filtration order, reduced in reverse).  Section 4.5 of the
    specification says the columns are processed in increasing
    filtration order; with pivots at the oldest cofacet, the reduction is
    sound when every stored column is younger than the current one, that
    is in decreasing order ([increasing_order_differs] below). *)
Definition reduce_dim (k : nat) (columns : list (V * nat)) : red_state :=
  fold_left (reduction_step k (reduction_fuel k)) (map snd (rev columns)) (mkRedState ∅ []).

Definition reduce_dim_plain (k : nat) (columns : list (V * nat)) : red_state :=
  fold_left (reduction_step_plain k (reduction_fuel k)) (map snd (rev columns)) (mkRedState ∅ []).

(** The pairs of dimension [k], and its pivots, cleared from the columns
    of dimension [k+1]. *)
Definition compute_dim_pairs (k : nat) (columns : list (V * nat)) : list (pers_pair V) * list nat :=
  let st := reduce_dim k columns in (pairs st, map fst (map_to_list (table st))).

(** *** Invariants of the reduction *)

(** [supported k s w]: every simplex of [w] is a cofacet of a
    [k]-simplex no older than [s]: [w] is a sum of coboundaries of
    columns processed no earlier than [s]. *)
Definition supported (k s : nat) (w : gset nat) : Prop :=
  forall x, x ∈ w -> exists rho, rho < choose n (S k) /\ x ∈ cofacets k rho /\
                           filt_le (key k s) (key k rho).

(** The pivot table holds, under each pivot [t], a processed column and a
    cochain with pivot [t] supported from that column. *)
Definition table_inv (k : nat) (processed : list nat) (tbl : gmap nat (nat * gset nat)) : Prop :=
  forall t s r, tbl !! t = Some (s, r) ->
    s ∈ processed /\ s < choose n (S k) /\ pivot k r = Some t /\ supported k s r.

(** A reduced cochain: zero, or its pivot is not the pivot of a column
    already reduced. *)
Definition reduced (k : nat) (tbl : gmap nat (nat * gset nat)) (w : gset nat) : Prop :=
  match pivot k w with None => True | Some t => tbl !! t = None end.

(** [s] is processed before [s'] (reverse filtration order). *)
Definition processed_before (k s s' : nat) : Prop :=
  s <> s' /\ filt_le (key k s') (key k s).

(** Column [s] has been answered: it owns a pivot of the table, or its
    essential pair [(diam s, ∞)] has been emitted. *)
Definition settled (k : nat) (st : red_state) (s : nat) : Prop :=
  (exists t r, table st !! t = Some (s, r)) \/
  mkPair (compute_diameter self n dist k s) Infinite ∈ pairs st.

(** The columns of a dimension [k]: in filtration order, no index
    twice, [k]-simplices with their diameters. *)
Definition columns_ok (k : nat) (columns : list (V * nat)) : Prop :=
  StronglySorted filt_le columns /\ NoDup (map snd columns) /\
  forall d s, (d, s) ∈ columns -> s < choose n (S k) /\ d = compute_diameter self n dist k s.

(** The number of [(k+1)]-simplices no older than the pivot: it
    decreases at each addition of the reduction loop. *)
Definition pivot_rank (k : nat) (w : gset nat) : nat :=
  match pivot k w with
  | None => 0
  | Some t => length (List.filter (fun x => filt_leb (key (S k) t) (key (S k) x))
                        (seq 0 (choose n (S (S k)))))
  end.

(** Clearing: the columns of dimension [k >= 2] are the [k]-simplices of
    the filtration that were not a pivot in dimension [k-1]. *)
Definition assemble_columns (k : nat) (pivots : list nat) : list (V * nat) :=
  List.filter (fun p => negb (bool_decide (p.2 ∈ pivots))) (enumerate_simplices self n dist k).
End Engine.

(** ** Vertex lists *)

Lemma insert_desc_desc N v vs :
  desc_below N vs -> v < N -> v ∉ vs -> desc_below N (insert_desc v vs).
Proof.
  revert N. induction vs as [|w vs IH]; intros N Hd Hv Hnin; simpl; [lia|].
  destruct Hd as [Hw Hd]. destruct (Nat.ltb_spec w v) as [Hwv|Hvw]; simpl.
  - repeat split; lia || done.
  - split; [done|]. apply IH; [done| |set_solver].
    assert (v <> w) by set_solver. lia.
Qed.

Lemma length_insert_desc v vs : length (insert_desc v vs) = S (length vs).
Proof. induction vs as [|w vs IH]; simpl; [done|]. destruct (w <? v); simpl; lia. Qed.

Lemma elem_of_insert_desc x v vs : x ∈ insert_desc v vs <-> x = v \/ x ∈ vs.
Proof.
  induction vs as [|w vs IH]; simpl; [set_solver|].
  destruct (w <? v); rewrite !elem_of_cons; [tauto|]. rewrite IH. tauto.
Qed.

Lemma remove_insert_desc v vs : v ∉ vs -> List.remove Nat.eq_dec v (insert_desc v vs) = vs.
Proof.
  induction vs as [|w vs IH]; intros Hnin; simpl.
  - by destruct (Nat.eq_dec v v).
  - assert (v <> w) by set_solver.
    destruct (w <? v); simpl.
    + destruct (Nat.eq_dec v v); [|done]. simpl.
      destruct (Nat.eq_dec v w); [done|]. f_equal.
      apply notin_remove. rewrite <- list_elem_of_In. set_solver.
    + destruct (Nat.eq_dec v w); [done|]. f_equal. apply IH. set_solver.
Qed.

Section Lemmas.
Context `{ValueOrderLaws V} `{ValueOfDouble V}.
Variable self : RipsPersistenceDiagram.
Variable n : nat.
Variable dist : nat -> nat -> V.

Lemma elem_of_cofacets k s t :
  t ∈ cofacets self n dist k s <->
  (exists v, v < n /\ (v ∉ vertices_of self n k s) /\
     t = simplex_index (rips_binomial self n) (insert_desc v (vertices_of self n k s))) /\
  compute_diameter self n dist (S k) t ≤ᵥ threshold self.
Proof.
  unfold cofacets. rewrite list_elem_of_In, filter_In, in_map_iff.
  split.
  - intros [(v & <- & Hv) Hle]. apply filter_In in Hv as [Hv Hnin].
    apply in_seq in Hv. apply negb_true_iff, bool_decide_eq_false in Hnin.
    split; [exists v; split_and!; (lia || done)|done].
  - intros [(v & Hv & Hnin & ->) Hle]. split; [|done]. exists v. split; [done|].
    apply filter_In. split; [apply in_seq; lia|].
    by apply negb_true_iff, bool_decide_eq_false.
Qed.

(** A cofacet of a simplex [s] of dimension [k <= MaxDim] has [s] among
    its facets, and is a simplex of dimension [k+1]. *)
Lemma cofacet_facet k s t :
  k <= max_dim self -> s < choose n (S k) ->
  t ∈ cofacets self n dist k s ->
  t < choose n (S (S k)) /\ s ∈ facets self n k t /\
  exists v, v < n /\ (v ∉ vertices_of self n k s) /\
    vertices_of self n (S k) t = insert_desc v (vertices_of self n k s).
Proof.
  intros Hk Hs [(v & Hv & Hnin & ->) _]%elem_of_cofacets.
  destruct (vertices_of_valid self n k s ltac:(lia) Hs) as (Hd & Hl & Hi).
  set (vs := vertices_of self n k s) in *.
  assert (Hd' : desc_below n (insert_desc v vs)) by by apply insert_desc_desc.
  assert (Hl' : length (insert_desc v vs) = S (S k)) by by rewrite length_insert_desc, Hl.
  assert (Hvs : vertices_of self n (S k) (simplex_index (rips_binomial self n) (insert_desc v vs)) =
                insert_desc v vs) by (apply vertices_of_index; (done || lia)).
  split_and!.
  - rewrite <- Hl'. apply simplex_index_rips_lt; [done|lia].
  - unfold facets. rewrite Hvs. apply list_elem_of_fmap. exists v.
    rewrite remove_insert_desc by done. split; [done|].
    apply elem_of_insert_desc. by left.
  - by exists v.
Qed.

(** *** Keys and pivots *)

Lemma pivot_Some k c t :
  pivot self n dist k c = Some t ->
  t ∈ c /\ forall x, x ∈ c -> filt_le (key self n dist (S k) t) (key self n dist (S k) x).
Proof.
  unfold pivot. intros Hp.
  apply min_by_key_spec in Hp as [Ht Hmin];
    [|apply filt_le_total|intros ???; apply filt_le_trans].
  split; [by apply elem_of_elements in Ht|]. intros x Hx. apply Hmin. by apply elem_of_elements.
Qed.

Lemma pivot_None k c : pivot self n dist k c = None <-> c = ∅.
Proof.
  unfold pivot. rewrite min_by_key_None, elements_empty_iff. by rewrite leibniz_equiv_iff.
Qed.

(** Two cochains with the same pivot: their sum has a strictly later
    pivot (or is zero). *)
Lemma pivot_zsum k w r t :
  pivot self n dist k w = Some t -> pivot self n dist k r = Some t ->
  forall x, x ∈ w ⊕ r -> x <> t /\ filt_le (key self n dist (S k) t) (key self n dist (S k) x).
Proof.
  intros [Htw Hw]%pivot_Some [Htr Hr]%pivot_Some x [[Hx Hnx]|[Hx Hnx]]%elem_of_zsum;
    (split; [intros ->; done|auto]).
Qed.

Lemma max_facet_spec k t s :
  max_facet self n dist k t = Some s ->
  s ∈ facets self n k t /\
  forall r, r ∈ facets self n k t -> filt_le (key self n dist k r) (key self n dist k s).
Proof.
  unfold max_facet. intros Hm.
  apply min_by_key_spec in Hm as [Hs Hmax]; [done| |].
  - intros a b. destruct (filt_le_total b a); auto.
  - intros a b c Hab Hbc. eapply filt_le_trans; [exact Hbc|exact Hab].
Qed.

(** *** Diameters of faces *)

(** A cofacet is at least as old as its simplex (face monotonicity of
    the diameter). *)
Lemma cofacet_diameter k s t :
  1 <= k <= max_dim self -> s < choose n (S k) ->
  t ∈ cofacets self n dist k s ->
  compute_diameter self n dist k s ≤ᵥ compute_diameter self n dist (S k) t.
Proof.
  intros Hk Hs Ht. destruct (cofacet_facet k s t ltac:(lia) Hs Ht) as (Htn & _ & v & _ & _ & Hvs).
  apply compute_diameter_le; [lia|done|]. intros a b Ha Hb Hab.
  pose proof (proj1 (compute_diameter_le self n dist (S k) t _ ltac:(lia) Htn)
                (vle_refl _)) as Hall.
  apply Hall; [|rewrite Hvs; apply elem_of_insert_desc; by right..|done].
  rewrite Hvs; apply elem_of_insert_desc; by right.
Qed.

(** *** Columns of the pipeline *)

Lemma columns_ok_enumerate k :
  k <= max_dim self + 1 -> columns_ok self n dist k (enumerate_simplices self n dist k).
Proof.
  intros Hk. destruct (enumerate_simplices_sorted self n dist k) as [Hs Hnd].
  split_and!; [done|done|]. intros d s Hin.
  apply enumerate_simplices_elem in Hin as (? & ? & _); [|done]. done.
Qed.

Lemma columns_ok_sublist k columns' columns :
  columns' `sublist_of` columns ->
  columns_ok self n dist k columns -> columns_ok self n dist k columns'.
Proof.
  intros Hsub (Hs & Hnd & Hc). split_and!.
  - by eapply StronglySorted_sublist.
  - by eapply NoDup_map_sublist.
  - intros d s Hin. apply Hc. by eapply elem_of_sublist.
Qed.

(** *** The reduction loop *)

Section Reduction.
Variable k : nat.
Hypothesis Hk : 1 <= k <= max_dim self.

Lemma supported_mono s s' w :
  filt_le (key self n dist k s) (key self n dist k s') ->
  supported self n dist k s' w -> supported self n dist k s w.
Proof.
  intros Hss' Hw x Hx. destruct (Hw x Hx) as (rho & ? & ? & ?).
  exists rho. split_and!; [done|done|eapply filt_le_trans; eassumption].
Qed.

Lemma supported_zsum s w r :
  supported self n dist k s w -> supported self n dist k s r ->
  supported self n dist k s (w ⊕ r).
Proof. intros Hw Hr x [[Hx _]|[Hx _]]%elem_of_zsum; auto. Qed.

Lemma supported_coboundary s :
  s < choose n (S k) -> supported self n dist k s (coboundary self n dist k s).
Proof.
  intros Hs x Hx. exists s. split_and!; [done| |apply filt_le_refl].
  unfold coboundary in Hx. by apply elem_of_list_to_set in Hx.
Qed.

Lemma supported_bound s w x :
  supported self n dist k s w -> x ∈ w -> x < choose n (S (S k)).
Proof.
  intros Hw Hx. destruct (Hw x Hx) as (rho & Hrho & Hc & _).
  by destruct (cofacet_facet k rho x ltac:(lia) Hrho Hc).
Qed.

Lemma reduce_column_supported fuel tbl s w :
  (forall t s' r, tbl !! t = Some (s', r) -> supported self n dist k s r) ->
  supported self n dist k s w ->
  supported self n dist k s (reduce_column self n dist fuel k tbl w).
Proof.
  intros Htbl. revert w. induction fuel as [|fuel IH]; intros w Hw; cbn [reduce_column]; [done|].
  destruct (pivot self n dist k w) as [t|]; [|done].
  destruct (tbl !! t) as [[s' r]|] eqn:Ht; [|done].
  apply IH, supported_zsum; [done|]. by apply (Htbl t s' r).
Qed.

Lemma pivot_rank_le w : pivot_rank self n dist k w <= choose n (S (S k)).
Proof.
  unfold pivot_rank. destruct (pivot _ _ _ _ w); [|lia].
  rewrite <- (length_seq (choose n (S (S k))) 0) at 2. apply List.filter_length_le.
Qed.

(** Adding the column with the same pivot lowers the rank. *)
Lemma pivot_rank_zsum w r t :
  (forall x, x ∈ w -> x < choose n (S (S k))) ->
  pivot self n dist k w = Some t -> pivot self n dist k r = Some t ->
  pivot_rank self n dist k (w ⊕ r) < pivot_rank self n dist k w.
Proof.
  intros Hb Hw Hr. pose proof (pivot_zsum k w r t Hw Hr) as Hsum.
  destruct (pivot_Some k w t Hw) as [Htw _].
  assert (Htin : t ∈ seq 0 (choose n (S (S k)))).
  { apply list_elem_of_In, in_seq. specialize (Hb t Htw). lia. }
  unfold pivot_rank. rewrite Hw. destruct (pivot self n dist k (w ⊕ r)) as [t'|] eqn:Hp.
  - apply pivot_Some in Hp as [Ht' _]. destruct (Hsum t' Ht') as [Hne Hle].
    apply (filter_length_lt _ _ _ t).
    + intros x Hx. eapply filt_le_trans; [exact Hle|exact Hx].
    + done.
    + apply filt_le_refl.
    + destruct (filt_leb (key self n dist (S k) t') (key self n dist (S k) t)) eqn:E; [|done].
      exfalso. apply Hne. exact (filt_le_antisym _ _ E Hle).
  - pose proof (filter_length_lt (fun _ => false)
      (fun x => filt_leb (key self n dist (S k) t) (key self n dist (S k) x))
      (seq 0 (choose n (S (S k)))) t ltac:(done) Htin (filt_le_refl _) eq_refl) as Hlt.
    rewrite filter_const in Hlt. simpl in Hlt. lia.
Qed.

Lemma reduce_column_reduced fuel tbl w :
  (forall t s' r, tbl !! t = Some (s', r) ->
     pivot self n dist k r = Some t /\ forall x, x ∈ r -> x < choose n (S (S k))) ->
  (forall x, x ∈ w -> x < choose n (S (S k))) ->
  pivot_rank self n dist k w < fuel ->
  reduced self n dist k tbl (reduce_column self n dist fuel k tbl w).
Proof.
  intros Htbl. revert w. induction fuel as [|fuel IH]; intros w Hw Hrank; [lia|].
  cbn [reduce_column]. destruct (pivot self n dist k w) as [t|] eqn:Hp.
  - destruct (tbl !! t) as [[s' r]|] eqn:Ht.
    + destruct (Htbl t s' r Ht) as [Hpr Hr]. apply IH.
      * intros x [[Hx _]|[Hx _]]%elem_of_zsum; auto.
      * pose proof (pivot_rank_zsum w r t Hw Hp Hpr). lia.
    + unfold reduced. by rewrite Hp.
  - unfold reduced. by rewrite Hp.
Qed.

Lemma reduction_fuel_choose : reduction_fuel self n k = S (choose n (S (S k))).
Proof.
  unfold reduction_fuel, rips_binomial. rewrite table_binomial_choose by lia. lia.
Qed.

(** The table invariant bounds the stored cochains. *)
Lemma table_inv_bound p tbl :
  table_inv self n dist k p tbl ->
  forall t s' r, tbl !! t = Some (s', r) ->
    pivot self n dist k r = Some t /\ forall x, x ∈ r -> x < choose n (S (S k)).
Proof.
  intros Hinv t s' r Ht. destruct (Hinv t s' r Ht) as (_ & _ & Hp & Hsup).
  split; [done|]. intros x. by apply supported_bound with s'.
Qed.

(** With [reduction_fuel], the reduction of a coboundary ends reduced. *)
Lemma reduce_column_fuel_reduced p tbl s :
  table_inv self n dist k p tbl -> s < choose n (S k) ->
  reduced self n dist k tbl
    (reduce_column self n dist (reduction_fuel self n k) k tbl (coboundary self n dist k s)).
Proof.
  intros Hinv Hs. apply reduce_column_reduced.
  - by eapply table_inv_bound.
  - intros x. eapply supported_bound. by apply supported_coboundary.
  - rewrite reduction_fuel_choose. pose proof (pivot_rank_le (coboundary self n dist k s)). lia.
Qed.

(** An apparent cofacet is never the pivot of a column processed before. *)
Lemma apparent_free tbl p s t :
  table_inv self n dist k p tbl ->
  (forall s', s' ∈ p -> processed_before self n dist k s' s) ->
  apparent_cofacet self n dist k s = Some t -> tbl !! t = None.
Proof.
  intros Hinv Hbefore Ha. unfold apparent_cofacet in Ha.
  destruct (pivot self n dist k (coboundary self n dist k s)) as [t0|]; [|done].
  case_bool_decide as Hm; [|done]. injection Ha as <-.
  destruct (tbl !! t0) as [[s' r]|] eqn:Ht; [exfalso|done].
  destruct (Hinv t0 s' r Ht) as (Hs' & _ & Hpr & Hsup).
  destruct (pivot_Some k r t0 Hpr) as [Htr _].
  destruct (Hsup t0 Htr) as (rho & Hrho & Hc & Hle).
  destruct (cofacet_facet k rho t0 ltac:(lia) Hrho Hc) as (_ & Hf & _).
  destruct (max_facet_spec k t0 s Hm) as [_ Hmax].
  destruct (Hbefore s' Hs') as [Hne Hss'].
  apply Hne. apply (filt_le_antisym (key self n dist k s') (key self n dist k s)); [|done].
  eapply filt_le_trans; [exact Hle|by apply Hmax].
Qed.

Lemma apparent_pivot s t :
  apparent_cofacet self n dist k s = Some t ->
  pivot self n dist k (coboundary self n dist k s) = Some t.
Proof.
  unfold apparent_cofacet. destruct (pivot _ _ _ _ _); [|done].
  case_bool_decide; congruence.
Qed.

(** With the invariant, the apparent-pair shortcut computes what the
    reduction computes. *)
Lemma reduction_step_eq fuel st p s :
  table_inv self n dist k p (table st) ->
  (forall s', s' ∈ p -> processed_before self n dist k s' s) ->
  reduction_step self n dist k (S fuel) st s = reduction_step_plain self n dist k (S fuel) st s.
Proof.
  intros Hinv Hbefore. unfold reduction_step.
  destruct (apparent_cofacet self n dist k s) as [t|] eqn:Ha; [|done].
  unfold reduction_step_plain. cbn [reduce_column].
  by rewrite (apparent_pivot s t Ha), (apparent_free _ p s t Hinv Hbefore Ha).
Qed.

Lemma table_inv_step fuel st p s :
  table_inv self n dist k p (table st) ->
  (forall s', s' ∈ p -> processed_before self n dist k s' s) ->
  s < choose n (S k) ->
  table_inv self n dist k (p ++ [s]) (table (reduction_step_plain self n dist k fuel st s)).
Proof.
  intros Hinv Hbefore Hs.
  assert (Hw : supported self n dist k s
                 (reduce_column self n dist fuel k (table st) (coboundary self n dist k s))).
  { apply reduce_column_supported; [|by apply supported_coboundary].
    intros t s' r Ht. destruct (Hinv t s' r Ht) as (Hs' & _ & _ & Hsup).
    apply (supported_mono s s'); [|done]. by destruct (Hbefore s' Hs'). }
  unfold reduction_step_plain, settle.
  destruct (pivot self n dist k _) as [t|] eqn:Hp; simpl; intros t' s' r Ht'.
  - destruct (decide (t' = t)) as [->|Hne].
    + rewrite lookup_insert_eq in Ht'. injection Ht' as <- <-. set_solver.
    + rewrite lookup_insert_ne in Ht' by done.
      destruct (Hinv t' s' r Ht') as (? & ? & ? & ?). set_solver.
  - destruct (Hinv t' s' r Ht') as (? & ? & ? & ?). set_solver.
Qed.

(** A step answers its column and keeps the answers already given: the
    new pivot is fresh and the pairs only grow. *)
Lemma settled_step st p s :
  table_inv self n dist k p (table st) -> s < choose n (S k) ->
  (forall s', s' ∈ p -> settled self n dist k st s') ->
  forall s', s' ∈ p ++ [s] ->
    settled self n dist k (reduction_step_plain self n dist k (reduction_fuel self n k) st s) s'.
Proof.
  intros Hinv Hs Hset s' Hs'.
  pose proof (reduce_column_fuel_reduced p (table st) s Hinv Hs) as Hred.
  unfold reduction_step_plain, settle, settled. unfold reduced in Hred.
  destruct (pivot self n dist k _) as [t|]; simpl;
    (apply elem_of_app in Hs' as [Hs'|Hs']; [|apply list_elem_of_singleton in Hs'; subst s']).
  - destruct (Hset s' Hs') as [(t' & r & Ht')|Hp]; [left|right].
    + exists t', r. rewrite lookup_insert_ne; [done|congruence].
    + unfold emit. destruct (vlt _ _); [apply elem_of_app; by left|done].
  - left. eexists _, _. apply lookup_insert_eq.
  - destruct (Hset s' Hs') as [?|Hp]; [by left|right; apply elem_of_app; by left].
  - right. apply elem_of_app. right. by left.
Qed.

(** *** The whole dimension *)

Lemma before_head p s l :
  StronglySorted (processed_before self n dist k) (p ++ s :: l) ->
  forall s', s' ∈ p -> processed_before self n dist k s' s.
Proof. intros Hsort s' Hs'. eapply (StronglySorted_app_1_elem_of _ p (s :: l)); [done|done|by left]. Qed.

(** Induction over the plain reduction of a list of columns processed
    in order: a property of the processed columns and the state that
    every step keeps, under the table invariant, holds at the end. *)
Lemma fold_plain_ind (I : list nat -> red_state -> Prop) l fuel st p :
  (forall st p s, table_inv self n dist k p (table st) -> I p st ->
     (forall s', s' ∈ p -> processed_before self n dist k s' s) -> s < choose n (S k) ->
     I (p ++ [s]) (reduction_step_plain self n dist k fuel st s)) ->
  table_inv self n dist k p (table st) -> I p st ->
  StronglySorted (processed_before self n dist k) (p ++ l) ->
  (forall s, s ∈ l -> s < choose n (S k)) ->
  I (p ++ l) (fold_left (reduction_step_plain self n dist k fuel) l st).
Proof.
  intros Hstep. revert st p. induction l as [|s l IH]; intros st p Hinv HI Hsort Hl; simpl;
    [by rewrite app_nil_r|].
  pose proof (before_head p s l Hsort) as Hb.
  assert (Hs : s < choose n (S k)) by (apply Hl; by left).
  replace (p ++ s :: l) with ((p ++ [s]) ++ l) in * by by rewrite <- app_assoc.
  apply IH; [by apply table_inv_step|by apply Hstep|done|].
  intros x Hx. apply Hl. by right.
Qed.

Lemma fold_plain_inv l fuel st p :
  table_inv self n dist k p (table st) ->
  StronglySorted (processed_before self n dist k) (p ++ l) ->
  (forall s, s ∈ l -> s < choose n (S k)) ->
  table_inv self n dist k (p ++ l) (table (fold_left (reduction_step_plain self n dist k fuel) l st)).
Proof.
  intros Hinv. apply (fold_plain_ind (fun p st => table_inv self n dist k p (table st))); [|done|done].
  intros st' p' s' Hi _ Hb Hs. by apply table_inv_step.
Qed.

Lemma fold_steps_eq l fuel st p :
  table_inv self n dist k p (table st) ->
  StronglySorted (processed_before self n dist k) (p ++ l) ->
  (forall s, s ∈ l -> s < choose n (S k)) ->
  fold_left (reduction_step self n dist k (S fuel)) l st =
  fold_left (reduction_step_plain self n dist k (S fuel)) l st.
Proof.
  revert st p. induction l as [|s l IH]; intros st p Hinv Hsort Hl; simpl; [done|].
  pose proof (before_head p s l Hsort) as Hb.
  rewrite (reduction_step_eq fuel st p s Hinv Hb).
  replace (p ++ s :: l) with ((p ++ [s]) ++ l) in * by by rewrite <- app_assoc.
  apply (IH _ (p ++ [s])); [apply table_inv_step; [done|done|apply Hl; by left]|done|].
  intros x Hx. apply Hl. by right.
Qed.

(** Columns in filtration order are processed in reverse. *)
Lemma columns_order columns :
  StronglySorted filt_le columns -> NoDup (map snd columns) ->
  (forall d s, (d, s) ∈ columns -> d = compute_diameter self n dist k s) ->
  StronglySorted (processed_before self n dist k) (map snd (rev columns)).
Proof.
  induction columns as [|[d s] cs IH]; intros Hsort Hnd Hkey; simpl; [constructor|].
  apply StronglySorted_cons in Hsort as [Hall Hsort]. simpl in Hnd. apply NoDup_cons in Hnd as [Hs Hnd].
  rewrite map_app. apply StronglySorted_app_2.
  - intros x1 x2 Hx1 Hx2. simpl in Hx2. apply list_elem_of_singleton in Hx2 as ->.
    apply list_elem_of_fmap in Hx1 as ([d' s'] & -> & Hin).
    rewrite elem_of_rev in Hin. simpl. split.
    + intros ->. apply Hs. apply list_elem_of_fmap. by exists (d', s).
    + rewrite Forall_forall in Hall. specialize (Hall _ Hin).
      unfold key. rewrite <- (Hkey d s), <- (Hkey d' s'); [done|by right|by left].
  - apply IH; [done|done|]. intros. apply Hkey. by right.
  - repeat constructor.
Qed.

Lemma columns_ok_fold columns :
  columns_ok self n dist k columns ->
  StronglySorted (processed_before self n dist k) ([] ++ map snd (rev columns)) /\
  forall s, s ∈ map snd (rev columns) -> s < choose n (S k).
Proof.
  intros (Hsort & Hnd & Hc). split; [apply columns_order; [done|done|apply Hc]|].
  intros s ([d s'] & -> & Hin)%list_elem_of_fmap.
  rewrite elem_of_rev in Hin. by apply (Hc d).
Qed.

Lemma table_inv_empty : table_inv self n dist k [] ∅.
Proof. intros t s r. by rewrite lookup_empty. Qed.

Lemma reduce_dim_inv columns :
  columns_ok self n dist k columns ->
  table_inv self n dist k (map snd (rev columns)) (table (reduce_dim self n dist k columns)).
Proof.
  intros Hok. destruct (columns_ok_fold columns Hok) as [Hsort Hl].
  unfold reduce_dim. rewrite reduction_fuel_choose, (fold_steps_eq _ _ _ []);
    [|apply table_inv_empty|done|done].
  apply (fold_plain_inv _ _ (mkRedState ∅ []) [] table_inv_empty Hsort Hl).
Qed.

End Reduction.
End Lemmas.

(** ** Properties of the reduction *)

Section Properties.
Context `{ValueOrderLaws V} `{ValueOfDouble V}.

(** [C12] The reduction loop terminates within its fuel: for a dimension
    [1 <= k <= MaxDim], a valid [k]-simplex [s] and any table of reduced
    columns satisfying the table invariant, [reduce_column] run with
    [reduction_fuel] (one more than the number of [(k+1)]-simplices) on
    the coboundary of [s] returns a reduced cochain: zero, or with a pivot
    that no reduced column has. *)
Theorem reduce_column_terminates self n (dist : nat -> nat -> V) k p tbl s :
  1 <= k <= max_dim self ->
  table_inv self n dist k p tbl -> s < choose n (S k) ->
  reduced self n dist k tbl
    (reduce_column self n dist (reduction_fuel self n k) k tbl (coboundary self n dist k s)).
Proof.
  intros Hk. apply (reduce_column_fuel_reduced self n dist k Hk p).
Qed.

(** Apparent pairs are a sound shortcut in one dimension: for
    [1 <= k <= MaxDim] and columns given in filtration order (no index
    twice, each a [k]-simplex with its diameter), the reduction that
    emits apparent pairs without reducing them ends in the same state
    (pivot table and pairs) as the plain reduction of every column. *)
Lemma reduce_dim_eq self n (dist : nat -> nat -> V) k columns :
  1 <= k <= max_dim self -> columns_ok self n dist k columns ->
  reduce_dim self n dist k columns = reduce_dim_plain self n dist k columns.
Proof.
  intros Hk Hok. destruct (columns_ok_fold _ _ _ _ _ Hok) as [Hsort Hl].
  unfold reduce_dim, reduce_dim_plain. rewrite reduction_fuel_choose by lia.
  by apply (fold_steps_eq self n dist k Hk _ _ _ []); [apply table_inv_empty| |].
Qed.

(** [C8] No column is lost: for a dimension [1 <= k <= MaxDim] and its
    columns in filtration order (no index twice, each a [k]-simplex with
    its diameter), every column is eventually answered by the reduction:
    at the end it owns a pivot of the table or its essential pair
    [(diam s, ∞)] has been emitted. *)
Theorem reduce_dim_settles self n (dist : nat -> nat -> V) k columns :
  1 <= k <= max_dim self -> columns_ok self n dist k columns ->
  forall s, s ∈ map snd columns -> settled self n dist k (reduce_dim self n dist k columns) s.
Proof.
  intros Hk Hok s Hs. destruct (columns_ok_fold self n dist k columns Hok) as [Hsort Hl].
  rewrite (reduce_dim_eq self n dist k columns Hk Hok). unfold reduce_dim_plain.
  apply (fold_plain_ind self n dist k Hk (fun p st => forall s', s' ∈ p -> settled self n dist k st s')
           _ _ (mkRedState ∅ []) []); [| |by intros ? ?%not_elem_of_nil|done|done|].
  - intros st p s' Hi Hset _ Hs'. by apply (settled_step self n dist k Hk st p s').
  - apply table_inv_empty.
  - by rewrite app_nil_l, map_rev, elem_of_rev.
Qed.
End Properties.

(** *** Witnesses: the unit square of scenario 1 (threshold 2.0) *)

Lemma reduce_column_terminates_witness :
  reduced scenario1_config 4 (cloud_dist unit_square) 1 ∅
    (reduce_column scenario1_config 4 (cloud_dist unit_square)
       (reduction_fuel scenario1_config 4 1) 1 ∅
       (coboundary scenario1_config 4 (cloud_dist unit_square) 1 5)).
Proof.
  apply (reduce_column_terminates scenario1_config 4 (cloud_dist unit_square) 1 [] ∅ 5).
  - vm_compute. lia.
  - apply table_inv_empty.
  - vm_compute. lia.
Defined.

Lemma reduce_dim_settles_witness :
  settled scenario1_config 4 (cloud_dist unit_square) 1
    (reduce_dim scenario1_config 4 (cloud_dist unit_square) 1
       (enumerate_simplices scenario1_config 4 (cloud_dist unit_square) 1)) 5.
Proof.
  apply (reduce_dim_settles scenario1_config 4 (cloud_dist unit_square) 1
           (enumerate_simplices scenario1_config 4 (cloud_dist unit_square) 1)).
  - vm_compute. lia.
  - apply columns_ok_enumerate. vm_compute. lia.
  - apply list_elem_of_In. vm_compute. repeat (first [left; reflexivity|right]).
Defined.

(** The literal reading of the apparent pairs of section 3 is not a sound
    shortcut: on the unit square at threshold 2.0, taking the edges of
    the filtration as the columns of dimension 1, emitting [(s, t)]
    whenever [s] is the oldest facet of the oldest cofacet [t] of [s]
    gives other pairs than the reduction. *)
Remark apparent_min_facet_differs :
  let d := cloud_dist unit_square in
  let cs := map snd (rev (enumerate_simplices scenario1_config 4 d 1)) in
  pairs (fold_left (fun st s =>
           match apparent_cofacet_min scenario1_config 4 d 1 s with
           | Some _ => settle scenario1_config 4 d 1 s (coboundary scenario1_config 4 d 1 s) st
           | None => reduction_step_plain scenario1_config 4 d 1 (reduction_fuel scenario1_config 4 1) st s
           end) cs (mkRedState ∅ [])) <>
  pairs (reduce_dim_plain scenario1_config 4 d 1 (enumerate_simplices scenario1_config 4 d 1)).
Proof. vm_compute. discriminate. Qed.

(** Processing the columns in increasing filtration order, as section 4.5
    reads, gives other pairs on the unit square at threshold 2.0. *)
Remark increasing_order_differs :
  let d := cloud_dist unit_square in
  pairs (fold_left (reduction_step_plain scenario1_config 4 d 1 (reduction_fuel scenario1_config 4 1))
           (map snd (enumerate_simplices scenario1_config 4 d 1)) (mkRedState ∅ [])) <>
  pairs (reduce_dim_plain scenario1_config 4 d 1 (enumerate_simplices scenario1_config 4 d 1)).
Proof. vm_compute. discriminate. Qed.

End Cohomology.
