(* ===== verification/Vtk.v ===== *)
(** * The VTK environment of the TTK filters

    A small model of the parts of VTK that [ttkPackageMergeTrees] calls.
    VTK is a library the repository only uses, so nothing here is a
    translation of repository code; it states the library behaviour the
    filter's theorems rely on:

    - data object types with their class hierarchy, [IsA] and
      [SafeDownCast] (a failed cast yields a null pointer, [None]);
    - data objects, the blocks of a [vtkMultiBlockDataSet] and
      [GetBlock] (out of range: null);
    - [ShallowCopy]: copying from null only warns and leaves the
      destination as it is (VTK's [vtkDataObject::ShallowCopy]);
    - [vtkInformation] as a map from key names to type names;
    - [NewDataObject]: instantiating a type by name, which fails (null)
      for the abstract types [vtkDataObject], [vtkDataSet],
      [vtkPointSet] and [vtkCompositeDataSet];
    - the input ports as lists of connections ([vtkInputs]) and
      [GetInputData];
    - the data arrays of a data object by field association, the array
      selections of [SetInputArrayToProcess] and
      [GetInputArrayToProcess], which reads point or cell data only from
      a [vtkDataSet];
    - [vtkAlgorithm]: the interface (a type class) a filter offers the
      pipeline, and [Update], the demand-driven executive that calls it,
      in the order of its passes: the data-object pass creates the
      output objects from the declared type names (TTK's
      [RequestDataObject]); the information pass first checks the
      number of connections of every input port against the port's
      [INPUT_IS_OPTIONAL] and [INPUT_IS_REPEATABLE] flags, then the type
      of every connection against [INPUT_REQUIRED_DATA_TYPE]; the data
      pass runs [RequestData].
*)

From S2P Require Import Prelude.
From stdpp Require Import strings.
From Stdlib Require Import String.

Module Vtk.

Inductive vtkType :=
| vtkDataObjectT | vtkDataSetT | vtkPointSetT | vtkUnstructuredGridT
| vtkPolyDataT | vtkImageDataT | vtkCompositeDataSetT | vtkMultiBlockDataSetT
| vtkTableT.

#[export] Instance vtkType_eq_dec : EqDecision vtkType.
Proof. solve_decision. Defined.

Definition type_name (t : vtkType) : string :=
  match t with
  | vtkDataObjectT => "vtkDataObject"
  | vtkDataSetT => "vtkDataSet"
  | vtkPointSetT => "vtkPointSet"
  | vtkUnstructuredGridT => "vtkUnstructuredGrid"
  | vtkPolyDataT => "vtkPolyData"
  | vtkImageDataT => "vtkImageData"
  | vtkCompositeDataSetT => "vtkCompositeDataSet"
  | vtkMultiBlockDataSetT => "vtkMultiBlockDataSet"
  | vtkTableT => "vtkTable"
  end.

Definition all_types : list vtkType :=
  [vtkDataObjectT; vtkDataSetT; vtkPointSetT; vtkUnstructuredGridT; vtkPolyDataT;
   vtkImageDataT; vtkCompositeDataSetT; vtkMultiBlockDataSetT; vtkTableT].

Definition type_of_name (s : string) : option vtkType :=
  List.find (fun t => String.eqb (type_name t) s) all_types.

(** Direct superclass. *)
Definition superclass (t : vtkType) : option vtkType :=
  match t with
  | vtkDataObjectT => None
  | vtkDataSetT | vtkCompositeDataSetT | vtkTableT => Some vtkDataObjectT
  | vtkPointSetT | vtkImageDataT => Some vtkDataSetT
  | vtkUnstructuredGridT | vtkPolyDataT => Some vtkPointSetT
  | vtkMultiBlockDataSetT => Some vtkCompositeDataSetT
  end.

(** [IsA t target]: [t] is [target] or derives from it (the hierarchy
    has depth 4, the fuel). *)
Fixpoint IsA_fuel (fuel : nat) (t target : vtkType) : bool :=
  if decide (t = target) then true
  else match fuel, superclass t with
       | S fuel', Some p => IsA_fuel fuel' p target
       | _, _ => false
       end.

Definition IsA (t target : vtkType) : bool := IsA_fuel 4 t target.

Definition is_abstract (t : vtkType) : bool :=
  match t with
  | vtkDataObjectT | vtkDataSetT | vtkPointSetT | vtkCompositeDataSetT => true
  | _ => false
  end.

(** A data object: its concrete type, its content (opaque), for a
    multi-block data set its blocks ([None] is a null block), and its
    data arrays, each with the field association it belongs to
    ([FIELD_ASSOCIATION_POINTS] point data, [_CELLS] cell data, [_NONE]
    field data). *)
Inductive vtkDataObject := mkDataObject {
  obj_type : vtkType;
  obj_content : nat;
  obj_blocks : list (option vtkDataObject);
  obj_arrays : list (Z * string)
}.

(** [vtkDataObject::FieldAssociations]. *)
Definition FIELD_ASSOCIATION_POINTS : Z := 0.
Definition FIELD_ASSOCIATION_CELLS : Z := 1.
Definition FIELD_ASSOCIATION_NONE : Z := 2.
Definition FIELD_ASSOCIATION_POINTS_THEN_CELLS : Z := 3.

(** An array, by its name. *)
Definition vtkDataArray := string.

Definition SafeDownCast (target : vtkType) (o : option vtkDataObject) : option vtkDataObject :=
  match o with
  | Some d => if IsA (obj_type d) target then Some d else None
  | None => None
  end.

Definition GetBlock (d : vtkDataObject) (i : nat) : option vtkDataObject :=
  default None (obj_blocks d !! i).

(** [dst->ShallowCopy(src)]: from null, a warning and no change; from an
    object of the destination's type (or a subtype), the destination
    shares the source's content and blocks. *)
Definition ShallowCopy (dst : vtkDataObject) (src : option vtkDataObject) : vtkDataObject :=
  match src with
  | None => dst
  | Some s =>
      if IsA (obj_type s) (obj_type dst)
      then mkDataObject (obj_type dst) (obj_content s) (obj_blocks s) (obj_arrays s)
      else dst
  end.

(** An empty object of the named type; null for an abstract or unknown
    type name. *)
Definition NewDataObject (name : string) : option vtkDataObject :=
  match type_of_name name with
  | Some t => if is_abstract t then None else Some (mkDataObject t 0 [] [])
  | None => None
  end.

Definition vtkInformation := gmap string string.
#[export] Typeclasses Transparent vtkInformation.

Definition INPUT_REQUIRED_DATA_TYPE : string := "INPUT_REQUIRED_DATA_TYPE".
Definition INPUT_IS_OPTIONAL : string := "INPUT_IS_OPTIONAL".
Definition INPUT_IS_REPEATABLE : string := "INPUT_IS_REPEATABLE".
Definition DATA_TYPE_NAME : string := "DATA_TYPE_NAME".

(** An integer flag of the port information, set when present and
    non-zero ([info->Get(key)]). *)
Definition info_flag (info : vtkInformation) (key : string) : bool :=
  match info !! key with Some v => negb (String.eqb v "0") | None => false end.

(** The input ports: for each port, the data objects of its
    connections, in connection order. *)
Definition vtkInputs := list (list vtkDataObject).

(** [vtkDataObject::GetData(inputVector[port], conn)]: the data object
    of a connection, null when there is none. *)
Definition GetInputData (inputs : vtkInputs) (port conn : nat) : option vtkDataObject :=
  default [] (inputs !! port) !! conn.

(** [vtkAlgorithm::SetInputArrayToProcess(idx, port, connection,
    fieldAssociation, name)]: one entry of [INPUT_ARRAYS_TO_PROCESS]. *)
Record array_selection := mkArraySelection {
  sel_port : nat;
  sel_connection : nat;
  sel_association : Z;
  sel_name : string
}.

(** The array of a data object with a given association and name. *)
Definition GetArray (d : vtkDataObject) (assoc : Z) (name : string) : option vtkDataArray :=
  if bool_decide ((assoc, name) ∈ obj_arrays d) then Some name else None.

(** [vtkAlgorithm::GetInputArrayToProcess(idx, inputVector)]: the array
    selected under [idx], looked up on the data object of the selected
    connection: field data for [FIELD_ASSOCIATION_NONE]; otherwise the
    object must be a [vtkDataSet] ("Attempt to get point or cell data
    from a data object", null), and the array is taken from its point
    data, its cell data, or its point data then its cell data.  Null
    when no array is selected under [idx], when there is no such
    connection, or for the associations of tables and graphs, which
    the model leaves out. *)
Definition GetInputArrayToProcess (arrays : gmap nat array_selection) (idx : nat)
    (inputs : vtkInputs) : option vtkDataArray :=
  match arrays !! idx with
  | None => None
  | Some sel =>
      match GetInputData inputs (sel_port sel) (sel_connection sel) with
      | None => None
      | Some input =>
          let assoc := sel_association sel in
          let name := sel_name sel in
          if (assoc =? FIELD_ASSOCIATION_NONE)%Z then GetArray input FIELD_ASSOCIATION_NONE name
          else if negb (IsA (obj_type input) vtkDataSetT) then None
          else if (assoc =? FIELD_ASSOCIATION_POINTS)%Z then GetArray input FIELD_ASSOCIATION_POINTS name
          else if (assoc =? FIELD_ASSOCIATION_CELLS)%Z then GetArray input FIELD_ASSOCIATION_CELLS name
          else if (assoc =? FIELD_ASSOCIATION_POINTS_THEN_CELLS)%Z then
            match GetArray input FIELD_ASSOCIATION_POINTS name with
            | Some a => Some a
            | None => GetArray input FIELD_ASSOCIATION_CELLS name
            end
          else None
      end
  end.

(** What [RequestData] does: return a status code with the output
    objects as they are afterwards and the error messages printed, or
    dereference a null pointer. *)
Inductive request_result :=
| RDReturn (code : Z) (outputs : list (option vtkDataObject)) (errors : list string)
| RDNullDereference.

(** The interface a filter offers the pipeline. *)
Class vtkAlgorithm (A : Type) := {
  GetNumberOfInputPorts : A -> nat;
  GetNumberOfOutputPorts : A -> nat;
  FillInputPortInformation_m : A -> nat -> vtkInformation -> Z * vtkInformation;
  FillOutputPortInformation_m : A -> nat -> vtkInformation -> Z * vtkInformation;
  RequestData_m : A -> vtkInputs -> list (option vtkDataObject) -> request_result
}.

(** What a pipeline update gives back. *)
Inductive update_result :=
| UpdateOk (outputs : list (option vtkDataObject))
| InputCountError (port : nat)
| InputPortError (port : nat)
| OutputPortError (port : nat)
| DataObjectCreationError (port : nat) (type_name : string)
| RequestDataFailed (errors : list string)
| Crash.

Section Executive.
Context `{vtkAlgorithm A}.

  (** [vtkDemandDrivenPipeline::InputCountIsValid] for one port: a port
      that is not optional has a connection, one that is not repeatable
      has at most one (a port whose information the algorithm refuses to
      fill fails). *)
Definition check_input_count (alg : A) (inputs : vtkInputs) (port : nat) : bool :=
    match FillInputPortInformation_m alg port ∅ with
    | (0%Z, _) => false
    | (_, info) =>
        let c := List.length (default [] (inputs !! port)) in
        (info_flag info INPUT_IS_OPTIONAL || negb (c =? 0)) &&
        (info_flag info INPUT_IS_REPEATABLE || (c <=? 1))
    end.

  (** [vtkDemandDrivenPipeline::InputTypeIsValid] for one port: the data
      object of every connection is of the required type, if the port
      names one. *)
Definition check_input_type (alg : A) (inputs : vtkInputs) (port : nat) : bool :=
    match FillInputPortInformation_m alg port ∅ with
    | (0%Z, _) => false
    | (_, info) =>
        match info !! INPUT_REQUIRED_DATA_TYPE with
        | Some name =>
            match type_of_name name with
            | Some t => forallb (fun d => IsA (obj_type d) t) (default [] (inputs !! port))
            | None => false
            end
        | None => true
        end
    end.

  (** [RequestDataObject]: one new output object per output port, of the
      type named by the port information. *)
Fixpoint create_outputs (alg : A) (ports : list nat)
      : sum update_result (list (option vtkDataObject)) :=
    match ports with
    | [] => inr []
    | p :: ps =>
        match FillOutputPortInformation_m alg p ∅ with
        | (0%Z, _) => inl (OutputPortError p)
        | (_, info) =>
            let name := default "" (info !! DATA_TYPE_NAME) in
            match NewDataObject name with
            | None => inl (DataObjectCreationError p name)
            | Some o =>
                match create_outputs alg ps with
                | inl e => inl e
                | inr os => inr (Some o :: os)
                end
            end
        end
    end.

(** [vtkStreamingDemandDrivenPipeline::Update], pass by pass as the
    executive runs them, the first failure ending the update:
    [REQUEST_DATA_OBJECT] first ([ttkAlgorithm::RequestDataObject]
    creates the output objects from the declared type names), then
    [REQUEST_INFORMATION], whose first step checks the inputs
    ([InputCountIsValid], then [InputTypeIsValid]), then [REQUEST_DATA]
    ([RequestData]). *)
Definition Update (alg : A) (inputs : vtkInputs) : update_result :=
  match create_outputs alg (seq 0 (GetNumberOfOutputPorts alg)) with
  | inl e => e
  | inr outs =>
      let ports := seq 0 (GetNumberOfInputPorts alg) in
      match List.find (fun p => negb (check_input_count alg inputs p)) ports with
      | Some p => InputCountError p
      | None =>
          match List.find (fun p => negb (check_input_type alg inputs p)) ports with
          | Some p => InputPortError p
          | None =>
              match RequestData_m alg inputs outs with
              | RDReturn 0 _ errs => RequestDataFailed errs
              | RDReturn _ outs' _ => UpdateOk outs'
              | RDNullDereference => Crash
              end
          end
      end
  end.
End Executive.

End Vtk.
