(* ===== verification/PackageMergeTrees.v ===== *)
(** * The PackageMergeTrees module and its VTK filter

    Sources: [src/core/base/packageMergeTrees/PackageMergeTrees.h] (class
    [ttk::PackageMergeTrees]) and
    [src/core/vtk/ttkPackageMergeTrees/ttkPackageMergeTrees.{h,cpp}]
    (class [ttkPackageMergeTrees], a [ttkAlgorithm]).

    - [PackageMergeTrees]: the base class has no member and no
      operation (its averaging method is commented out), an empty record.
    - [ttkPackageMergeTrees]: the filter's state is the port counts of
      its [vtkAlgorithm] part; [ttkPackageMergeTrees_New] is the
      constructor (one input port, three output ports).
    - [FillInputPortInformation], [FillOutputPortInformation]: the port
      declarations (input 0: [vtkMultiBlockDataSet]; outputs 0 and 1:
      [vtkUnstructuredGrid]; output 2: [vtkDataSet]).
    - [RequestData] with its steps [GetInputDataSet], [GetInputArray]
      (the array selected under index 0, looked up by VTK's
      [GetInputArrayToProcess] from the filter's array selections) and
      [CopyBlocks]: blocks 0, 1, 2 of the input are shallow-copied into
      outputs 0, 1, 2.
      Lines 156-158 of the .cpp lack their semicolons; the model reads
      them as the three statements they are meant to be.

    The instance [ttkPackageMergeTrees_vtkAlgorithm] plugs the filter into
    the executive of [Vtk].  The theorems cover every path of
    [RequestData] exactly, what it copies and what it skips without a
    word, the types of the outputs it leaves against the declared ones,
    that it reads one merge tree (the port is neither repeatable nor
    optional), and that it succeeds only with a field-data array, so
    that the point-data selection the documentation prescribes always
    fails ([RequestData_point_array_fails]).  A pipeline update never
    gets that far: the executive creates the outputs first and stops at
    output 2, whose declared type is abstract ([Update_never_runs]).
*)

From S2P Require Import Prelude Vtk.
From stdpp Require Import strings.
From Stdlib Require Import String.

Module PackageMergeTrees.
Import Vtk.Vtk.

(** [class PackageMergeTrees : virtual public Debug] with no member. *)
Record PackageMergeTrees := mkPackageMergeTrees { }.

(** [class ttkPackageMergeTrees : public ttkAlgorithm, protected
    ttk::PackageMergeTrees]: the base-class part, and the port counts and
    array selections ([INPUT_ARRAYS_TO_PROCESS], by index) of the
    algorithm part. *)
Record ttkPackageMergeTrees := mk_ttkPackageMergeTrees {
  base : PackageMergeTrees;
  NumberOfInputPorts : nat;
  NumberOfOutputPorts : nat;
  InputArraysToProcess : gmap nat array_selection
}.

(** A freshly allocated [vtkAlgorithm] has one input and one output port
    and no array selected. *)
Definition default_algorithm : ttkPackageMergeTrees :=
  mk_ttkPackageMergeTrees mkPackageMergeTrees 1 1 ∅.

Definition SetNumberOfInputPorts (self : ttkPackageMergeTrees) (n : nat) : ttkPackageMergeTrees :=
  mk_ttkPackageMergeTrees (base self) n (NumberOfOutputPorts self) (InputArraysToProcess self).

Definition SetNumberOfOutputPorts (self : ttkPackageMergeTrees) (n : nat) : ttkPackageMergeTrees :=
  mk_ttkPackageMergeTrees (base self) (NumberOfInputPorts self) n (InputArraysToProcess self).

(** [SetInputArrayToProcess(idx, port, connection, fieldAssociation,
    name)], called by the user or by ParaView before an update. *)
Definition SetInputArrayToProcess (self : ttkPackageMergeTrees) (idx port connection : nat)
    (fieldAssociation : Z) (name : string) : ttkPackageMergeTrees :=
  mk_ttkPackageMergeTrees (base self) (NumberOfInputPorts self) (NumberOfOutputPorts self)
    (<[idx := mkArraySelection port connection fieldAssociation name]> (InputArraysToProcess self)).

(** [vtkStandardNewMacro] and the constructor. *)
Definition ttkPackageMergeTrees_New : ttkPackageMergeTrees :=
  let self := default_algorithm in
  let self := SetNumberOfInputPorts self 1 in
  SetNumberOfOutputPorts self 3.

Definition FillInputPortInformation (self : ttkPackageMergeTrees) (port : nat)
    (info : vtkInformation) : Z * vtkInformation :=
  if port =? 0
  then (1%Z, <[INPUT_REQUIRED_DATA_TYPE := "vtkMultiBlockDataSet"]> info)
  else (0%Z, info).

Definition FillOutputPortInformation (self : ttkPackageMergeTrees) (port : nat)
    (info : vtkInformation) : Z * vtkInformation :=
  if (port =? 0) || (port =? 1)
  then (1%Z, <[DATA_TYPE_NAME := "vtkUnstructuredGrid"]> info)
  else if port =? 2
  then (1%Z, <[DATA_TYPE_NAME := "vtkDataSet"]> info)
  else (0%Z, info).

(** [vtkMultiBlockDataSet::GetData(inputVector[0])]: the data object of
    connection 0 of input port 0, if it is a multi-block data set. *)
Definition GetInputDataSet (inputs : vtkInputs) : option vtkDataObject :=
  SafeDownCast vtkMultiBlockDataSetT (GetInputData inputs 0 0).

(** The three output objects, each downcast to its declared type, then
    [outputX->ShallowCopy(SafeDownCast(inputDataSet->GetBlock(i)))];
    [None] when one of the output pointers is null (it is dereferenced). *)
Definition CopyBlocks (inputDataSet : vtkDataObject) (outputs : list (option vtkDataObject))
    : option (list (option vtkDataObject)) :=
  let outputSkeletonNodes := SafeDownCast vtkUnstructuredGridT (default None (outputs !! 0)) in
  let outputSkeletonArcs := SafeDownCast vtkUnstructuredGridT (default None (outputs !! 1)) in
  let outputSegmentation := SafeDownCast vtkDataSetT (default None (outputs !! 2)) in
  match outputSkeletonNodes, outputSkeletonArcs, outputSegmentation with
  | Some nodes, Some arcs, Some seg =>
      let nodes' := ShallowCopy nodes (SafeDownCast vtkUnstructuredGridT (GetBlock inputDataSet 0)) in
      let arcs' := ShallowCopy arcs (SafeDownCast vtkUnstructuredGridT (GetBlock inputDataSet 1)) in
      let seg' := ShallowCopy seg (SafeDownCast vtkDataSetT (GetBlock inputDataSet 2)) in
      Some (<[0 := Some nodes']> (<[1 := Some arcs']> (<[2 := Some seg']> outputs)))
  | _, _, _ => None
  end.

(** [this->GetInputArrayToProcess(0, inputVector)]: the array selected
    under index 0. *)
Definition GetInputArray (self : ttkPackageMergeTrees) (inputs : vtkInputs) : option vtkDataArray :=
  GetInputArrayToProcess (InputArraysToProcess self) 0 inputs.

Definition RequestData (self : ttkPackageMergeTrees) (inputs : vtkInputs)
    (outputs : list (option vtkDataObject)) : request_result :=
  match GetInputDataSet inputs with
  | None => RDReturn 0 outputs []
  | Some inputDataSet =>
      let inputArray := GetInputArray self inputs in
      match inputArray with
      | None => RDReturn 0 outputs ["Unable to retrieve input array."]
      | Some _ =>
          match CopyBlocks inputDataSet outputs with
          | Some outputs' => RDReturn 1 outputs' []
          | None => RDNullDereference
          end
      end
  end.

#[export] Instance ttkPackageMergeTrees_vtkAlgorithm : vtkAlgorithm ttkPackageMergeTrees := {
  GetNumberOfInputPorts := NumberOfInputPorts;
  GetNumberOfOutputPorts := NumberOfOutputPorts;
  FillInputPortInformation_m := FillInputPortInformation;
  FillOutputPortInformation_m := FillOutputPortInformation;
  RequestData_m := RequestData
}.

(** ** Properties *)

Lemma IsA_trans a b c : IsA a b = true -> IsA b c = true -> IsA a c = true.
Proof. destruct a, b, c; vm_compute; congruence. Qed.

Lemma IsA_refl a : IsA a a = true.
Proof. destruct a; reflexivity. Qed.


Lemma ShallowCopy_type d s : obj_type (ShallowCopy d s) = obj_type d.
Proof. destruct s as [s|]; simpl; [destruct (IsA _ _)|]; done. Qed.

Lemma SafeDownCast_Some t o d : SafeDownCast t o = Some d -> o = Some d /\ IsA (obj_type d) t = true.
Proof. destruct o as [o|]; simpl; [|done]. destruct (IsA _ _) eqn:E; [|done]. by intros [= <-]. Qed.

(** The executive's checks of input port 0: one connection, whose data
    object is a multi-block data set. *)
Lemma check_input_count_New inputs :
  check_input_count ttkPackageMergeTrees_New inputs 0 =
  (List.length (default [] (inputs !! 0)) =? 1).
Proof.
  unfold check_input_count. cbn [FillInputPortInformation_m ttkPackageMergeTrees_vtkAlgorithm
    FillInputPortInformation Nat.eqb].
  change (info_flag (<[INPUT_REQUIRED_DATA_TYPE := "vtkMultiBlockDataSet"]> (∅ : vtkInformation))
            INPUT_IS_OPTIONAL) with false.
  change (info_flag (<[INPUT_REQUIRED_DATA_TYPE := "vtkMultiBlockDataSet"]> (∅ : vtkInformation))
            INPUT_IS_REPEATABLE) with false.
  by destruct (List.length (default [] (inputs !! 0))) as [|[|c]].
Qed.

Lemma check_input_type_New inputs :
  check_input_type ttkPackageMergeTrees_New inputs 0 =
  forallb (fun d => IsA (obj_type d) vtkMultiBlockDataSetT) (default [] (inputs !! 0)).
Proof.
  unfold check_input_type. cbn [FillInputPortInformation_m ttkPackageMergeTrees_vtkAlgorithm
    FillInputPortInformation Nat.eqb].
  change (<[INPUT_REQUIRED_DATA_TYPE := "vtkMultiBlockDataSet"]> (∅ : vtkInformation)
            !! INPUT_REQUIRED_DATA_TYPE) with (Some "vtkMultiBlockDataSet"%string).
  by change (type_of_name "vtkMultiBlockDataSet") with (Some vtkMultiBlockDataSetT).
Qed.

(** A multi-block data set is not a [vtkDataSet]. *)
Lemma IsA_multiblock_not_dataset t :
  IsA t vtkMultiBlockDataSetT = true -> IsA t vtkDataSetT = false.
Proof. by destruct t. Qed.

Lemma GetInputDataSet_single mb :
  obj_type mb = vtkMultiBlockDataSetT -> GetInputDataSet [[mb]] = Some mb.
Proof. intros Hmb. unfold GetInputDataSet, GetInputData, SafeDownCast. simpl. by rewrite Hmb. Qed.

(** The success path of [CopyBlocks]: the three typed outputs, each
    replaced by its shallow copy. *)
Lemma CopyBlocks_Some mb outputs outs' :
  CopyBlocks mb outputs = Some outs' ->
  exists o0 o1 o2,
    outputs !! 0 = Some (Some o0) /\ outputs !! 1 = Some (Some o1) /\ outputs !! 2 = Some (Some o2) /\
    SafeDownCast vtkUnstructuredGridT (Some o0) = Some o0 /\
    SafeDownCast vtkUnstructuredGridT (Some o1) = Some o1 /\
    SafeDownCast vtkDataSetT (Some o2) = Some o2 /\
    outs' = <[0 := Some (ShallowCopy o0 (SafeDownCast vtkUnstructuredGridT (GetBlock mb 0)))]>
              (<[1 := Some (ShallowCopy o1 (SafeDownCast vtkUnstructuredGridT (GetBlock mb 1)))]>
                (<[2 := Some (ShallowCopy o2 (SafeDownCast vtkDataSetT (GetBlock mb 2)))]> outputs)).
Proof.
  unfold CopyBlocks.
  destruct (SafeDownCast vtkUnstructuredGridT (default None (outputs !! 0))) as [o0|] eqn:H0; [|done].
  destruct (SafeDownCast vtkUnstructuredGridT (default None (outputs !! 1))) as [o1|] eqn:H1; [|done].
  destruct (SafeDownCast vtkDataSetT (default None (outputs !! 2))) as [o2|] eqn:H2; [|done].
  intros [= <-]. exists o0, o1, o2.
  apply SafeDownCast_Some in H0 as [E0 T0], H1 as [E1 T1], H2 as [E2 T2].
  destruct (outputs !! 0) as [[]|], (outputs !! 1) as [[]|], (outputs !! 2) as [[]|];
    simplify_eq/=; unfold SafeDownCast; rewrite ?T0, ?T1, ?T2; naive_solver.
Qed.

(** [C4] Status of [RequestData] on every path.  It returns [0] or
    [1].  It returns [0] exactly when the input is not a
    [vtkMultiBlockDataSet] or no input array is found, and then leaves
    the outputs untouched; it prints an error exactly when the input is
    there and the array is missing.  It returns [1] only when all three
    outputs have their declared types; past both checks, an output of
    the wrong type (or null) is dereferenced. *)
Theorem RequestData_status self inputs outputs :
  match RequestData self inputs outputs with
  | RDReturn code outs errs =>
      (code = 0%Z \/ code = 1%Z) /\
      (code = 0%Z <-> GetInputDataSet inputs = None \/ GetInputArray self inputs = None) /\
      (code = 0%Z -> outs = outputs) /\
      (code = 1%Z ->
       is_Some (SafeDownCast vtkUnstructuredGridT (default None (outputs !! 0))) /\
       is_Some (SafeDownCast vtkUnstructuredGridT (default None (outputs !! 1))) /\
       is_Some (SafeDownCast vtkDataSetT (default None (outputs !! 2)))) /\
      (errs <> [] <-> is_Some (GetInputDataSet inputs) /\ GetInputArray self inputs = None)
  | RDNullDereference =>
      is_Some (GetInputDataSet inputs) /\ is_Some (GetInputArray self inputs) /\
      (SafeDownCast vtkUnstructuredGridT (default None (outputs !! 0)) = None \/
       SafeDownCast vtkUnstructuredGridT (default None (outputs !! 1)) = None \/
       SafeDownCast vtkDataSetT (default None (outputs !! 2)) = None)
  end.
Proof.
  unfold RequestData. destruct (GetInputDataSet inputs) as [mb|] eqn:Hin;
    [destruct (GetInputArray self inputs) as [a|]|]; [unfold CopyBlocks; repeat case_match| |];
    repeat split; try naive_solver.
Qed.

(** [C7] What [RequestData] computes: with a multi-block input whose
    blocks 0 and 1 are unstructured grids and whose block 2 is a data set
    of the third output's type, and outputs of the declared types, it
    returns [1] and each output [i] now shares the content of block [i]
    (keeping its own type). *)
Theorem RequestData_copies_blocks self mb o0 o1 o2 b0 b1 b2 :
  obj_type mb = vtkMultiBlockDataSetT ->
  GetBlock mb 0 = Some b0 -> GetBlock mb 1 = Some b1 -> GetBlock mb 2 = Some b2 ->
  obj_type b0 = vtkUnstructuredGridT -> obj_type b1 = vtkUnstructuredGridT ->
  obj_type o0 = vtkUnstructuredGridT -> obj_type o1 = vtkUnstructuredGridT ->
  IsA (obj_type o2) vtkDataSetT = true -> IsA (obj_type b2) (obj_type o2) = true ->
  is_Some (GetInputArray self [[mb]]) ->
  RequestData self [[mb]] [Some o0; Some o1; Some o2] =
  RDReturn 1
    [Some (mkDataObject vtkUnstructuredGridT (obj_content b0) (obj_blocks b0) (obj_arrays b0));
     Some (mkDataObject vtkUnstructuredGridT (obj_content b1) (obj_blocks b1) (obj_arrays b1));
     Some (mkDataObject (obj_type o2) (obj_content b2) (obj_blocks b2) (obj_arrays b2))] [].
Proof.
  intros Hmb H0 H1 H2 Ht0 Ht1 Ho0 Ho1 Ho2 Hb2 [a Ha].
  unfold RequestData. rewrite (GetInputDataSet_single mb Hmb), Ha. unfold CopyBlocks. rewrite H0, H1, H2.
  unfold SafeDownCast. cbn [default lookup list_lookup id].
  rewrite Ht0, Ht1, Ho0, Ho1, Ho2, (IsA_trans _ _ _ Hb2 Ho2).
  unfold ShallowCopy. do 3 (rewrite ?IsA_refl, ?Ht0, ?Ht1, ?Hb2, ?Ho0, ?Ho1; cbn -[IsA]). done.
Qed.


(** [C2] The filter never produces output through the pipeline.
    Output port 2 is declared with the abstract type [vtkDataSet], which
    [NewDataObject] cannot instantiate, and the executive creates the
    output objects (its data-object pass) before it checks the inputs or
    calls [RequestData].  So every update of a filter with the
    constructor's three output ports stops at the creation of output 2,
    whatever its array selections and its inputs. *)
Theorem Update_never_runs self inputs :
  NumberOfOutputPorts self = NumberOfOutputPorts ttkPackageMergeTrees_New ->
  Update self inputs = DataObjectCreationError 2 "vtkDataSet".
Proof.
  intros Hn. unfold Update. cbn [GetNumberOfOutputPorts ttkPackageMergeTrees_vtkAlgorithm].
  rewrite Hn. reflexivity.
Qed.

(** [C17] [RequestData] works slot by slot: for two successful runs on
    multi-block inputs [mb] and [mb'] with the same outputs, output [i]
    ([i < 3]) is the same whenever block [i] of [mb] and of [mb'] is the
    same, and an output slot past the third is never modified. *)
Theorem RequestData_slotwise self mb mb' outputs outs outs' i :
  RequestData self [[mb]] outputs = RDReturn 1 outs [] ->
  RequestData self [[mb']] outputs = RDReturn 1 outs' [] ->
  (i < 3 -> GetBlock mb i = GetBlock mb' i -> outs !! i = outs' !! i) /\
  (3 <= i -> outs !! i = outputs !! i).
Proof.
  unfold RequestData, GetInputDataSet, GetInputData. cbn [default lookup list_lookup id].
  destruct (SafeDownCast vtkMultiBlockDataSetT (Some mb)) as [x|] eqn:Hx; [|done].
  destruct (SafeDownCast vtkMultiBlockDataSetT (Some mb')) as [x'|] eqn:Hx'; [|done].
  apply SafeDownCast_Some in Hx as [[= <-] _], Hx' as [[= <-] _].
  destruct (GetInputArray self [[mb]]) as [a|]; [|done].
  destruct (GetInputArray self [[mb']]) as [a'|]; [|done].
  destruct (CopyBlocks mb outputs) as [o|] eqn:Hc; [|done].
  destruct (CopyBlocks mb' outputs) as [o'|] eqn:Hc'; [|done]. intros [= <-] [= <-].
  apply CopyBlocks_Some in Hc as (o0 & o1 & o2 & H0 & H1 & H2 & _ & _ & _ & ->).
  apply CopyBlocks_Some in Hc' as (p0 & p1 & p2 & G0 & G1 & G2 & _ & _ & _ & ->).
  rewrite H0 in G0; rewrite H1 in G1; rewrite H2 in G2. simplify_eq. split.
  - intros Hi Hb. assert (Hl : 2 < List.length outputs) by (by eapply lookup_lt_Some).
    rewrite !lookup_insert3 by done. destruct i as [|[|[|i]]]; [..|lia]; by rewrite Hb.
  - intros Hi. by rewrite !list_lookup_insert_ne by lia.
Qed.

(** [C11] The outputs of a successful [RequestData] have the types the
    filter declares: for every output port [p] the constructor creates,
    slot [p] holds an object whose type derives from the type named by
    [FillOutputPortInformation] for [p]. *)
Theorem RequestData_outputs_typed self inputs outputs outs' errs p :
  RequestData self inputs outputs = RDReturn 1 outs' errs ->
  p < NumberOfOutputPorts ttkPackageMergeTrees_New ->
  exists o info name t,
    outs' !! p = Some (Some o) /\
    FillOutputPortInformation self p ∅ = (1%Z, info) /\
    info !! DATA_TYPE_NAME = Some name /\ type_of_name name = Some t /\
    IsA (obj_type o) t = true.
Proof.
  unfold RequestData.
  destruct (GetInputDataSet inputs) as [mb|]; [|done].
  destruct (GetInputArray self inputs) as [a|]; [|done].
  destruct (CopyBlocks mb outputs) as [o|] eqn:Hc; [|done]. intros [= <- _] Hp.
  apply CopyBlocks_Some in Hc as (o0 & o1 & o2 & _ & _ & H2 & T0 & T1 & T2 & ->).
  apply SafeDownCast_Some in T0 as [_ T0], T1 as [_ T1], T2 as [_ T2].
  rewrite lookup_insert3 by (by eapply lookup_lt_Some).
  cbn in Hp. destruct p as [|[|[|p]]]; [..|lia]; eexists _, _, _, _;
    (split; [reflexivity|]); (split; [reflexivity|]);
    (split; [reflexivity|]); (split; [reflexivity|]); by rewrite ShallowCopy_type.
Qed.

(** [C6] With the array selection the filter's documentation fixes
    (index 0, port 0, connection 0, field association 0: point data; or
    any association other than field data), [RequestData] never succeeds
    on its input: the [vtkMultiBlockDataSet] it requires is not a
    [vtkDataSet], so [GetInputArrayToProcess] finds no point or cell
    data and returns null, and [RequestData] returns [0] with its error
    message, leaving the outputs untouched. *)
Theorem RequestData_point_array_fails self inputs outputs assoc name :
  InputArraysToProcess self !! 0 = Some (mkArraySelection 0 0 assoc name) ->
  assoc <> FIELD_ASSOCIATION_NONE ->
  is_Some (GetInputDataSet inputs) ->
  RequestData self inputs outputs = RDReturn 0 outputs ["Unable to retrieve input array."].
Proof.
  intros Hsel Hassoc [mb Hmb]. unfold RequestData. rewrite Hmb.
  unfold GetInputDataSet in Hmb. apply SafeDownCast_Some in Hmb as [Hd Hmt].
  unfold GetInputArray, GetInputArrayToProcess. rewrite Hsel. cbn [sel_port sel_connection
    sel_association sel_name]. rewrite Hd, (IsA_multiblock_not_dataset _ Hmt).
  by destruct (Z.eqb_spec assoc FIELD_ASSOCIATION_NONE).
Qed.

(** [C13] The first guard of [RequestData] ([if(!inputDataSet) return 0],
    lines 96-98) tests what the executive checks on input port 0 from
    [FillInputPortInformation], as the comment of line 95 says: the input
    passes the executive's count and type checks exactly when port 0 has
    one connection and [vtkMultiBlockDataSet::GetData] finds a
    multi-block data set on it, so no update that reaches [RequestData]
    takes that early return. *)
Theorem RequestData_input_guard inputs :
  check_input_count ttkPackageMergeTrees_New inputs 0 &&
  check_input_type ttkPackageMergeTrees_New inputs 0 = true <->
  List.length (default [] (inputs !! 0)) = 1 /\ is_Some (GetInputDataSet inputs).
Proof.
  rewrite check_input_count_New, check_input_type_New.
  unfold GetInputDataSet, GetInputData, SafeDownCast.
  destruct (default [] (inputs !! 0)) as [|d [|d' ds]]; simpl;
    [split; [done|by intros []]| |split; [done|by intros []]].
  rewrite andb_true_r. destruct (IsA (obj_type d) vtkMultiBlockDataSetT); split; [done|done|done|].
  by intros [_ []].
Qed.

(** [C9] The filter packages one merge tree.  [FillInputPortInformation]
    leaves [INPUT_IS_REPEATABLE] unset (line 45 is commented out), so the
    executive's count check of port 0 passes only with a single
    connection.  [RequestData], with an array selection on port 0,
    connection 0 (or none), reads nothing but that connection: on any
    inputs whose port 0 starts with [d], it does what it does on [d]
    alone. *)
Theorem RequestData_one_tree self d ds rest outputs :
  (forall sel, InputArraysToProcess self !! 0 = Some sel -> sel_port sel = 0 /\ sel_connection sel = 0) ->
  (check_input_count ttkPackageMergeTrees_New ((d :: ds) :: rest) 0 = true <-> ds = []) /\
  RequestData self ((d :: ds) :: rest) outputs = RequestData self [[d]] outputs.
Proof.
  intros Hsel. split.
  { rewrite check_input_count_New. destruct ds; simpl; split; done. }
  unfold RequestData, GetInputDataSet, GetInputArray, GetInputArrayToProcess, GetInputData.
  cbn [default lookup list_lookup id].
  destruct (InputArraysToProcess self !! 0) as [sel|] eqn:E; [|done].
  destruct (Hsel sel eq_refl) as [-> ->]. done.
Qed.

(** [C18] [RequestData] never checks the blocks it copies.  On a
    multi-block input with a selected array, and outputs of the declared
    types, it reports success ([1], no message) whatever the blocks are;
    every output [i] whose block [i] is missing, or is not of the type
    block [i] is downcast to (unstructured grid for blocks 0 and 1,
    data set for block 2), is left exactly as it was. *)
Theorem RequestData_skips_blocks self mb o0 o1 o2 :
  obj_type mb = vtkMultiBlockDataSetT -> is_Some (GetInputArray self [[mb]]) ->
  obj_type o0 = vtkUnstructuredGridT -> obj_type o1 = vtkUnstructuredGridT ->
  IsA (obj_type o2) vtkDataSetT = true ->
  exists outs,
    RequestData self [[mb]] [Some o0; Some o1; Some o2] = RDReturn 1 outs [] /\
    forall i t, [vtkUnstructuredGridT; vtkUnstructuredGridT; vtkDataSetT] !! i = Some t ->
      SafeDownCast t (GetBlock mb i) = None ->
      outs !! i = [Some o0; Some o1; Some o2] !! i.
Proof.
  intros Hmb [a Ha] Ho0 Ho1 Ho2.
  unfold RequestData. rewrite (GetInputDataSet_single mb Hmb), Ha. unfold CopyBlocks.
  assert (Hc : forall t o, IsA (obj_type o) t = true -> SafeDownCast t (Some o) = Some o)
    by (intros t o Ht; unfold SafeDownCast; by rewrite Ht).
  cbn [default lookup list_lookup id].
  rewrite (Hc _ o0), (Hc _ o1), (Hc _ o2) by (rewrite ?Ho0, ?Ho1; done).
  eexists. split; [reflexivity|].
  intros i t Ht Hb. destruct i as [|[|[|i]]]; simplify_eq/=; rewrite Hb; done.
Qed.

(** [C19] [RequestData] succeeds only with a field-data array.  On a
    single connection (the only input the executive lets through), it
    returns [1] only when an array is selected under index 0 on port 0,
    connection 0, with association [FIELD_ASSOCIATION_NONE], and the
    input carries a field-data array of that name: a
    [vtkMultiBlockDataSet] has no point or cell data. *)
Theorem RequestData_needs_field_array self d outputs outs errs :
  RequestData self [[d]] outputs = RDReturn 1 outs errs ->
  exists sel,
    InputArraysToProcess self !! 0 = Some sel /\ sel_port sel = 0 /\ sel_connection sel = 0 /\
    sel_association sel = FIELD_ASSOCIATION_NONE /\
    (FIELD_ASSOCIATION_NONE, sel_name sel) ∈ obj_arrays d.
Proof.
  unfold RequestData. destruct (GetInputDataSet [[d]]) as [mb|] eqn:Hin; [|done].
  unfold GetInputDataSet in Hin. apply SafeDownCast_Some in Hin as [[= <-] Hmt].
  destruct (GetInputArray self [[d]]) as [a|] eqn:Ha; [intros _|done].
  unfold GetInputArray, GetInputArrayToProcess in Ha.
  destruct (InputArraysToProcess self !! 0) as [[p c assoc name]|] eqn:E; [|done].
  exists (mkArraySelection p c assoc name). cbn [sel_port sel_connection sel_association sel_name] in *.
  destruct p as [|p], c as [|c]; try done. cbn -[IsA GetArray] in Ha.
  rewrite (IsA_multiblock_not_dataset _ Hmt) in Ha.
  destruct (Z.eqb_spec assoc FIELD_ASSOCIATION_NONE) as [->|]; [|done].
  unfold GetArray in Ha. case_bool_decide; done.
Qed.

(** *** Witnesses *)

Definition grid (c : nat) : vtkDataObject := mkDataObject vtkUnstructuredGridT c [] [].

(** A merge tree: a multi-block data set with a field-data array
    ["Scalars"]. *)
Definition tree (c : nat) (blocks : list (option vtkDataObject)) : vtkDataObject :=
  mkDataObject vtkMultiBlockDataSetT c blocks [(FIELD_ASSOCIATION_NONE, "Scalars")].

(** The filter with the field-data array ["Scalars"] of port 0,
    connection 0, selected under index 0. *)
Definition field_filter : ttkPackageMergeTrees :=
  SetInputArrayToProcess ttkPackageMergeTrees_New 0 0 0 FIELD_ASSOCIATION_NONE "Scalars".

Lemma RequestData_copies_blocks_witness :
  RequestData field_filter [[tree 0 [Some (grid 7); Some (grid 8); Some (grid 9)]]]
    [Some (grid 0); Some (grid 0); Some (grid 0)] =
  RDReturn 1 [Some (grid 7); Some (grid 8); Some (grid 9)] [].
Proof.
  apply (RequestData_copies_blocks field_filter (tree 0 [Some (grid 7); Some (grid 8); Some (grid 9)])
           (grid 0) (grid 0) (grid 0) (grid 7) (grid 8) (grid 9));
    try reflexivity. by exists "Scalars".
Defined.

Lemma RequestData_outputs_typed_witness :
  exists o info name t,
    [Some (grid 7); Some (grid 8); Some (mkDataObject vtkImageDataT 9 [] [])] !! 2 = Some (Some o) /\
    FillOutputPortInformation field_filter 2 ∅ = (1%Z, info) /\
    info !! DATA_TYPE_NAME = Some name /\ type_of_name name = Some t /\
    IsA (obj_type o) t = true.
Proof.
  apply (RequestData_outputs_typed field_filter
           [[tree 0 [Some (grid 7); Some (grid 8); Some (mkDataObject vtkImageDataT 9 [] [])]]]
           [Some (grid 0); Some (grid 0); Some (mkDataObject vtkImageDataT 0 [] [])]
           _ []); [reflexivity | vm_compute; lia].
Defined.

Lemma RequestData_slotwise_witness :
  (0 < 3 -> GetBlock (tree 0 [Some (grid 7); Some (grid 8); Some (grid 9)]) 0 =
            GetBlock (tree 1 [Some (grid 7)]) 0 ->
   [Some (grid 7); Some (grid 8); Some (grid 9)] !! 0 = [Some (grid 7); Some (grid 0); Some (grid 0)] !! 0) /\
  (3 <= 0 -> [Some (grid 7); Some (grid 8); Some (grid 9)] !! 0 = [Some (grid 0); Some (grid 0); Some (grid 0)] !! 0).
Proof.
  apply (RequestData_slotwise field_filter (tree 0 [Some (grid 7); Some (grid 8); Some (grid 9)])
           (tree 1 [Some (grid 7)]) [Some (grid 0); Some (grid 0); Some (grid 0)]); reflexivity.
Defined.


Lemma RequestData_point_array_fails_witness :
  RequestData (SetInputArrayToProcess ttkPackageMergeTrees_New 0 0 0 FIELD_ASSOCIATION_POINTS "Scalars")
    [[tree 0 [Some (grid 7); Some (grid 8); Some (grid 9)]]]
    [Some (grid 0); Some (grid 0); Some (grid 0)] =
  RDReturn 0 [Some (grid 0); Some (grid 0); Some (grid 0)] ["Unable to retrieve input array."].
Proof.
  apply (RequestData_point_array_fails
           (SetInputArrayToProcess ttkPackageMergeTrees_New 0 0 0 FIELD_ASSOCIATION_POINTS "Scalars")
           _ _ FIELD_ASSOCIATION_POINTS "Scalars");
    [reflexivity | vm_compute; discriminate | eexists; reflexivity].
Defined.

Lemma Update_never_runs_witness :
  Update field_filter [[tree 0 [Some (grid 7); Some (grid 8); Some (grid 9)]]] =
  DataObjectCreationError 2 "vtkDataSet".
Proof. apply Update_never_runs. reflexivity. Defined.

Lemma RequestData_one_tree_witness :
  (check_input_count ttkPackageMergeTrees_New [[tree 0 []; tree 1 [Some (grid 5)]]] 0 = true <->
   [tree 1 [Some (grid 5)]] = []) /\
  RequestData field_filter [[tree 0 []; tree 1 [Some (grid 5)]]] [Some (grid 0); Some (grid 0); Some (grid 0)] =
  RequestData field_filter [[tree 0 []]] [Some (grid 0); Some (grid 0); Some (grid 0)].
Proof.
  apply RequestData_one_tree. intros sel Hs. vm_compute in Hs. injection Hs as <-. split; reflexivity.
Defined.

Lemma RequestData_skips_blocks_witness :
  exists outs,
    RequestData field_filter [[tree 0 [None; Some (tree 1 [])]]] [Some (grid 0); Some (grid 1); Some (grid 2)] =
    RDReturn 1 outs [] /\
    forall i t, [vtkUnstructuredGridT; vtkUnstructuredGridT; vtkDataSetT] !! i = Some t ->
      SafeDownCast t (GetBlock (tree 0 [None; Some (tree 1 [])]) i) = None ->
      outs !! i = [Some (grid 0); Some (grid 1); Some (grid 2)] !! i.
Proof. apply RequestData_skips_blocks; try reflexivity. by exists "Scalars". Defined.

Lemma RequestData_needs_field_array_witness :
  exists sel,
    InputArraysToProcess field_filter !! 0 = Some sel /\ sel_port sel = 0 /\ sel_connection sel = 0 /\
    sel_association sel = FIELD_ASSOCIATION_NONE /\
    (FIELD_ASSOCIATION_NONE, sel_name sel) ∈ obj_arrays (tree 0 []).
Proof.
  apply (RequestData_needs_field_array field_filter (tree 0 []) [Some (grid 0); Some (grid 0); Some (grid 0)]
           [Some (grid 0); Some (grid 0); Some (grid 0)] []).
  reflexivity.
Defined.

End PackageMergeTrees.
