(* ===== verification/Assembler.v ===== *)
(** * Diagram Assembler and the entry point [execute]

    Specification sections 4.6, 6 and 7; [RipsPersistenceDiagram::execute]
    of [src/core/base/ripsPersistenceDiagram/RipsPersistenceDiagram.h]
    (declared there, its body is the Ripser engine).

    - [higher_dims]: dimensions [1..MaxDim]; the columns of dimension 1
      are the cycle edges of H0, those of dimension [k+1] the
      [(k+1)]-simplices that were not a pivot in dimension [k]
      (clearing);
    - [compute_barcodes]: the pairs of every dimension [0..MaxDim];
    - [assemble]: each dimension sorted by birth, then death (the
      infinite sentinel after every finite death);
    - [validate_config] and [execute]: the configuration checks, the
      distance provider, the overflow check of the binomial table
      ([ResourceExhaustionError]) and the computation; the result is
      [ph], one list of pairs per dimension, or an error and no partial
      result;
    - [execute_plain]: the same pipeline reducing every column (no
      apparent-pair shortcut), the reference of [execute_apparent_pairs].

    Theorems: [execute] agrees with [execute_plain] on every input; every
    diagram it returns has one sorted list per dimension and birth [<=]
    death for every pair; it fails exactly on the errors of section 7,
    checked in the order the section gives ([execute_errors]);
    scenarios 1, 2 (for every valid configuration) and 3 of the
    specification.
*)

From S2P Require Import Prelude RipsConfig Distance Binomial SimplexIndex Filtration UnionFind Homology0 Cohomology.
From Stdlib Require Import QArith.

Module Assembler.
Import RipsConfig.RipsConfig Distance.Distance Binomial.Binomial SimplexIndex.Indexer
  Filtration.Filtration UnionFind.UnionFind
  Homology0.Homology0 Cohomology.Cohomology.
Local Open Scope nat_scope.

(** The order of deaths: finite values by [vle], the sentinel last. *)
Definition death_leb `{ValueOrder V} (a b : death_value V) : bool :=
  match a, b with
  | Finite x, Finite y => vle x y
  | _, Infinite => true
  | Infinite, Finite _ => false
  end.

(** Pairs by birth, then death. *)
Definition pair_leb `{ValueOrder V} (p q : pers_pair V) : bool :=
  vlt (birth p) (birth q) || (vle (birth p) (birth q) && death_leb (death p) (death q)).

Definition pair_le `{ValueOrder V} (p q : pers_pair V) : Prop := pair_leb p q = true.

#[export] Instance pair_le_dec `{ValueOrder V} : RelDecision (@pair_le V _) :=
  fun p q => decide (pair_leb p q = true).

(** A pair with [birth <= death] (or an infinite death). *)
Definition pair_ok `{ValueOrder V} (p : pers_pair V) : Prop :=
  match death p with Finite d => birth p ≤ᵥ d | Infinite => True end.

(** [assemble(pairs_per_dimension)]: sort within each dimension. *)
Definition assemble `{ValueOrder V} (ph : list (list (pers_pair V))) : list (list (pers_pair V)) :=
  map (merge_sort pair_le) ph.

Section Pipeline.
Context `{ValueOrder V} `{ValueOfDouble V}.
Variable self : RipsPersistenceDiagram.
Variable n : nat.
Variable dist : nat -> nat -> V.

(** [m] dimensions from [k] on, the columns of dimension [k] given. *)
Fixpoint higher_dims (m k : nat) (columns : list (V * nat)) : list (list (pers_pair V)) :=
  match m with
  | 0 => []
  | S m' =>
      let '(ps, pivots) := compute_dim_pairs self n dist k columns in
      ps :: higher_dims m' (S k) (assemble_columns self n dist (S k) pivots)
  end.

(** The pairs of dimensions [0..MaxDim]. *)
Definition compute_barcodes : list (list (pers_pair V)) :=
  let '(h0, cols) := compute_dim_0_pairs self n dist in
  h0 :: higher_dims (max_dim self) 1 cols.

(** The same pipeline without the apparent-pair shortcut: every column
    is reduced. *)
Definition compute_dim_pairs_plain (k : nat) (columns : list (V * nat)) : list (pers_pair V) * list nat :=
  let st := reduce_dim_plain self n dist k columns in (pairs st, map fst (map_to_list (table st))).

Fixpoint higher_dims_plain (m k : nat) (columns : list (V * nat)) : list (list (pers_pair V)) :=
  match m with
  | 0 => []
  | S m' =>
      let '(ps, pivots) := compute_dim_pairs_plain k columns in
      ps :: higher_dims_plain m' (S k) (assemble_columns self n dist (S k) pivots)
  end.

Definition compute_barcodes_plain : list (list (pers_pair V)) :=
  let '(h0, cols) := compute_dim_0_pairs self n dist in
  h0 :: higher_dims_plain (max_dim self) 1 cols.
End Pipeline.

(** [InvalidConfigurationError]: [MaxDim] or [Threshold] negative. *)
Definition validate_config (self : RipsPersistenceDiagram) : option rips_error :=
  if (MaxDim self <? 0)%Z then Some InvalidConfigurationError
  else if negb (Qle_bool 0%Q (Threshold self)) then Some InvalidConfigurationError
  else None.

(** [execute(points, ph)]. *)
Definition execute (self : RipsPersistenceDiagram) (points : list (list Q))
    : rips_error + list (list (pers_pair dist_value)) :=
  match validate_config self with
  | Some e => inl e
  | None =>
      match build_distance self points with
      | inl e => inl e
      | inr (n, dist) =>
          if table_fits (binomial_coeff_table n (max_dim self + 2))
          then inr (assemble (compute_barcodes self n dist))
          else inl ResourceExhaustionError
      end
  end.

(** [execute] without the apparent-pair shortcut. *)
Definition execute_plain (self : RipsPersistenceDiagram) (points : list (list Q))
    : rips_error + list (list (pers_pair dist_value)) :=
  match validate_config self with
  | Some e => inl e
  | None =>
      match build_distance self points with
      | inl e => inl e
      | inr (n, dist) =>
          if table_fits (binomial_coeff_table n (max_dim self + 2))
          then inr (assemble (compute_barcodes_plain self n dist))
          else inl ResourceExhaustionError
      end
  end.

(** ** Lemmas *)

Section OrderLemmas.
Context `{ValueOrderLaws V}.

Lemma death_leb_trans (a b c : death_value V) :
  death_leb a b = true -> death_leb b c = true -> death_leb a c = true.
Proof. destruct a, b, c; simpl; try done. apply vle_trans. Qed.

Lemma death_leb_total (a b : death_value V) : death_leb a b = true \/ death_leb b a = true.
Proof. destruct a, b; simpl; auto using vle_total. Qed.

Lemma pair_le_trans : Transitive (@pair_le V _).
Proof.
  intros p q r. unfold pair_le, pair_leb. rewrite !orb_true_iff, !andb_true_iff.
  intros [Hpq|[Hpq Hdpq]] [Hqr|[Hqr Hdqr]].
  - left. eapply vlt_le_trans; [done|by apply vlt_le].
  - left. by eapply vlt_le_trans.
  - left. by eapply vle_lt_trans.
  - right. split; [by eapply vle_trans|by eapply death_leb_trans].
Qed.

Lemma pair_le_total : Total (@pair_le V _).
Proof.
  intros p q. unfold pair_le, pair_leb, vlt.
  destruct (vle (birth p) (birth q)), (vle (birth q) (birth p)); simpl; auto.
  destruct (death_leb_total (death p) (death q)); auto.
Qed.

Lemma fold_vmax_ge (xs : list V) x : x ≤ᵥ fold_left vmax xs x.
Proof.
  revert x. induction xs as [|y xs IH]; intros x; simpl; [auto with ripser|].
  eapply vle_trans; [|apply IH]. auto with ripser.
Qed.

Lemma emit_ok b d (ps : list (pers_pair V)) :
  Forall pair_ok ps -> Forall pair_ok (emit b d ps).
Proof.
  unfold emit. destruct (vlt b d) eqn:Hbd; [|done]. intros Hps.
  apply Forall_app. split; [done|]. repeat constructor. unfold pair_ok. simpl. by apply vlt_le.
Qed.
End OrderLemmas.

Section PipelineLemmas.
Context `{ValueOrderLaws V} `{ValueOfDouble V}.
Variable self : RipsPersistenceDiagram.
Variable n : nat.
Variable dist : nat -> nat -> V.

Lemma settle_ok k s w st :
  Forall pair_ok (pairs st) -> Forall pair_ok (pairs (settle self n dist k s w st)).
Proof.
  intros Hst. unfold settle. destruct (pivot self n dist k w); simpl; [by apply emit_ok|].
  apply Forall_app. split; [done|]. repeat constructor.
Qed.

Lemma fold_steps_ok k fuel l st :
  Forall pair_ok (pairs st) ->
  Forall pair_ok (pairs (fold_left (reduction_step self n dist k fuel) l st)).
Proof.
  revert st. induction l as [|s l IH]; intros st Hst; simpl; [done|].
  apply IH. unfold reduction_step, reduction_step_plain.
  destruct (apparent_cofacet self n dist k s); by apply settle_ok.
Qed.

Lemma compute_dim_pairs_ok k columns :
  Forall pair_ok (compute_dim_pairs self n dist k columns).1.
Proof. unfold compute_dim_pairs, reduce_dim. simpl. apply fold_steps_ok. constructor. Qed.

Lemma higher_dims_ok m k columns :
  Forall (Forall pair_ok) (higher_dims self n dist m k columns) /\
  length (higher_dims self n dist m k columns) = m.
Proof.
  revert k columns. induction m as [|m IH]; intros k columns; cbn [higher_dims];
    [split; [constructor|done]|].
  pose proof (compute_dim_pairs_ok k columns) as Hk.
  destruct (compute_dim_pairs self n dist k columns) as [ps pivots].
  destruct (IH (S k) (assemble_columns self n dist (S k) pivots)) as [Hok Hlen].
  simpl in Hk. cbn [length]. split; [constructor; [exact Hk|exact Hok]|by rewrite Hlen].
Qed.

(** The columns each dimension receives satisfy [columns_ok]: the cycle
    edges of H0 and the cleared simplices are sublists of the
    filtration. *)
Lemma dim0_columns_ok : columns_ok self n dist 1 (compute_dim_0_pairs self n dist).2.
Proof.
  unfold compute_dim_0_pairs.
  pose proof (dim0_loop_cols self n (uf_new n) (enumerate_simplices self n dist 1)) as Hsub.
  destruct (dim0_loop self n (uf_new n) (enumerate_simplices self n dist 1)) as [[uf deaths] cols].
  simpl in *. eapply columns_ok_sublist; [exact Hsub|]. apply columns_ok_enumerate. lia.
Qed.

Lemma assemble_columns_ok k pivots :
  k <= max_dim self + 1 -> columns_ok self n dist k (assemble_columns self n dist k pivots).
Proof.
  intros Hk. eapply columns_ok_sublist; [apply List_filter_sublist|]. by apply columns_ok_enumerate.
Qed.

Lemma higher_dims_eq m k columns :
  1 <= k -> k + m <= max_dim self + 1 -> columns_ok self n dist k columns ->
  higher_dims self n dist m k columns = higher_dims_plain self n dist m k columns.
Proof.
  revert k columns. induction m as [|m IH]; intros k columns Hk Hkm Hok; [done|].
  cbn [higher_dims higher_dims_plain]. unfold compute_dim_pairs_plain, compute_dim_pairs.
  rewrite reduce_dim_eq by (done || lia). f_equal.
  apply IH; [lia|lia|]. apply assemble_columns_ok. lia.
Qed.

Lemma compute_barcodes_eq : compute_barcodes self n dist = compute_barcodes_plain self n dist.
Proof.
  unfold compute_barcodes, compute_barcodes_plain. pose proof dim0_columns_ok as Hok.
  destruct (compute_dim_0_pairs self n dist) as [h0 cols]. f_equal.
  apply higher_dims_eq; [lia|lia|done].
Qed.

Hypothesis dist_nonneg : forall i j, vzero ≤ᵥ dist i j.

Lemma diameter_nonneg vs : vzero ≤ᵥ diameter dist vs.
Proof.
  assert (Hall : Forall (fun y => vzero ≤ᵥ y) (pair_dists dist vs)).
  { induction vs as [|v vs IH]; simpl; [constructor|]. apply Forall_app. split; [|done].
    apply Forall_forall. intros y (w & -> & _)%list_elem_of_fmap. apply dist_nonneg. }
  unfold diameter. destruct (pair_dists dist vs) as [|x xs]; [auto with ripser|].
  apply Forall_cons in Hall as [Hx _].
  eapply vle_trans; [exact Hx|]. apply fold_vmax_ge.
Qed.

Lemma compute_dim_0_pairs_ok : Forall pair_ok (compute_dim_0_pairs self n dist).1.
Proof.
  assert (Hd : forall d, d ∈ (dim0_loop self n (uf_new n) (enumerate_simplices self n dist 1)).1.2 ->
                 exists e, (d, e) ∈ enumerate_simplices self n dist 1)
    by (intros d; apply dim0_loop_deaths).
  unfold compute_dim_0_pairs.
  destruct (dim0_loop self n (uf_new n) (enumerate_simplices self n dist 1)) as [[uf deaths] cols].
  simpl in *. apply Forall_app. split.
  - apply Forall_forall. intros p (d & -> & Hin)%list_elem_of_fmap. unfold pair_ok. simpl.
    destruct (Hd d Hin) as [e He].
    apply enumerate_simplices_elem in He as (_ & -> & _); [|lia]. apply diameter_nonneg.
  - apply Forall_forall. intros p (i & -> & _)%list_elem_of_fmap. done.
Qed.

Lemma compute_barcodes_ok :
  Forall (Forall pair_ok) (compute_barcodes self n dist) /\
  length (compute_barcodes self n dist) = S (max_dim self).
Proof.
  unfold compute_barcodes. pose proof compute_dim_0_pairs_ok as Hh0.
  destruct (compute_dim_0_pairs self n dist) as [h0 cols].
  destruct (higher_dims_ok (max_dim self) 1 cols) as [Hok Hlen].
  split; [by constructor|simpl; by rewrite Hlen].
Qed.
End PipelineLemmas.

(** *** A single point *)

Section SinglePoint.
Context `{ValueOrder V} `{ValueOfDouble V}.
Variable self : RipsPersistenceDiagram.
Variable dist : nat -> nat -> V.

Lemma enumerate_single j :
  1 <= j <= max_dim self + 1 -> enumerate_simplices self 1 dist j = [].
Proof.
  intros Hj. unfold enumerate_simplices, rips_binomial.
  rewrite table_binomial_choose, choose_gt by lia. reflexivity.
Qed.

Lemma compute_dim_0_pairs_single :
  compute_dim_0_pairs self 1 dist = ([mkPair vzero Infinite], []).
Proof. unfold compute_dim_0_pairs. rewrite enumerate_single by lia. reflexivity. Qed.

Lemma higher_dims_single m k :
  1 <= k -> k + m <= max_dim self + 1 -> higher_dims self 1 dist m k [] = replicate m [].
Proof.
  revert k. induction m as [|m IH]; intros k Hk Hkm; [done|]. cbn [higher_dims].
  change (compute_dim_pairs self 1 dist k []) with (@nil (pers_pair V), @nil nat).
  unfold assemble_columns. rewrite enumerate_single by lia. simpl. f_equal. apply IH; lia.
Qed.
End SinglePoint.

Lemma assemble_replicate `{ValueOrder V} m x :
  assemble (merge_sort pair_le [x] :: replicate m []) = [x] :: replicate m ([] : list (pers_pair V)).
Proof. unfold assemble. simpl. f_equal. induction m as [|m IH]; simpl; [done|by rewrite IH]. Qed.

Lemma table_fits_single K : table_fits (binomial_coeff_table 1 K) = true.
Proof.
  apply table_fits_choose. intros i j Hi _. unfold max_simplex_index.
  assert (choose i j <= 1) by (destruct i as [|[|]], j as [|[|]]; simpl; lia). lia.
Qed.

(** ** Properties of [execute] *)

(** The configuration check rejects exactly a negative [MaxDim] or a
    negative [Threshold], always with [InvalidConfigurationError]. *)
Lemma validate_config_None self :
  validate_config self = None <-> (0 <= MaxDim self)%Z /\ (0 <= Threshold self)%Q.
Proof.
  unfold validate_config. rewrite <- Qle_bool_iff.
  destruct (Z.ltb_spec (MaxDim self) 0), (Qle_bool 0 (Threshold self)); simpl;
    split; try done; intros [? ?]; (lia || done).
Qed.

Lemma validate_config_Some self e :
  validate_config self = Some e -> e = InvalidConfigurationError.
Proof. unfold validate_config. repeat case_match; by intros [= <-]. Qed.

(** [C1] The apparent-pair shortcut is sound for the whole
    computation: on every input and configuration, [execute] returns the
    same diagram (or the same error) as the pipeline in which every
    column of every dimension (after clearing) is reduced. *)
Theorem execute_apparent_pairs self points :
  execute self points = execute_plain self points.
Proof.
  unfold execute, execute_plain. destruct (validate_config self); [done|].
  destruct (build_distance self points) as [e|[n dist]]; [done|].
  by rewrite compute_barcodes_eq.
Qed.

(** Every diagram [execute] returns is well formed (specification
    section 8, first property, and section 4.6): it has one list of
    pairs per dimension [0..MaxDim]; each list is sorted by birth, then
    death; and every pair has [birth <= death] or the infinite
    sentinel as death. *)
Theorem execute_diagram_valid self points ph :
  execute self points = inr ph ->
  length ph = S (max_dim self) /\
  Forall (fun ps => StronglySorted pair_le ps /\ Forall pair_ok ps) ph.
Proof.
  unfold execute. destruct (validate_config self); [discriminate|].
  destruct (build_distance self points) as [e|[n dist]] eqn:Hb; [discriminate|].
  destruct (table_fits _); [|discriminate]. intros [= <-].
  destruct (compute_barcodes_ok self n dist (build_distance_nonneg self points n dist Hb))
    as [Hok Hlen].
  unfold assemble. rewrite length_map. split; [done|].
  apply Forall_fmap. eapply Forall_impl; [exact Hok|]. intros ps Hps. simpl. split.
  - apply StronglySorted_merge_sort; [apply pair_le_trans|apply pair_le_total].
  - by rewrite merge_sort_Permutation.
Qed.

(** Scenario 2 of the specification, for every configuration: a
    single point (of any dimension) given as a point cloud, with a valid
    configuration, gives exactly one H0 pair, [(0, infinity)], and no
    pair in the dimensions [1..MaxDim]. *)
Theorem execute_single_point self p :
  validate_config self = None -> InputIsDistanceMatrix self = 0%Z ->
  execute self [p] = inr ([mkPair vzero Infinite] :: replicate (max_dim self) []).
Proof.
  intros Hcfg Hcloud. unfold execute. rewrite Hcfg. unfold build_distance.
  cbn [length Nat.eqb negb]. rewrite Hcloud. cbn [Z.eqb negb rows_equal_length forallb].
  rewrite table_fits_single. f_equal. unfold compute_barcodes.
  rewrite compute_dim_0_pairs_single. cbn zeta iota.
  rewrite higher_dims_single by lia. apply assemble_replicate.
Qed.

(** [C10] Error behaviour of [execute] (specification section 7): it
    fails with [InvalidConfigurationError] exactly when [MaxDim] or
    [Threshold] is negative, checked before anything else; otherwise with
    [InvalidInputError] exactly when the distance provider rejects the
    input; otherwise with [ResourceExhaustionError] exactly when a
    binomial coefficient [C(i,j)] of the table for the run
    ([i <= n], [j <= MaxDim + 2]) does not fit an [int64_t]. *)
Theorem execute_errors self points e :
  execute self points = inl e <->
  ((MaxDim self < 0)%Z \/ ~ (0 <= Threshold self)%Q) /\ e = InvalidConfigurationError \/
  (0 <= MaxDim self)%Z /\ (0 <= Threshold self)%Q /\
  ((e = InvalidInputError /\ forall r, build_distance self points <> inr r) \/
   (e = ResourceExhaustionError /\
    exists n dist, build_distance self points = inr (n, dist) /\
      exists i j, i <= n /\ j <= max_dim self + 2 /\
        (max_simplex_index < Z.of_nat (choose i j))%Z)).
Proof.
  unfold execute. destruct (validate_config self) as [e'|] eqn:Hv.
  - apply validate_config_Some in Hv as Hv'. subst e'.
    assert (Hbad : ~ ((0 <= MaxDim self)%Z /\ (0 <= Threshold self)%Q))
      by (rewrite <- validate_config_None, Hv; done).
    split; [intros [= <-]; left; split; [|done]|].
    + destruct (Z.ltb_spec (MaxDim self) 0); [by left|right; intros ?; apply Hbad; split; [lia|done]].
    + intros [[_ ->]|(? & ? & _)]; [done|]. by destruct Hbad.
  - apply validate_config_None in Hv as [Hm Ht].
    destruct (build_distance self points) as [e'|[n dist]] eqn:Hb.
    + apply build_distance_error in Hb as ->. split.
      * intros [= <-]. right. split_and!; [done|done|left; split; [done|congruence]].
      * intros [[[?|?] _]|(_ & _ & [[-> _]|(_ & ? & ? & [=] & _)])]; by (lia || done).
    + destruct (table_fits _) eqn:Hfit; split.
      * done.
      * intros [[[?|?] _]|(_ & _ & [[_ Hnot]|(_ & n' & d' & [= <- <-] & ij)])];
          [lia|done|by destruct (Hnot (n, dist))|].
        destruct ij as (i & j & ? & ? & ?).
        pose proof (proj1 (table_fits_iff _ _) Hfit i j). lia.
      * intros [= <-]. right. split_and!; [done|done|right; split; [done|]].
        exists n, dist. split; [done|]. by apply table_fits_false.
      * intros [[[?|?] _]|(_ & _ & [[-> Hnot]|[-> _]])]; [lia|done| |done].
        by destruct (Hnot (n, dist)).
Qed.

(** Scenario 1 of the specification: the unit square
    [(0,0), (1,0), (0,1), (1,1)] with [MaxDim = 1] and [Threshold = 2.0]
    gives three H0 pairs [(0, 1)], one H0 pair [(0, infinity)] and one H1
    pair [(1, sqrt 2)] (a [dist_value] [Root q] stands for [sqrt q]). *)
Theorem execute_unit_square :
  execute scenario1_config unit_square =
  inr [[mkPair (Root 0%Q) (Finite (Root 1%Q)); mkPair (Root 0%Q) (Finite (Root 1%Q));
        mkPair (Root 0%Q) (Finite (Root 1%Q)); mkPair (Root 0%Q) Infinite];
       [mkPair (Root 1%Q) (Finite (Root 2%Q))]].
Proof. vm_compute. reflexivity. Qed.

(** Scenario 3 of the specification on four identical points with
    [MaxDim = 3] and [Threshold = 0]: three H0 pairs [(0, 0)], one H0 pair
    [(0, infinity)], and no pair in dimensions 1 to 3 (every simplex has
    diameter 0: the reduction pairs them all with zero length). *)
Theorem execute_identical_points :
  execute (mkRipsPersistenceDiagram 3%Z 0%Q 0%Z) [[0%Q]; [0%Q]; [0%Q]; [0%Q]] =
  inr [[mkPair (Root 0%Q) (Finite (Root 0%Q)); mkPair (Root 0%Q) (Finite (Root 0%Q));
        mkPair (Root 0%Q) (Finite (Root 0%Q)); mkPair (Root 0%Q) Infinite]; []; []; []].
Proof. vm_compute. reflexivity. Qed.

(** *** Witnesses *)

Lemma execute_diagram_valid_witness :
  length [[mkPair (Root 0%Q) (Finite (Root 1%Q)); mkPair (Root 0%Q) (Finite (Root 1%Q));
           mkPair (Root 0%Q) (Finite (Root 1%Q)); mkPair (Root 0%Q) Infinite];
          [mkPair (Root 1%Q) (Finite (Root 2%Q))]] = S (max_dim scenario1_config) /\
  Forall (fun ps => StronglySorted pair_le ps /\ Forall pair_ok ps)
    [[mkPair (Root 0%Q) (Finite (Root 1%Q)); mkPair (Root 0%Q) (Finite (Root 1%Q));
      mkPair (Root 0%Q) (Finite (Root 1%Q)); mkPair (Root 0%Q) Infinite];
     [mkPair (Root 1%Q) (Finite (Root 2%Q))]].
Proof. apply (execute_diagram_valid scenario1_config unit_square). vm_compute. reflexivity. Defined.

Lemma execute_single_point_witness :
  execute RipsPersistenceDiagram_new [[3%Q; 4%Q]] =
  inr ([mkPair vzero Infinite] :: replicate (max_dim RipsPersistenceDiagram_new) []).
Proof. apply execute_single_point; reflexivity. Defined.

End Assembler.
