(* ===== verification/Clearing.v ===== *)
(** * Soundness of clearing

    [assemble_columns] ([Cohomology]) drops from the columns of dimension
    [k+1] every [(k+1)]-simplex that is a pivot of dimension [k]
    (clearing).  This file proves that nothing is lost: reducing those
    columns too would bring each of them to zero, so the pivot table and
    the finite pairs are the same with and without clearing
    ([clearing_sound]), and only essential pairs of cleared columns are
    left out.

    - Vertex lists: a strictly decreasing list is determined by its
      elements ([desc_unique]); the cofacets of a simplex are the
      simplices within the threshold whose vertices contain its vertices
      ([elem_of_coboundary]).
    - [coboundary_coboundary]: the coboundary of a coboundary is zero
      (δδ = 0 on the Rips complex at the threshold): a [(k+2)]-simplex
      containing a [k]-simplex [s] contains exactly two [(k+1)]-simplices
      that contain [s] ([between_iff]).
    - Sums of stored cochains ([entry], [in_span]): in echelon form
      (every stored cochain has the pivot it is stored under) the pivot
      of a sum of stored cochains is the oldest of theirs
      ([pivot_span]), so such a sum reduces to zero within the fuel
      ([in_span_reduces]).
    - The run of a dimension ([span_inv]): the coboundary of every
      processed column is a sum of stored cochains, and every stored
      cochain is a sum of coboundaries, hence a cocycle
      ([is_cob_cocycle]).
    - The coboundary of a pivot [t] of dimension [k] is the sum of the
      coboundaries of the other simplices of its reduced cochain, all
      younger than [t] ([cleared_coboundary]); when [t] comes up in the
      full run of dimension [k+1] they are processed, so [t] reduces to
      zero ([cleared_column_zero]); a simulation of the two runs
      ([clearing_sim]) gives [clearing_sound] for one dimension.
    - [higher_dims_clearing]: by induction on the dimension, every
      dimension of [higher_dims] after the first has the finite pairs of
      the reference [higher_dims_full], which reduces every simplex of
      the filtration in every dimension (no clearing); [ClearingDim1]
      adds dimension 1.
*)

From S2P Require Import Prelude Cochains RipsConfig Distance Binomial SimplexIndex Filtration Homology0 Cohomology Assembler.
From Stdlib Require QArith.

Module Clearing.
Import Cochains.Cochains RipsConfig.RipsConfig Distance.Distance Binomial.Binomial SimplexIndex.Indexer
  Filtration.Filtration Homology0.Homology0 Cohomology.Cohomology Assembler.Assembler.

(** ** Definitions *)

(** The cochain stored under the pivot [p] (zero if there is none). *)
Definition entry (tbl : gmap nat (nat * gset nat)) (p : nat) : gset nat :=
  match tbl !! p with Some (_, r) => r | None => ∅ end.

(** [w] is a sum of stored cochains. *)
Definition in_span (tbl : gmap nat (nat * gset nat)) (w : gset nat) : Prop :=
  exists B : gset nat, B ⊆ dom tbl /\ w = sigma (entry tbl) B.

(** The reference computation without clearing: every dimension from
    [k] on reduces all its simplices of the filtration. *)
Fixpoint higher_dims_full `{ValueOrder V} `{ValueOfDouble V} self n (dist : nat -> nat -> V)
    (m k : nat) : list (list (pers_pair V)) :=
  match m with
  | 0 => []
  | S m' => pairs (reduce_dim self n dist k (enumerate_simplices self n dist k))
              :: higher_dims_full self n dist m' (S k)
  end.

(** The pairs [a] of a dimension are those of [b] with only essential
    pairs left out. *)
Definition same_finite_pairs {V} (a b : list (pers_pair V)) : Prop :=
  a `sublist_of` b /\ List.filter is_finite a = List.filter is_finite b.

(** The unit square of scenario 1 with [MaxDim = 2]. *)
Definition square_dim2_config : RipsPersistenceDiagram := mkRipsPersistenceDiagram 2%Z (QArith_base.Qmake 2 1) 0%Z.

(** ** Strictly decreasing vertex lists *)

Lemma desc_below_sorted N vs : desc_below N vs -> StronglySorted gt vs.
Proof.
  revert N. induction vs as [|v vs IH]; intros N; simpl; [intros; constructor|].
  intros [Hv Hd]. constructor; [by apply (IH v)|].
  pose proof (desc_below_all v vs Hd) as Hall.
  eapply Forall_impl; [exact Hall|]. intros w Hw. cbv beta in *. unfold gt. lia.
Qed.

(** A decreasing list is determined by its elements. *)
Lemma desc_unique N M vs ws :
  desc_below N vs -> desc_below M ws -> (forall x, x ∈ vs <-> x ∈ ws) -> vs = ws.
Proof.
  intros Hv Hw Hx. apply (StronglySorted_unique_strong gt);
    [intros a b _ _ ? ?; unfold gt in *; lia|by eapply desc_below_sorted|by eapply desc_below_sorted|].
  apply NoDup_Permutation; [by eapply desc_below_NoDup..|]. apply Hx.
Qed.

(** A NoDup list with one element more than a NoDup list it contains has
    an element outside it. *)
Lemma NoDup_extra (vs ws : list nat) :
  NoDup ws -> length vs < length ws -> exists v, v ∈ ws /\ v ∉ vs.
Proof.
  intros Hnd Hl. destruct (decide (Forall (fun w => w ∈ vs) ws)) as [Hall|Hnot].
  - exfalso. rewrite Forall_forall in Hall.
    assert (length ws <= length vs); [|lia].
    apply NoDup_incl_length; [by rewrite <- NoDup_ListNoDup|].
    intros x Hx. apply list_elem_of_In, Hall, list_elem_of_In, Hx.
  - apply not_Forall_Exists in Hnot; [|apply _]. apply Exists_exists in Hnot as (v & ? & ?).
    by exists v.
Qed.

(** A decreasing list of one more vertex containing [vs] is [vs] with
    one vertex inserted. *)
Lemma desc_insert_of_subset N vs ws :
  desc_below N vs -> desc_below N ws -> length ws = S (length vs) ->
  (forall x, x ∈ vs -> x ∈ ws) ->
  exists v, v < N /\ v ∉ vs /\ ws = insert_desc v vs.
Proof.
  intros Hv Hw Hl Hsub.
  destruct (NoDup_extra vs ws (desc_below_NoDup _ _ Hw) ltac:(lia)) as (v & Hvw & Hvv).
  assert (HvN : v < N).
  { pose proof (desc_below_all _ _ Hw) as Hall. rewrite Forall_forall in Hall. by apply Hall. }
  exists v. split_and!; [done|done|]. symmetry. apply (desc_unique N N).
  - by apply insert_desc_desc.
  - done.
  - assert (Hincl : incl (insert_desc v vs) ws).
    { intros x Hx%list_elem_of_In. apply list_elem_of_In.
      apply elem_of_insert_desc in Hx as [->|Hx]; [done|by apply Hsub]. }
    apply NoDup_length_incl in Hincl;
      [|rewrite <- NoDup_ListNoDup; apply (desc_below_NoDup N); by apply insert_desc_desc
       |rewrite length_insert_desc; lia].
    { intros x. rewrite elem_of_insert_desc. split.
      - intros [->|Hx]; [done|by apply Hsub].
      - intros Hx. apply list_elem_of_In, Hincl, list_elem_of_In in Hx.
        by apply elem_of_insert_desc in Hx. }
Qed.

(** ** Sums of stored cochains *)

Lemma in_span_empty tbl : in_span tbl ∅.
Proof. exists ∅. split; [set_solver|by rewrite sigma_empty]. Qed.

Lemma in_span_zsum tbl a b : in_span tbl a -> in_span tbl b -> in_span tbl (a ⊕ b).
Proof.
  intros (A & HA & ->) (B & HB & ->). exists (A ⊕ B).
  split; [by apply zsum_subseteq|by rewrite sigma_zsum].
Qed.

Lemma in_span_sigma tbl f L : (forall x, x ∈ L -> in_span tbl (f x)) -> in_span tbl (sigma f L).
Proof. apply sigma_closed; [apply in_span_empty|apply in_span_zsum]. Qed.

Lemma in_span_entry tbl t : t ∈ dom tbl -> in_span tbl (entry tbl t).
Proof. intros Ht. exists {[t]}. split; [set_solver|by rewrite sigma_singleton]. Qed.

(** Storing a cochain under a new pivot keeps the sums already there. *)
Lemma in_span_insert tbl t e w :
  tbl !! t = None -> in_span tbl w -> in_span (<[t := e]> tbl) w.
Proof.
  intros Ht (B & HB & ->). apply not_elem_of_dom in Ht. exists B. split; [rewrite dom_insert_L; set_solver|].
  apply sigma_ext. intros x Hx. unfold entry. rewrite lookup_insert_ne; [done|set_solver].
Qed.

(** The sum of [w] with the result of its reduction is a sum of stored
    cochains. *)
Lemma reduce_column_span `{ValueOrder V} `{ValueOfDouble V} self n dist fuel k tbl w :
  in_span tbl (reduce_column self n dist fuel k tbl w ⊕ w).
Proof.
  revert w. induction fuel as [|fuel IH]; intros w; cbn [reduce_column].
  { rewrite zsum_self. apply in_span_empty. }
  destruct (pivot self n dist k w) as [t|]; [|rewrite zsum_self; apply in_span_empty].
  destruct (tbl !! t) as [[s r]|] eqn:Ht; [|rewrite zsum_self; apply in_span_empty].
  replace (reduce_column self n dist fuel k tbl (w ⊕ r) ⊕ w)
    with (reduce_column self n dist fuel k tbl (w ⊕ r) ⊕ (w ⊕ r) ⊕ entry tbl t)
    by (unfold entry; rewrite Ht, <- !zsum_assoc, zsum_self, zsum_empty_r; done).
  apply in_span_zsum; [apply IH|apply in_span_entry, elem_of_dom; by exists (s, r)].
Qed.

Section Coboundary.
Context `{ValueOrderLaws V} `{ValueOfDouble V}.
Variable self : RipsPersistenceDiagram.
Variable n : nat.
Variable dist : nat -> nat -> V.

(** The cofacets of [s] are the simplices of one dimension more, within
    the threshold, whose vertices contain those of [s]. *)
Lemma elem_of_coboundary j s t :
  j <= max_dim self -> s < choose n (S j) ->
  t ∈ coboundary self n dist j s <->
  t < choose n (S (S j)) /\
  (forall x, x ∈ vertices_of self n j s -> x ∈ vertices_of self n (S j) t) /\
  compute_diameter self n dist (S j) t ≤ᵥ threshold self.
Proof.
  intros Hj Hs. unfold coboundary. rewrite elem_of_list_to_set. split.
  - intros Ht. destruct (cofacet_facet self n dist j s t Hj Hs Ht) as (Htn & _ & v & _ & _ & Hvs).
    apply elem_of_cofacets in Ht as [_ Hle]. split_and!; [done| |done].
    intros x Hx. rewrite Hvs. apply elem_of_insert_desc. by right.
  - intros (Htn & Hsub & Hle).
    destruct (vertices_of_valid self n j s ltac:(lia) Hs) as (Hvd & Hvl & _).
    destruct (vertices_of_valid self n (S j) t ltac:(lia) Htn) as (Hwd & Hwl & Hwi).
    destruct (desc_insert_of_subset n _ _ Hvd Hwd ltac:(lia) Hsub) as (v & Hv & Hnin & Hins).
    apply elem_of_cofacets. split; [|done]. exists v. split_and!; [done|done|].
    by rewrite <- Hins, Hwi.
Qed.

(** A simplex within the threshold has every face within it. *)
Lemma diameter_face j j' a b :
  1 <= j <= max_dim self + 1 -> 1 <= j' <= max_dim self + 1 ->
  a < choose n (S j) -> b < choose n (S j') ->
  (forall x, x ∈ vertices_of self n j a -> x ∈ vertices_of self n j' b) ->
  compute_diameter self n dist j' b ≤ᵥ threshold self ->
  compute_diameter self n dist j a ≤ᵥ threshold self.
Proof.
  intros Hj Hj' Ha Hb Hsub Hle. apply compute_diameter_le; [done|done|].
  intros v w Hv Hw Hwv. eapply compute_diameter_le in Hle; [exact Hle|done|done|by apply Hsub..|done].
Qed.

(** The vertices of [us] outside [vs], for [vs ⊆ us] decreasing lists. *)
Lemma length_outside N vs us :
  desc_below N vs -> desc_below N us -> (forall x, x ∈ vs -> x ∈ us) ->
  length (List.filter (fun v => negb (bool_decide (v ∈ vs))) us) + length vs = length us.
Proof.
  intros Hv Hu Hsub.
  rewrite <- (List.filter_length (fun v => bool_decide (v ∈ vs)) us), Nat.add_comm. f_equal.
  apply Permutation_length. apply NoDup_Permutation.
  - by eapply desc_below_NoDup.
  - rewrite NoDup_ListNoDup. apply List.NoDup_filter. rewrite <- NoDup_ListNoDup. by eapply desc_below_NoDup.
  - intros x. specialize (Hsub x).
    rewrite (list_elem_of_In (List.filter _ _) x), filter_In, bool_decide_eq_true, <- list_elem_of_In.
    tauto.
Qed.

Section Dimension.
Variable k : nat.
Hypothesis Hk : S k <= max_dim self.

Local Notation cob := (coboundary self n dist).
Local Notation idx := (simplex_index (rips_binomial self n)).
Local Notation verts := (vertices_of self n).

(** The [(k+1)]-simplex [vs ∪ {v}] lies on [s] and under [u] when [v] is
    a vertex of [u] outside [s]. *)
Lemma middle_cofacet s u v :
  s < choose n (S k) -> u < choose n (S (S (S k))) ->
  compute_diameter self n dist (S (S k)) u ≤ᵥ threshold self ->
  (forall x, x ∈ vertices_of self n k s -> x ∈ vertices_of self n (S (S k)) u) ->
  v ∈ vertices_of self n (S (S k)) u -> v ∉ vertices_of self n k s ->
  idx (insert_desc v (vertices_of self n k s)) ∈ cob k s /\
  u ∈ cob (S k) (idx (insert_desc v (vertices_of self n k s))) /\
  vertices_of self n (S k) (idx (insert_desc v (vertices_of self n k s)))
    = insert_desc v (vertices_of self n k s).
Proof.
  intros Hs Hu Hdu Hsub Hv Hnv.
  destruct (vertices_of_valid self n k s ltac:(lia) Hs) as (Hsd & Hsl & _).
  destruct (vertices_of_valid self n (S (S k)) u ltac:(lia) Hu) as (Hud & Hul & _).
  assert (HvN : v < n).
  { pose proof (desc_below_all _ _ Hud) as Hall. rewrite Forall_forall in Hall. by apply Hall. }
  pose proof (insert_desc_desc n v _ Hsd HvN Hnv) as Hxd.
  pose proof (length_insert_desc v (vertices_of self n k s)) as Hxl.
  assert (Hxv : vertices_of self n (S k) (idx (insert_desc v (vertices_of self n k s)))
                = insert_desc v (vertices_of self n k s))
    by (apply vertices_of_index; [lia|done|lia]).
  assert (Hxn : idx (insert_desc v (vertices_of self n k s)) < choose n (S (S k))).
  { rewrite <- Hsl, <- Hxl. apply simplex_index_rips_lt; [done|lia]. }
  assert (Hxu : forall x, x ∈ vertices_of self n (S k) (idx (insert_desc v (vertices_of self n k s))) ->
                          x ∈ vertices_of self n (S (S k)) u).
  { rewrite Hxv. intros x [->|Hx]%elem_of_insert_desc; [done|by apply Hsub]. }
  split_and!; [|apply elem_of_coboundary; [lia|done|done]|done].
  apply elem_of_coboundary; [lia|done|]. split_and!; [done| |].
  - intros x Hx. rewrite Hxv. apply elem_of_insert_desc. by right.
  - eapply (diameter_face (S k) (S (S k))); [lia|lia|done|done|done|done].
Qed.

(** The [(k+1)]-simplices between [s] and [u] when [u] contains [s]:
    one per vertex of [u] outside [s]. *)
Lemma between_iff s u x :
  s < choose n (S k) -> u < choose n (S (S (S k))) ->
  compute_diameter self n dist (S (S k)) u ≤ᵥ threshold self ->
  (forall y, y ∈ verts k s -> y ∈ verts (S (S k)) u) ->
  x ∈ cob k s /\ u ∈ cob (S k) x <->
  exists v, v ∈ verts (S (S k)) u /\ v ∉ verts k s /\ x = idx (insert_desc v (verts k s)).
Proof.
  intros Hs Hu Hdu Hsub. split.
  - intros [Hxs Hux].
    pose proof Hxs as Hxs'. unfold coboundary in Hxs'. rewrite elem_of_list_to_set in Hxs'.
    destruct (cofacet_facet self n dist k s x ltac:(lia) Hs Hxs') as (Hxn & _ & v & _ & Hv & Hxv).
    apply elem_of_coboundary in Hux as (_ & Hxu & _); [|lia|done].
    exists v. split_and!; [apply Hxu; rewrite Hxv; apply elem_of_insert_desc; by left|done|].
    rewrite <- Hxv. symmetry. apply (vertices_of_valid self n (S k) x ltac:(lia) Hxn).
  - intros (v & Hv & Hnv & ->). by destruct (middle_cofacet s u v Hs Hu Hdu Hsub Hv Hnv) as (? & ? & _).
Qed.

(** Two different vertices give two different [(k+1)]-simplices. *)
Lemma idx_insert_inj s a b :
  s < choose n (S k) -> a < n -> b < n -> a ∉ verts k s -> b ∉ verts k s -> a <> b ->
  idx (insert_desc a (verts k s)) <> idx (insert_desc b (verts k s)).
Proof.
  intros Hs Ha Hb Hna Hnb Hab Heq.
  destruct (vertices_of_valid self n k s ltac:(lia) Hs) as (Hsd & Hsl & _).
  assert (Hins : insert_desc a (verts k s) = insert_desc b (verts k s)).
  { assert (Hv : forall v, v < n -> v ∉ verts k s ->
                 verts (S k) (idx (insert_desc v (verts k s))) = insert_desc v (verts k s)).
    { intros v Hv Hnv. apply vertices_of_index; [lia|by apply insert_desc_desc|].
      rewrite length_insert_desc; lia. }
    by rewrite <- (Hv a), Heq, Hv. }
  assert (Hain : a ∈ insert_desc b (verts k s)) by (rewrite <- Hins; apply elem_of_insert_desc; by left).
  apply elem_of_insert_desc in Hain as [|]; done.
Qed.

(** δδ = 0: the coboundary of the coboundary of a [k]-simplex is zero. *)
Lemma coboundary_coboundary s :
  s < choose n (S k) -> sigma (cob (S k)) (cob k s) = ∅.
Proof.
  intros Hs. apply set_eq. intros u. rewrite elem_of_sigma. split; [|set_solver]. intros Hodd.
  destruct (set_choose_or_empty (filter (fun x => u ∈ cob (S k) x) (cob k s))) as [[x0 Hx0]|He];
    [|by rewrite He, size_empty in Hodd].
  apply elem_of_filter in Hx0 as [Hux0 Hx0s].
  apply elem_of_coboundary in Hx0s as (Hx0n & Hsx0 & _); [|lia|done].
  apply elem_of_coboundary in Hux0 as (Hun & Hx0u & Hdu); [|lia|done].
  assert (Hsub : forall y, y ∈ verts k s -> y ∈ verts (S (S k)) u) by auto.
  destruct (vertices_of_valid self n k s ltac:(lia) Hs) as (Hsd & Hsl & _).
  destruct (vertices_of_valid self n (S (S k)) u ltac:(lia) Hun) as (Hud & Hul & _).
  pose proof (length_outside n _ _ Hsd Hud Hsub) as Hlen.
  remember (List.filter (fun v => negb (bool_decide (v ∈ verts k s))) (verts (S (S k)) u)) as D eqn:HDdef.
  assert (HD : forall v, v ∈ D <-> v ∈ verts (S (S k)) u /\ v ∉ verts k s).
  { intros v. rewrite HDdef, list_elem_of_In, filter_In, negb_true_iff, bool_decide_eq_false,
      <- list_elem_of_In. done. }
  assert (HDnd : NoDup D).
  { rewrite HDdef, NoDup_ListNoDup. apply List.NoDup_filter. rewrite <- NoDup_ListNoDup.
    by eapply desc_below_NoDup. }
  destruct D as [|a [|b [|c D]]]; cbn [length] in Hlen; try lia. clear HDdef.
  destruct (proj1 (HD a) ltac:(left)) as [Hau Has].
  destruct (proj1 (HD b) ltac:(right; left)) as [Hbu Hbs].
  assert (Hab : a <> b) by (apply NoDup_cons in HDnd as [Hn _]; intros ->; apply Hn; left).
  assert (HvN : forall v, v ∈ verts (S (S k)) u -> v < n).
  { intros v Hv. pose proof (desc_below_all _ _ Hud) as Hall. rewrite Forall_forall in Hall. by apply Hall. }
  replace (filter (fun x => u ∈ cob (S k) x) (cob k s))
    with ({[idx (insert_desc a (verts k s))]} ∪ {[idx (insert_desc b (verts k s))]} : gset nat) in Hodd.
  - rewrite size_union, !size_singleton in Hodd; [discriminate|].
    apply disjoint_singleton_l, not_elem_of_singleton.
    apply idx_insert_inj; auto.
  - apply set_eq. intros x. rewrite elem_of_filter, elem_of_union, !elem_of_singleton.
    rewrite (comm and), between_iff by done. split.
    + intros [-> | ->]; eexists; eauto.
    + intros (v & Hv & Hnv & ->). assert (v ∈ [a; b]) as Hvab by (apply HD; done).
      rewrite elem_of_cons, list_elem_of_singleton in Hvab. destruct Hvab as [->| ->]; auto.
Qed.

End Dimension.

End Coboundary.

Section Echelon.
Context `{ValueOrderLaws V} `{ValueOfDouble V}.
Variable self : RipsPersistenceDiagram.
Variable n : nat.
Variable dist : nat -> nat -> V.
Variable k : nat.

Local Notation key := (key self n dist).
Local Notation pivot := (pivot self n dist).

(** Every stored cochain has the pivot it is stored under. *)
Definition echelon (tbl : gmap nat (nat * gset nat)) : Prop :=
  forall t s r, tbl !! t = Some (s, r) -> pivot k r = Some t.

Lemma pivot_intro c t :
  t ∈ c -> (forall x, x ∈ c -> filt_le (key (S k) t) (key (S k) x)) -> pivot k c = Some t.
Proof.
  intros Ht Hmin. destruct (pivot k c) as [t'|] eqn:Hp.
  - destruct (pivot_Some self n dist k c t' Hp) as [Ht' Hmin']. f_equal.
    exact (filt_le_antisym _ _ (Hmin' t Ht) (Hmin t' Ht')).
  - apply pivot_None in Hp. set_solver.
Qed.

Lemma entry_pivot tbl t : echelon tbl -> t ∈ dom tbl -> pivot k (entry tbl t) = Some t.
Proof.
  intros Hech [[s r] Ht]%elem_of_dom. unfold entry. rewrite Ht. by apply (Hech t s).
Qed.

(** In echelon form the pivot of a sum of stored cochains is the oldest
    of their pivots: nothing else cancels it. *)
Lemma pivot_span tbl B t :
  echelon tbl -> B ⊆ dom tbl -> pivot k B = Some t -> pivot k (sigma (entry tbl) B) = Some t.
Proof.
  intros Hech HB Hp. destruct (pivot_Some self n dist k B t Hp) as [HtB Hmin].
  assert (Hent : forall x, x ∈ B -> forall y, y ∈ entry tbl x -> filt_le (key (S k) x) (key (S k) y))
    by (intros x Hx; apply (pivot_Some self n dist k), entry_pivot; [done|by apply HB]).
  assert (Hone : filter (fun x => t ∈ entry tbl x) B = {[t]}).
  { apply set_eq. intros x. rewrite elem_of_filter, elem_of_singleton. split.
    - intros [Htx HxB]. exact (filt_le_antisym _ _ (Hent x HxB t Htx) (Hmin x HxB)).
    - intros ->. split; [|done].
      by destruct (pivot_Some self n dist k _ t (entry_pivot tbl t Hech (HB t HtB))). }
  apply pivot_intro.
  - apply elem_of_sigma. by rewrite Hone, size_singleton.
  - intros y Hy. apply elem_of_sigma in Hy.
    destruct (set_choose_or_empty (filter (fun x => y ∈ entry tbl x) B)) as [[x Hx]|He];
      [|by rewrite He, size_empty in Hy].
    apply elem_of_filter in Hx as [Hyx HxB].
    eapply filt_le_trans; [exact (Hmin x HxB)|exact (Hent x HxB y Hyx)].
Qed.

(** A sum of stored cochains reduces to zero, given one step more than
    the number of cochains summed. *)
Lemma span_reduces tbl fuel B :
  echelon tbl -> B ⊆ dom tbl -> size B < fuel ->
  reduce_column self n dist fuel k tbl (sigma (entry tbl) B) = ∅.
Proof.
  intros Hech. revert B. induction fuel as [|fuel IH]; intros B HB Hsz; [lia|]. cbn [reduce_column].
  destruct (pivot k B) as [t|] eqn:Hp.
  - rewrite (pivot_span tbl B t Hech HB Hp).
    destruct (pivot_Some self n dist k B t Hp) as [HtB _].
    destruct (tbl !! t) as [[s r]|] eqn:Ht; [|apply not_elem_of_dom in Ht; set_solver].
    replace (sigma (entry tbl) B ⊕ r) with (sigma (entry tbl) (B ∖ {[t]})).
    + apply IH; [set_solver|]. assert (size (B ∖ {[t]}) < size B); [|lia].
      apply subset_size. set_solver.
    + replace r with (entry tbl t) by (unfold entry; by rewrite Ht).
      by rewrite (sigma_remove _ B t HtB), (zsum_comm (entry tbl t)), zsum_cancel_r.
  - apply pivot_None in Hp as ->. rewrite sigma_empty.
    by rewrite (proj2 (pivot_None self n dist k ∅) eq_refl).
Qed.

(** Every sum of stored cochains reduces to zero within [N + 1] steps
    when the pivots are below [N]. *)
Lemma in_span_reduces tbl N fuel w :
  echelon tbl -> (forall t, t ∈ dom tbl -> t < N) -> N < fuel -> in_span tbl w ->
  reduce_column self n dist fuel k tbl w = ∅.
Proof.
  intros Hech Hdom Hfuel (B & HB & ->). apply span_reduces; [done|done|].
  assert (size B <= size (set_seq 0 N : gset nat)); [|rewrite size_set_seq in *; lia].
  apply subseteq_size. intros x Hx. apply elem_of_set_seq. pose proof (Hdom x (HB x Hx)). lia.
Qed.

End Echelon.

Section Run.
Context `{ValueOrderLaws V} `{ValueOfDouble V}.
Variable self : RipsPersistenceDiagram.
Variable n : nat.
Variable dist : nat -> nat -> V.

Local Notation cob := (coboundary self n dist).

(** [w] is a sum of coboundaries of [j]-simplices. *)
Definition is_cob (j : nat) (w : gset nat) : Prop :=
  exists A : gset nat, (forall a, a ∈ A -> a < choose n (S j)) /\ w = sigma (cob j) A.

(** The linear algebra of a run: the coboundary of every processed
    column is a sum of stored cochains, and every stored cochain is a sum
    of coboundaries. *)
Definition span_inv (j : nat) (p : list nat) (tbl : gmap nat (nat * gset nat)) : Prop :=
  (forall x, x ∈ p -> in_span tbl (cob j x)) /\
  (forall t s r, tbl !! t = Some (s, r) -> is_cob j r).

Lemma is_cob_empty j : is_cob j ∅.
Proof. exists ∅. split; [set_solver|by rewrite sigma_empty]. Qed.

Lemma is_cob_zsum j a b : is_cob j a -> is_cob j b -> is_cob j (a ⊕ b).
Proof.
  intros (A & HA & ->) (B & HB & ->). exists (A ⊕ B). split; [|by rewrite sigma_zsum].
  intros x [[Hx _]|[Hx _]]%elem_of_zsum; auto.
Qed.

(** The cochains a table stores are cocycles: [δ (δ A) = 0]. *)
Lemma is_cob_cocycle j w : S j <= max_dim self -> is_cob j w -> sigma (cob (S j)) w = ∅.
Proof.
  intros Hj (A & HA & ->). rewrite sigma_sigma. apply sigma_zero.
  intros a Ha. apply (coboundary_coboundary self n dist j Hj), HA, Ha.
Qed.

Section Dim.
Variable j : nat.
Hypothesis Hj : 1 <= j <= max_dim self.

Lemma span_inv_empty : span_inv j [] ∅.
Proof. split; [intros x Hx; by apply not_elem_of_nil in Hx|intros t s r; by rewrite lookup_empty]. Qed.

Lemma span_inv_step st p s :
  table_inv self n dist j p (table st) -> span_inv j p (table st) -> s < choose n (S j) ->
  span_inv j (p ++ [s]) (table (reduction_step_plain self n dist j (reduction_fuel self n j) st s)).
Proof.
  intros Hinv [Hsp Hcob] Hs.
  pose proof (reduce_column_fuel_reduced self n dist j Hj p (table st) s Hinv Hs) as Hred.
  pose proof (reduce_column_span self n dist (reduction_fuel self n j) j (table st) (cob j s)) as Hw.
  unfold reduction_step_plain, settle. unfold reduced in Hred.
  set (w := reduce_column self n dist (reduction_fuel self n j) j (table st) (cob j s)) in *.
  assert (Hcw : is_cob j w).
  { replace w with ((w ⊕ cob j s) ⊕ cob j s) by apply zsum_cancel_r.
    apply is_cob_zsum; [|exists {[s]}; split; [set_solver|by rewrite sigma_singleton]].
    destruct Hw as (B & HB & ->). apply sigma_closed; [apply is_cob_empty|apply is_cob_zsum|].
    intros x Hx. destruct (proj1 (elem_of_dom (table st) x) (HB x Hx)) as [[s' r] Hr].
    unfold entry. rewrite Hr. by apply (Hcob x s'). }
  assert (Hcs : cob j s = w ⊕ (w ⊕ cob j s)) by by rewrite zsum_assoc, zsum_self, zsum_empty_l.
  destruct (pivot self n dist j w) as [t|] eqn:Hp; simpl; split.
  - intros x [Hx|Hx%list_elem_of_singleton]%elem_of_app; [by apply in_span_insert, Hsp|subst x].
    rewrite Hcs. apply in_span_zsum; [|by apply in_span_insert].
    pose proof (in_span_entry (<[t := (s, w)]> (table st)) t) as He.
    unfold entry in He. rewrite lookup_insert_eq in He. apply He. rewrite dom_insert_L. set_solver.
  - intros t' s' r. destruct (decide (t' = t)) as [->|Hne].
    + rewrite lookup_insert_eq. by intros [= <- <-].
    + rewrite lookup_insert_ne by done. apply Hcob.
  - apply pivot_None in Hp. rewrite Hp, zsum_empty_l in Hw.
    intros x [Hx|Hx%list_elem_of_singleton]%elem_of_app; [by apply Hsp|by subst x].
  - done.
Qed.

Lemma reduce_dim_span columns :
  columns_ok self n dist j columns ->
  span_inv j (map snd (rev columns)) (table (reduce_dim self n dist j columns)).
Proof.
  intros Hok. destruct (columns_ok_fold self n dist j columns Hok) as [Hsort Hl].
  rewrite (reduce_dim_eq self n dist j columns Hj Hok). unfold reduce_dim_plain.
  apply (fold_plain_ind self n dist j Hj (fun p st => span_inv j p (table st)) _ _ (mkRedState ∅ []) []);
    [|apply table_inv_empty; lia|apply span_inv_empty|done|done].
  intros st p s Hi Hs _ Hsn. by apply span_inv_step.
Qed.

(** Processing order is asymmetric: a column processed before [s] in a
    sorted run is among the columns before [s]. *)
Lemma before_in_prefix p s l x :
  StronglySorted (processed_before self n dist j) (p ++ s :: l) ->
  x ∈ p ++ s :: l -> processed_before self n dist j x s -> x ∈ p.
Proof.
  intros Hsort Hx [Hne Hle]. apply elem_of_app in Hx as [Hx|Hx]; [done|exfalso].
  apply elem_of_cons in Hx as [->|Hx]; [done|].
  apply StronglySorted_app_1_r in Hsort. apply StronglySorted_cons in Hsort as [Hall _].
  rewrite Forall_forall in Hall. destruct (Hall x Hx) as [_ Hle'].
  apply Hne. exact (filt_le_antisym _ _ Hle' Hle).
Qed.

(** A column whose coboundary is a sum of coboundaries of columns
    processed before it reduces to zero. *)
Lemma cleared_column_zero (st : @red_state V) p s l X :
  table_inv self n dist j p (table st) -> span_inv j p (table st) ->
  StronglySorted (processed_before self n dist j) (p ++ s :: l) ->
  cob j s = sigma (cob j) X ->
  (forall x, x ∈ X -> x ∈ p ++ s :: l /\ processed_before self n dist j x s) ->
  reduce_column self n dist (reduction_fuel self n j) j (table st) (cob j s) = ∅.
Proof.
  intros Hinv [Hsp _] Hsort HX Hx.
  apply (in_span_reduces self n dist j _ (choose n (S (S j)))).
  - intros t s' r Ht. by destruct (Hinv t s' r Ht) as (_ & _ & ? & _).
  - intros t [[s' r] Ht]%elem_of_dom.
    destruct (table_inv_bound self n dist j Hj p _ Hinv t s' r Ht) as [Hp Hb].
    apply Hb, (pivot_Some self n dist j r t Hp).
  - rewrite reduction_fuel_choose by lia. lia.
  - rewrite HX. apply in_span_sigma. intros x Hxs. apply Hsp.
    destruct (Hx x Hxs) as [Hin Hb]. by eapply before_in_prefix.
Qed.

(** A step of the plain reduction appends to the pairs what the table
    and the column alone determine. *)
Lemma step_plain_shape fuel st s :
  reduction_step_plain self n dist j fuel st s =
  mkRedState (table (reduction_step_plain self n dist j fuel (mkRedState (table st) []) s))
    (pairs st ++ pairs (reduction_step_plain self n dist j fuel (mkRedState (table st) []) s)).
Proof.
  unfold reduction_step_plain, settle, emit. simpl.
  destruct (pivot _ _ _ _ _); [destruct (vlt _ _)|]; simpl; by rewrite ?app_nil_r.
Qed.

(** The plain reduction of a list of columns and of the same list with
    the columns of [P] left out agree on the table, and on the pairs up
    to the essential pairs of the columns left out, when the coboundary
    of each column of [P] is a sum of coboundaries of columns processed
    before it. *)
Lemma clearing_sim (P : list nat) l : forall stf stc p,
  table stc = table stf -> pairs stc `sublist_of` pairs stf ->
  List.filter is_finite (pairs stc) = List.filter is_finite (pairs stf) ->
  table_inv self n dist j p (table stf) -> span_inv j p (table stf) ->
  StronglySorted (processed_before self n dist j) (p ++ l) ->
  (forall s, s ∈ l -> s < choose n (S j)) ->
  (forall t, t ∈ l -> t ∈ P -> exists X, cob j t = sigma (cob j) X /\
     forall x, x ∈ X -> x ∈ p ++ l /\ processed_before self n dist j x t) ->
  let run := fold_left (reduction_step_plain self n dist j (reduction_fuel self n j)) in
  table (run (List.filter (fun s => negb (bool_decide (s ∈ P))) l) stc) = table (run l stf) /\
  pairs (run (List.filter (fun s => negb (bool_decide (s ∈ P))) l) stc) `sublist_of` pairs (run l stf) /\
  List.filter is_finite (pairs (run (List.filter (fun s => negb (bool_decide (s ∈ P))) l) stc)) =
  List.filter is_finite (pairs (run l stf)).
Proof.
  induction l as [|s l IH]; intros stf stc p Htbl Hsub Hfin Hinv Hspan Hsort Hl HP run; [done|].
  assert (Hs : s < choose n (S j)) by (apply Hl; by left).
  pose proof (before_head self n dist j p s l Hsort) as Hb.
  pose proof (table_inv_step self n dist j Hj (reduction_fuel self n j) stf p s Hinv Hb Hs) as Hinv'.
  pose proof (span_inv_step stf p s Hinv Hspan Hs) as Hspan'.
  assert (Hsort' : StronglySorted (processed_before self n dist j) ((p ++ [s]) ++ l))
    by by rewrite <- app_assoc.
  assert (Hl' : forall x, x ∈ l -> x < choose n (S j)) by (intros; apply Hl; by right).
  assert (HP' : forall t, t ∈ l -> t ∈ P -> exists X, cob j t = sigma (cob j) X /\
     forall x, x ∈ X -> x ∈ (p ++ [s]) ++ l /\ processed_before self n dist j x t)
    by (rewrite <- app_assoc; intros t Ht; apply HP; by right).
  cbn [List.filter]. subst run. cbn [fold_left]. case_bool_decide as HsP; cbn [negb].
  - destruct (HP s ltac:(by left) HsP) as (X & HX & Hx).
    assert (Hstep : reduction_step_plain self n dist j (reduction_fuel self n j) stf s =
                    mkRedState (table stf) (pairs stf ++ [mkPair (compute_diameter self n dist j s) Infinite])).
    { unfold reduction_step_plain. rewrite (cleared_column_zero stf p s l X Hinv Hspan Hsort HX Hx).
      unfold settle. by rewrite (proj2 (pivot_None self n dist j ∅) eq_refl). }
    rewrite Hstep in Hinv', Hspan' |- *.
    apply (IH _ _ (p ++ [s])); try done; simpl; [by apply sublist_inserts_r|by rewrite List.filter_app, app_nil_r].
  - apply (IH _ _ (p ++ [s])); try done.
    + by rewrite (step_plain_shape _ stc), (step_plain_shape _ stf), Htbl.
    + rewrite (step_plain_shape _ stc), (step_plain_shape _ stf), Htbl. simpl.
      by apply sublist_app.
    + rewrite (step_plain_shape _ stc), (step_plain_shape _ stf), Htbl. simpl.
      by rewrite !List.filter_app, Hfin.
Qed.

End Dim.
End Run.

(** ** Clearing *)

Section Clear.
Context `{ValueOrderLaws V} `{ValueOfDouble V}.
Variable self : RipsPersistenceDiagram.
Variable n : nat.
Variable dist : nat -> nat -> V.
Variable k : nat.
Hypothesis Hk : 1 <= k.
Hypothesis Hk' : S k <= max_dim self.

Local Notation cob := (coboundary self n dist).

(** A pivot [t] of dimension [k] has, as its coboundary, the sum of the
    coboundaries of the other simplices of its reduced cochain: all
    [(k+1)]-simplices of the filtration processed before [t]. *)
Lemma cleared_coboundary columns t :
  columns_ok self n dist k columns -> t ∈ (compute_dim_pairs self n dist k columns).2 ->
  exists X, cob (S k) t = sigma (cob (S k)) X /\
    forall x, x ∈ X -> x ∈ map snd (rev (enumerate_simplices self n dist (S k))) /\
                       processed_before self n dist (S k) x t.
Proof.
  intros Hok Ht. unfold compute_dim_pairs in Ht. simpl in Ht.
  apply list_elem_of_fmap in Ht as ([t' [s r]] & -> & Ht). apply elem_of_map_to_list in Ht. simpl.
  destruct (reduce_dim_inv self n dist k ltac:(lia) columns Hok t' s r Ht) as (_ & Hs & Hp & Hsup).
  destruct (reduce_dim_span self n dist k ltac:(lia) columns Hok) as [_ Hcob].
  pose proof (is_cob_cocycle self n dist k r Hk' (Hcob t' s r Ht)) as Hcoc.
  destruct (pivot_Some self n dist k r t' Hp) as [Htr Hmin].
  exists (r ∖ {[t']}). split.
  - apply zsum_empty_iff. by rewrite <- sigma_remove.
  - intros x [Hxr Hxt]%elem_of_difference. split.
    + destruct (Hsup x Hxr) as (rho & Hrho & Hc & _).
      destruct (cofacet_facet self n dist k rho x ltac:(lia) Hrho Hc) as (Hxn & _).
      apply elem_of_cofacets in Hc as [_ Hle].
      apply list_elem_of_fmap. exists (compute_diameter self n dist (S k) x, x).
      split; [done|]. rewrite elem_of_rev. apply enumerate_simplices_elem; [lia|done].
    + split; [set_solver|by apply Hmin].
Qed.

End Clear.

(** ** Soundness of clearing *)

Section Properties.
Context `{ValueOrderLaws V} `{ValueOfDouble V}.

(** Clearing is sound in one dimension: for [1 <= k] with [k+1 <= MaxDim] and the
    columns of dimension [k] in filtration order (no index twice, each a
    [k]-simplex with its diameter), reducing the columns of dimension
    [k+1] that [assemble_columns] keeps (the filtration minus the pivots
    of dimension [k]) gives the same pivot table as reducing every
    [(k+1)]-simplex of the filtration, and the same finite pairs; its
    pairs are those of the full reduction with only essential pairs left
    out (the cleared columns reduce to zero). *)
Theorem clearing_sound self n (dist : nat -> nat -> V) k columns :
  1 <= k -> S k <= max_dim self -> columns_ok self n dist k columns ->
  table (reduce_dim self n dist (S k)
           (assemble_columns self n dist (S k) (compute_dim_pairs self n dist k columns).2)) =
  table (reduce_dim self n dist (S k) (enumerate_simplices self n dist (S k))) /\
  pairs (reduce_dim self n dist (S k)
           (assemble_columns self n dist (S k) (compute_dim_pairs self n dist k columns).2))
    `sublist_of` pairs (reduce_dim self n dist (S k) (enumerate_simplices self n dist (S k))) /\
  List.filter is_finite (pairs (reduce_dim self n dist (S k)
           (assemble_columns self n dist (S k) (compute_dim_pairs self n dist k columns).2))) =
  List.filter is_finite (pairs (reduce_dim self n dist (S k) (enumerate_simplices self n dist (S k)))).
Proof.
  intros Hk Hk' Hok.
  set (P := (compute_dim_pairs self n dist k columns).2).
  pose proof (columns_ok_enumerate self n dist (S k) ltac:(lia)) as Hfull.
  assert (Hcl : columns_ok self n dist (S k) (assemble_columns self n dist (S k) P))
    by (eapply columns_ok_sublist; [apply List_filter_sublist|done]).
  assert (Hf : map snd (rev (assemble_columns self n dist (S k) P)) =
                List.filter (fun s => negb (bool_decide (s ∈ P)))
                  (map snd (rev (enumerate_simplices self n dist (S k))))).
  { unfold assemble_columns. by rewrite <- List.filter_rev, filter_map_comm. }
  rewrite !reduce_dim_eq by (done || lia). unfold reduce_dim_plain. rewrite Hf.
  destruct (columns_ok_fold self n dist (S k) _ Hfull) as [Hsort Hl].
  apply (clearing_sim self n dist (S k) ltac:(lia) P _ _ _ []);
    [done|done|done|apply table_inv_empty; lia|apply span_inv_empty|done|done|].
  intros t _ HtP. exact (cleared_coboundary self n dist k Hk Hk' columns t Hok HtP).
Qed.

End Properties.

Lemma clearing_sound_witness :
  let d := cloud_dist unit_square in
  let P := (compute_dim_pairs square_dim2_config 4 d 1 (enumerate_simplices square_dim2_config 4 d 1)).2 in
  table (reduce_dim square_dim2_config 4 d 2 (assemble_columns square_dim2_config 4 d 2 P)) =
  table (reduce_dim square_dim2_config 4 d 2 (enumerate_simplices square_dim2_config 4 d 2)) /\
  pairs (reduce_dim square_dim2_config 4 d 2 (assemble_columns square_dim2_config 4 d 2 P))
    `sublist_of` pairs (reduce_dim square_dim2_config 4 d 2 (enumerate_simplices square_dim2_config 4 d 2)) /\
  List.filter is_finite (pairs (reduce_dim square_dim2_config 4 d 2 (assemble_columns square_dim2_config 4 d 2 P))) =
  List.filter is_finite (pairs (reduce_dim square_dim2_config 4 d 2 (enumerate_simplices square_dim2_config 4 d 2))).
Proof.
  apply (clearing_sound square_dim2_config 4 (cloud_dist unit_square) 1).
  - lia.
  - vm_compute. lia.
  - apply columns_ok_enumerate. vm_compute. lia.
Defined.

(** ** Clearing in the whole computation *)

Section Pipeline.
Context `{ValueOrderLaws V} `{ValueOfDouble V}.
Variable self : RipsPersistenceDiagram.
Variable n : nat.
Variable dist : nat -> nat -> V.

Lemma higher_dims_S m k columns :
  higher_dims self n dist (S m) k columns =
  pairs (reduce_dim self n dist k columns) ::
    higher_dims self n dist m (S k)
      (assemble_columns self n dist (S k) (compute_dim_pairs self n dist k columns).2).
Proof. reflexivity. Qed.

(** From the second dimension given on, the pipeline with clearing has
    the finite pairs of the reference without clearing. *)
Lemma higher_dims_clearing m k columns :
  1 <= k -> k + m <= max_dim self -> columns_ok self n dist k columns ->
  Forall2 same_finite_pairs (tail (higher_dims self n dist (S m) k columns))
    (higher_dims_full self n dist m (S k)).
Proof.
  revert k columns. induction m as [|m IH]; intros k columns Hk Hkm Hok; [constructor|].
  destruct (clearing_sound self n dist k columns Hk ltac:(lia) Hok) as (Htbl & Hsub & Hfin).
  rewrite !higher_dims_S. cbn [tail higher_dims_full]. constructor; [done|].
  replace (compute_dim_pairs self n dist (S k)
             (assemble_columns self n dist (S k) (compute_dim_pairs self n dist k columns).2)).2
    with (compute_dim_pairs self n dist (S k) (enumerate_simplices self n dist (S k))).2
    by (change (compute_dim_pairs self n dist (S k) ?c).2
          with (map fst (map_to_list (table (reduce_dim self n dist (S k) c)))); by rewrite Htbl).
  pose proof (IH (S k) (enumerate_simplices self n dist (S k)) ltac:(lia) ltac:(lia)
                (columns_ok_enumerate self n dist (S k) ltac:(lia))) as IH'.
  by rewrite higher_dims_S in IH'.
Qed.

End Pipeline.

End Clearing.
