(* ===== verification/ClearingDim1.v ===== *)
(** * Soundness of clearing in dimension 1, and in the whole computation

    The columns of dimension 1 are not the edges of the filtration but
    the edges the zero-dimensional reducer kept ([compute_dim_0_pairs]):
    the edges that merge two union-find classes are cleared.  This file
    proves that they would reduce to zero too, and concludes that every
    dimension [1..MaxDim] of [compute_barcodes] has the finite pairs of
    the reduction without clearing.

    - [vertices_of_vertex], [elem_of_vertex_coboundary]: the coboundary
      of a vertex is the set of edges at it within the threshold;
      [elem_of_cut]: the coboundary of a set [S] of vertices is the set
      of edges with exactly one end in [S].
    - [link_all_edge]: after linking a list of edges, the two ends of
      each of them share a root.
    - [merge_edge_coboundary]: a merging edge [t] is the oldest edge
      leaving the class [S] of one of its ends in the union-find before
      [t]; by δδ = 0 ([Clearing.coboundary_coboundary] in dimension 0)
      the coboundary of [t] is the sum of the coboundaries of the other
      edges leaving [S], all younger than [t].
    - [clearing_dim1_sound]: the reduction of the kept edges and of all
      the edges have the same table and the same finite pairs (with
      [Clearing.clearing_sim]); [compute_barcodes_clearing] combines it
      with [Clearing.higher_dims_clearing].
*)

From S2P Require Import Prelude Cochains RipsConfig Distance Binomial SimplexIndex Filtration UnionFind Homology0 Cohomology Assembler Clearing.
From Stdlib Require Import Relations.

Module ClearingDim1.
Import Cochains.Cochains RipsConfig.RipsConfig Distance.Distance Binomial.Binomial SimplexIndex.Indexer
  Filtration.Filtration UnionFind.UnionFind Homology0.Homology0 Cohomology.Cohomology
  Assembler.Assembler Clearing.Clearing.

(** ** Definitions *)

(** The edges of the filtration that the zero-dimensional reducer does
    not keep as columns: the merging edges, cleared from dimension 1. *)
Definition merge_edges `{ValueOrder V} `{ValueOfDouble V} self n (dist : nat -> nat -> V) : list nat :=
  List.filter
    (fun e => negb (bool_decide (e ∈ map snd (dim0_loop self n (uf_new n) (enumerate_simplices self n dist 1)).2)))
    (map snd (enumerate_simplices self n dist 1)).

(** ** Lists *)

(** Filtering a list by membership in one of its sublists gives the
    sublist, when the keys have no duplicate. *)
Lemma filter_sublist_snd {A} (l1 l2 : list (A * nat)) :
  l1 `sublist_of` l2 -> NoDup (map snd l2) ->
  List.filter (fun s => bool_decide (s ∈ map snd l1)) (map snd l2) = map snd l1.
Proof.
  induction 1 as [|x l1 l2 Hsub IH|x l1 l2 Hsub IH]; intros Hnd; [done| |];
    cbn [map List.filter] in *; apply NoDup_cons in Hnd as [Hx Hnd].
  - rewrite bool_decide_true by (by left). f_equal. etransitivity; [|apply (IH Hnd)].
    apply filter_ext_in. intros s Hs%list_elem_of_In.
    apply bool_decide_ext. rewrite elem_of_cons. split; [intros [->|?]; [by destruct Hx|done]|by right].
  - rewrite bool_decide_false; [by apply IH|].
    intros Hin. apply Hx. apply list_elem_of_fmap in Hin as (y & -> & Hy).
    apply list_elem_of_fmap. exists y. split; [done|]. by eapply elem_of_sublist.
Qed.

Section Vertices.
Context `{ValueOrderLaws V} `{ValueOfDouble V}.
Variable self : RipsPersistenceDiagram.
Variable n : nat.
Variable dist : nat -> nat -> V.
Hypothesis Hm : 1 <= max_dim self.

Local Notation cob := (coboundary self n dist).

Lemma vertices_of_vertex v : v < n -> vertices_of self n 0 v = [v].
Proof.
  intros Hv. assert (Hidx : simplex_index (rips_binomial self n) [v] = v).
  { unfold rips_binomial. rewrite simplex_index_table by (simpl; lia || (split; [lia|done])).
    simpl. rewrite choose_1_r. lia. }
  rewrite <- Hidx at 1. apply vertices_of_index; [lia|simpl; split; [lia|done]|done].
Qed.

(** The coboundary of a vertex: the edges at it within the threshold. *)
Lemma elem_of_vertex_coboundary v x :
  v < n ->
  x ∈ cob 0 v <->
  x < choose n 2 /\ v ∈ vertices_of self n 1 x /\
  compute_diameter self n dist 1 x ≤ᵥ threshold self.
Proof.
  intros Hv. rewrite elem_of_coboundary by (lia || (rewrite choose_1_r; done)).
  rewrite vertices_of_vertex by done. split.
  - intros (Hx & Hsub & Hd). split_and!; [done|apply Hsub; by left|done].
  - intros (Hx & Hvx & Hd). split_and!; [done| |done].
    intros y Hy%list_elem_of_singleton. by subst.
Qed.

(** The coboundary of a set of vertices: the edges within the threshold
    with exactly one end in the set. *)
Lemma elem_of_cut S x :
  (forall w, w ∈ S -> w < n) ->
  x ∈ sigma (cob 0) S <->
  x < choose n 2 /\ compute_diameter self n dist 1 x ≤ᵥ threshold self /\
  ((edge_ends self n x).1 ∈ S <-> (edge_ends self n x).2 ∉ S).
Proof.
  intros HS. rewrite elem_of_sigma.
  destruct (decide (x < choose n 2 /\ compute_diameter self n dist 1 x ≤ᵥ threshold self))
    as [[Hx Hd]|Hno].
  - destruct (edge_ends_spec self n x Hx) as [Hab Hvs].
    set (a := (edge_ends self n x).1) in *. set (b := (edge_ends self n x).2) in *.
    replace (filter (fun w => x ∈ cob 0 w) S) with (filter (fun w => w = a \/ w = b) S).
    2:{ apply set_eq. intros w. rewrite !elem_of_filter. split; intros [Hw HwS]; split; try done.
        - rewrite elem_of_vertex_coboundary by (by apply HS). rewrite Hvs.
          split_and!; [done| |done]. destruct Hw as [->| ->]; set_solver.
        - rewrite elem_of_vertex_coboundary in Hw by (by apply HS).
          destruct Hw as (_ & Hw & _). rewrite Hvs in Hw. set_solver. }
    destruct (decide (a ∈ S)) as [Ha|Ha], (decide (b ∈ S)) as [Hb|Hb].
    + replace (filter (fun w => w = a \/ w = b) S) with ({[a]} ∪ {[b]} : gset nat) by (apply set_eq; intros w; rewrite elem_of_filter; set_solver).
      rewrite size_union, !size_singleton by (apply disjoint_singleton_l, not_elem_of_singleton; lia).
      split; [discriminate|tauto].
    + replace (filter (fun w => w = a \/ w = b) S) with ({[a]} : gset nat) by (apply set_eq; intros w; rewrite elem_of_filter; set_solver).
      rewrite size_singleton. tauto.
    + replace (filter (fun w => w = a \/ w = b) S) with ({[b]} : gset nat) by (apply set_eq; intros w; rewrite elem_of_filter; set_solver).
      rewrite size_singleton. tauto.
    + replace (filter (fun w => w = a \/ w = b) S) with (∅ : gset nat) by (apply set_eq; intros w; rewrite elem_of_filter; set_solver).
      rewrite size_empty. split; [discriminate|tauto].
  - replace (filter (fun w => x ∈ cob 0 w) S) with (∅ : gset nat).
    + rewrite size_empty. split; [discriminate|tauto].
    + symmetry. apply set_eq. intros w. rewrite elem_of_filter. split; [|set_solver].
      intros [Hw HwS]. apply elem_of_vertex_coboundary in Hw as (? & _ & ?); [|by apply HS].
      by destruct Hno.
Qed.

End Vertices.

Section MergeEdges.
Context `{ValueOrderLaws V} `{ValueOfDouble V}.
Variable self : RipsPersistenceDiagram.
Variable n : nat.
Variable dist : nat -> nat -> V.
Hypothesis Hm : 1 <= max_dim self.

Local Notation cob := (coboundary self n dist).
Local Notation enum := (enumerate_simplices self n dist 1).

(** After linking a list of edges, the two ends of each of them share a
    root. *)
Lemma link_all_edge es a b :
  edges_below n es -> (a, b) ∈ es -> a < n -> b < n ->
  find (link_all (uf_new n) es) a = find (link_all (uf_new n) es) b.
Proof.
  intros Hes Hab Ha Hb.
  destruct (link_all_spec n es (uf_new n) [] (uf_new_wf n) (Forall_nil_2 _) Hes) as [_ Hc].
  - intros u v Hu Hv. rewrite !find_uf_new by done.
    split; [intros ->; apply rst_refl|apply connected_nil].
  - apply Hc; [done|done|]. apply rst_step. exact Hab.
Qed.

Lemma edges_below_prefix pre rest :
  enum = pre ++ rest -> edges_below n (edge_list self n pre).
Proof.
  intros Hsplit. pose proof (edge_list_below self n dist) as Hb.
  unfold edges_below, edge_list in *. rewrite Hsplit, map_app, Forall_app in Hb. apply Hb.
Qed.

(** A merging edge joins two classes of the union-find built from the
    edges before it. *)
Lemma merge_edge_split t :
  t ∈ merge_edges self n dist ->
  exists pre d post, enum = pre ++ (d, t) :: post /\
    find (link_all (uf_new n) (edge_list self n pre)) (edge_ends self n t).1 <>
    find (link_all (uf_new n) (edge_list self n pre)) (edge_ends self n t).2.
Proof.
  unfold merge_edges. intros Ht. rewrite list_elem_of_In, filter_In in Ht. destruct Ht as [Hin Hcol].
  apply negb_true_iff, bool_decide_eq_false in Hcol.
  rewrite <- list_elem_of_In, list_elem_of_fmap in Hin. destruct Hin as ([d t'] & Heq & Hin).
  simpl in Heq. subst t'.
  destruct (list_elem_of_split _ _ Hin) as (pre & post & Hsplit).
  exists pre, d, post. split; [done|]. intros Hfind. apply Hcol.
  rewrite Hsplit, dim0_loop_app. rewrite <- (dim0_loop_uf self n (uf_new n) pre) in Hfind.
  destruct (edge_ends self n t) as [u v] eqn:Huv. cbn [fst snd] in Hfind.
  destruct (dim0_loop self n (uf_new n) pre) as [[uf1 d1] c1]. cbn [fst] in Hfind.
  cbn [dim0_loop]. rewrite Huv. cbn -[find link dim0_loop].
  rewrite Hfind, Nat.eqb_refl.
  destruct (dim0_loop self n uf1 post) as [[uf2 d2] c2]. cbn -[find link].
  rewrite map_app. apply elem_of_app. right. by left.
Qed.

(** The coboundary of a merging edge [t] is the sum of the coboundaries
    of younger edges: the other edges leaving the class of one end of
    [t] in the union-find before [t]. *)
Lemma merge_edge_coboundary t :
  t ∈ merge_edges self n dist ->
  exists X, cob 1 t = sigma (cob 1) X /\
    forall x, x ∈ X -> x ∈ map snd (rev enum) /\ processed_before self n dist 1 x t.
Proof.
  intros Ht. destruct (merge_edge_split t Ht) as (pre & d & post & Hsplit & Hne).
  set (uf := link_all (uf_new n) (edge_list self n pre)) in *.
  assert (Hdt : (d, t) ∈ enum) by (rewrite Hsplit; apply elem_of_app; right; by left).
  apply enumerate_simplices_elem in Hdt as (Htn & -> & Htd); [|lia].
  destruct (edge_ends_spec self n t Htn) as [Huv _].
  set (u := (edge_ends self n t).1) in *. set (v := (edge_ends self n t).2) in *.
  set (S := filter (fun w => find uf w = find uf u) (set_seq 0 n : gset nat)).
  assert (HSw : forall w, w < n -> w ∈ S <-> find uf w = find uf u).
  { intros w Hw. unfold S. rewrite elem_of_filter, elem_of_set_seq. split; [tauto|]. intros; split; [done|lia]. }
  assert (HS : forall w, w ∈ S -> w < n).
  { intros w Hw. unfold S in Hw. apply elem_of_filter in Hw as [_ Hw]. apply elem_of_set_seq in Hw. lia. }
  assert (Hcut : t ∈ sigma (cob 0) S).
  { apply elem_of_cut; [done|done|]. split_and!; [done|done|]. fold u v.
    rewrite !HSw by lia. split; [intros _ Hvu; apply Hne; by rewrite Hvu|done]. }
  assert (Hcoc : sigma (cob 1) (sigma (cob 0) S) = ∅).
  { rewrite sigma_sigma. apply sigma_zero. intros w Hw.
    apply (coboundary_coboundary self n dist 0 Hm). rewrite choose_1_r. by apply HS. }
  exists (sigma (cob 0) S ∖ {[t]}). split.
  { apply zsum_empty_iff. by rewrite <- sigma_remove. }
  intros x [Hx Hxt%not_elem_of_singleton]%elem_of_difference.
  apply elem_of_cut in Hx as (Hxn & Hxd & Hends); [|done|done].
  destruct (edge_ends_spec self n x Hxn) as [Hab _].
  assert (Hxe : (compute_diameter self n dist 1 x, x) ∈ enum)
    by (apply enumerate_simplices_elem; [lia|done]).
  split.
  { apply list_elem_of_fmap. exists (compute_diameter self n dist 1 x, x). split; [done|].
    by rewrite elem_of_rev. }
  split; [done|].
  rewrite Hsplit in Hxe. apply elem_of_app in Hxe as [Hpre|Hpost].
  - exfalso.
    assert (Hsame : find uf (edge_ends self n x).1 = find uf (edge_ends self n x).2).
    { apply link_all_edge; [by eapply edges_below_prefix| |lia|lia].
      unfold edge_list. apply list_elem_of_fmap. exists (compute_diameter self n dist 1 x, x).
      split; [|exact Hpre]. cbn [snd]. by destruct (edge_ends self n x). }
    rewrite !HSw in Hends by lia. rewrite Hsame in Hends. tauto.
  - apply elem_of_cons in Hpost as [Heq|Hpost]; [injection Heq; congruence|].
    pose proof (proj1 (enumerate_simplices_sorted self n dist 1)) as Hsort. rewrite Hsplit in Hsort.
    apply StronglySorted_app_1_r, StronglySorted_cons in Hsort as [Hall _].
    rewrite Forall_forall in Hall. exact (Hall _ Hpost).
Qed.

End MergeEdges.

Section Dim1.
Context `{ValueOrderLaws V} `{ValueOfDouble V}.
Variable self : RipsPersistenceDiagram.
Variable n : nat.
Variable dist : nat -> nat -> V.

Local Notation enum := (enumerate_simplices self n dist 1).

Lemma compute_dim_0_cols :
  (compute_dim_0_pairs self n dist).2 = (dim0_loop self n (uf_new n) enum).2.
Proof. unfold compute_dim_0_pairs. by destruct (dim0_loop self n (uf_new n) enum) as [[? ?] ?]. Qed.

(** The columns of dimension 1 are the edges of the filtration minus the
    merging edges, in the same order. *)
Lemma dim1_columns :
  map snd (rev (compute_dim_0_pairs self n dist).2) =
  List.filter (fun s => negb (bool_decide (s ∈ merge_edges self n dist))) (map snd (rev enum)).
Proof.
  rewrite compute_dim_0_cols, !map_rev, List.filter_rev. f_equal.
  pose proof (dim0_loop_cols self n (uf_new n) enum) as Hsub.
  pose proof (proj2 (enumerate_simplices_sorted self n dist 1)) as Hnd.
  rewrite <- (filter_sublist_snd _ _ Hsub Hnd). apply filter_ext_in. intros s Hs.
  assert (Hiff : s ∈ merge_edges self n dist <-> s ∉ map snd (dim0_loop self n (uf_new n) enum).2).
  { unfold merge_edges. rewrite list_elem_of_In, filter_In, negb_true_iff, bool_decide_eq_false.
    tauto. }
  destruct (decide (s ∈ map snd (dim0_loop self n (uf_new n) enum).2)) as [Hc|Hc].
  - rewrite (bool_decide_true (_ ∈ map snd _)), (bool_decide_false (_ ∈ merge_edges _ _ _)); tauto.
  - rewrite (bool_decide_false (_ ∈ map snd _)), (bool_decide_true (_ ∈ merge_edges _ _ _)); tauto.
Qed.

(** Clearing is sound in dimension 1: reducing the edges the
    zero-dimensional reducer keeps gives the table and the finite pairs
    of the reduction of every edge of the filtration. *)
Lemma clearing_dim1_sound :
  1 <= max_dim self ->
  table (reduce_dim self n dist 1 (compute_dim_0_pairs self n dist).2) =
  table (reduce_dim self n dist 1 enum) /\
  pairs (reduce_dim self n dist 1 (compute_dim_0_pairs self n dist).2)
    `sublist_of` pairs (reduce_dim self n dist 1 enum) /\
  List.filter is_finite (pairs (reduce_dim self n dist 1 (compute_dim_0_pairs self n dist).2)) =
  List.filter is_finite (pairs (reduce_dim self n dist 1 enum)).
Proof.
  intros Hm. pose proof (dim0_columns_ok self n dist) as Hcols.
  pose proof (columns_ok_enumerate self n dist 1 ltac:(lia)) as Hfull.
  rewrite !reduce_dim_eq by (done || lia). unfold reduce_dim_plain. rewrite dim1_columns.
  destruct (columns_ok_fold self n dist 1 _ Hfull) as [Hsort Hl].
  apply (clearing_sim self n dist 1 ltac:(lia) (merge_edges self n dist) _ _ _ []);
    [done|done|done|apply table_inv_empty; lia|apply span_inv_empty|done|done|].
  intros t _ Ht. by apply merge_edge_coboundary.
Qed.

End Dim1.

(** ** Clearing in the whole computation *)

(** [C5] Clearing is sound for the whole computation: the pairs
    [compute_barcodes] gives in each dimension [1..MaxDim] (whose
    columns are cleared, of the merging edges of H0 in dimension 1 and
    of the previous dimension's pivots above) are those of the reduction
    of every simplex of the filtration in that dimension
    ([higher_dims_full]), with only essential pairs left out: the finite
    pairs are the same. *)
Theorem compute_barcodes_clearing `{ValueOrderLaws V} `{ValueOfDouble V}
    self n (dist : nat -> nat -> V) :
  Forall2 same_finite_pairs (drop 1 (compute_barcodes self n dist))
    (higher_dims_full self n dist (max_dim self) 1).
Proof.
  unfold compute_barcodes. pose proof (clearing_dim1_sound self n dist) as Hdim1.
  destruct (max_dim self) as [|m] eqn:E.
  { destruct (compute_dim_0_pairs self n dist). constructor. }
  destruct (Hdim1 ltac:(lia)) as (Htbl & Hsub & Hfin). clear Hdim1.
  destruct (compute_dim_0_pairs self n dist) as [h0 cols]. cbn [snd] in Htbl, Hsub, Hfin.
  cbv beta iota. rewrite higher_dims_S. cbn [drop higher_dims_full]. constructor; [done|].
  replace (compute_dim_pairs self n dist 1 cols).2
    with (compute_dim_pairs self n dist 1 (enumerate_simplices self n dist 1)).2
    by (change (compute_dim_pairs self n dist 1 ?c).2
          with (map fst (map_to_list (table (reduce_dim self n dist 1 c)))); by rewrite Htbl).
  pose proof (higher_dims_clearing self n dist m 1 (enumerate_simplices self n dist 1)
                ltac:(lia) ltac:(lia) (columns_ok_enumerate self n dist 1 ltac:(lia))) as Hc.
  by rewrite higher_dims_S in Hc.
Qed.

Lemma compute_barcodes_clearing_witness :
  Forall2 same_finite_pairs (drop 1 (compute_barcodes square_dim2_config 4 (cloud_dist unit_square)))
    (higher_dims_full square_dim2_config 4 (cloud_dist unit_square) (max_dim square_dim2_config) 1).
Proof. apply (compute_barcodes_clearing square_dim2_config 4 (cloud_dist unit_square)). Defined.

End ClearingDim1.
